(** * Azure DevOps MCP server: a shallow embedding of its tool handlers

    The server (src/src/index.ts and its later revision, the first file of
    src/unnamed/part_000) translates tool calls into HTTP requests against
    the Azure DevOps REST API.  This development embeds

    - the JavaScript values and string operations the handlers rely on,
    - the memoised session ([getAxiosInstance], [getProjectName]),
    - the WIQL condition builder of [search_work_items],
    - the handlers [update_work_item], [get_work_items_batch],
      [batch_update_work_items] and [upload_work_item_attachment],

    and proves what they send over the network and which errors they raise.

    Modelling conventions.
    - A JavaScript string is its list of UTF-16 code units.
    - Tool arguments arrive as JSON.  Inside a [JsValue] a JSON number is
      modelled when it is an integer ([JNum] carries a [Z]); objects carry
      data properties only (a property named [toString] or [valueOf]
      shadowing the prototype's method is outside the model).
    - A field that a handler reads through a TypeScript cast and then tests
      dynamically ([typeof], [Array.isArray], truthiness, [??]) is a raw
      [JsValue]; a field it uses at its declared type without a test has
      that type: the string filters of the search are strings, and
      [chunkSize] and [chunkThreshold], which enter the arithmetic of the
      upload unchecked, are numbers as JavaScript has them, IEEE 754
      binary64 values ([Num]), with the rounding of every operation.
    - Network calls append to the list of requests sent; the remote service
      is a function from the history and the request to a reply or a
      rejection.  [console.error] output is not modelled. *)

From Stdlib Require Import ZArith NArith List Bool String Ascii DecimalString Lia.
From Stdlib Require Import SpecFloat.
Import ListNotations.
Local Open Scope Z_scope.

(* ================================================================== *)
(** * JavaScript strings *)

Definition jstring := list N.

(** Source text is UTF-8; the code units of a literal are obtained by decoding
    it (one, two and three byte sequences, which covers the messages used). *)
Fixpoint utf16_of_utf8 (bs : list N) : jstring :=
  match bs with
  | [] => []
  | b :: r =>
      if (b <? 128)%N then b :: utf16_of_utf8 r
      else if (b <? 224)%N then
        match r with
        | b2 :: r' => ((b - 192) * 64 + (b2 - 128))%N :: utf16_of_utf8 r'
        | [] => []
        end
      else
        match r with
        | b2 :: b3 :: r' =>
            ((b - 224) * 4096 + (b2 - 128) * 64 + (b3 - 128))%N :: utf16_of_utf8 r'
        | _ => []
        end
  end.

Definition js (s : string) : jstring :=
  utf16_of_utf8 (map N_of_ascii (list_ascii_of_string s)).

Arguments js s : simpl never.

Fixpoint jstring_eqb (a b : jstring) : bool :=
  match a, b with
  | [], [] => true
  | x :: a', y :: b' => (x =? y)%N && jstring_eqb a' b'
  | _, _ => false
  end.

(** [`${n}`] for an integer [n]. *)
Definition dec (z : Z) : jstring := js (NilZero.string_of_int (Z.to_int z)).

Arguments dec z : simpl never.

Definition QUOTE : N := 39.
Definition SEMICOLON : N := 59.

(** [s.replace(/'/g, "''")] *)
Definition escape_quotes (s : jstring) : jstring :=
  flat_map (fun c => if (c =? QUOTE)%N then [QUOTE; QUOTE] else [c]) s.

(** [WhiteSpace] and [LineTerminator] code units: what [trim] strips and what
    the class [\s] matches. *)
Definition is_space (c : N) : bool :=
  ((9 <=? c) && (c <=? 13) || (c =? 32) || (c =? 160) || (c =? 5760)
   || (8192 <=? c) && (c <=? 8202) || (c =? 8232) || (c =? 8233)
   || (c =? 8239) || (c =? 8287) || (c =? 12288) || (c =? 65279))%N.

Fixpoint drop_spaces (s : jstring) : jstring :=
  match s with
  | c :: r => if is_space c then drop_spaces r else s
  | [] => []
  end.

(** [s.trim()] *)
Definition trim (s : jstring) : jstring :=
  rev (drop_spaces (rev (drop_spaces s))).

(** [s.split(sep)] for a separator of one code unit. *)
Fixpoint split (sep : N) (s : jstring) : list jstring :=
  match s with
  | [] => [[]]
  | c :: r =>
      if (c =? sep)%N then [] :: split sep r
      else match split sep r with
           | h :: t => (c :: h) :: t
           | [] => [[c]]
           end
  end.

(** [a.join(sep)] on an array of strings. *)
Fixpoint join (sep : jstring) (a : list jstring) : jstring :=
  match a with
  | [] => []
  | [x] => x
  | x :: r => x ++ sep ++ join sep r
  end.

(** [!s] is false: the string is not empty. *)
Definition nonempty (s : jstring) : bool :=
  match s with [] => false | _ :: _ => true end.

(* ------------------------------------------------------------------ *)
(** ** Regular expressions

    The two patterns of the source are anchored at both ends, so [test] is a
    whole-string match; it is decided with Brzozowski derivatives. *)

Inductive regex : Type :=
| Void
| Eps
| Class (p : N -> bool)
| Cat (a b : regex)
| Alt (a b : regex)
| Star (a : regex).

Definition Plus (a : regex) : regex := Cat a (Star a).
Definition Lit (c : N) : regex := Class (N.eqb c).

Fixpoint nullable (r : regex) : bool :=
  match r with
  | Void => false
  | Eps => true
  | Class _ => false
  | Cat a b => nullable a && nullable b
  | Alt a b => nullable a || nullable b
  | Star _ => true
  end.

Fixpoint deriv (c : N) (r : regex) : regex :=
  match r with
  | Void => Void
  | Eps => Void
  | Class p => if p c then Eps else Void
  | Cat a b =>
      if nullable a then Alt (Cat (deriv c a) b) (deriv c b)
      else Cat (deriv c a) b
  | Alt a b => Alt (deriv c a) (deriv c b)
  | Star a => Cat (deriv c a) (Star a)
  end.

Definition regex_test (r : regex) (s : jstring) : bool :=
  nullable (fold_left (fun r c => deriv c r) s r).

Definition is_digit (c : N) : bool := ((48 <=? c) && (c <=? 57))%N.

(** [/^\d+$/] *)
Definition NUMERIC_ID : regex := Plus (Class is_digit).

(** [[^@\s]] *)
Definition not_at_or_space (c : N) : bool := negb ((c =? 64)%N || is_space c).

(** [/^[^@\s]+@[^@\s]+\.[^@\s]+$/] *)
Definition EMAIL : regex :=
  Cat (Plus (Class not_at_or_space))
    (Cat (Lit 64)
       (Cat (Plus (Class not_at_or_space))
          (Cat (Lit 46) (Plus (Class not_at_or_space))))).

(* ================================================================== *)
(** * JSON values and the JavaScript operations applied to them *)

#[warnings="-register-all"]
Inductive JsValue : Type :=
| JUndefined
| JNull
| JBool (b : bool)
| JNum (z : Z)
| JStr (s : jstring)
| JArr (items : list JsValue)
| JObj (props : list (jstring * JsValue)).

(** [if (v)], [!v] *)
Definition truthy (v : JsValue) : bool :=
  match v with
  | JUndefined | JNull => false
  | JBool b => b
  | JNum z => negb (z =? 0)
  | JStr s => nonempty s
  | JArr _ | JObj _ => true
  end.

Definition nullish (v : JsValue) : bool :=
  match v with JUndefined | JNull => true | _ => false end.

(** [a ?? b] *)
Definition coalesce (a b : JsValue) : JsValue := if nullish a then b else a.

(** [typeof v === 'number'] *)
Definition is_number (v : JsValue) : bool :=
  match v with JNum _ => true | _ => false end.

(** [Array.isArray(v)] *)
Definition is_array (v : JsValue) : bool :=
  match v with JArr _ => true | _ => false end.

(** [String(v)], the conversion of template literals and of
    [encodeURIComponent] and [RegExp.prototype.test] on their argument. *)
Fixpoint to_string (v : JsValue) : jstring :=
  match v with
  | JUndefined => js "undefined"
  | JNull => js "null"
  | JBool true => js "true"
  | JBool false => js "false"
  | JNum z => dec z
  | JStr s => s
  | JArr items =>
      join (js ",")
        (map (fun x => if nullish x then [] else to_string x) items)
  | JObj _ => js "[object Object]"
  end.

Fixpoint lookup (k : jstring) (props : list (jstring * JsValue)) : JsValue :=
  match props with
  | [] => JUndefined
  | (k', v) :: r => if jstring_eqb k k' then v else lookup k r
  end.

(** [v.k] for an identifier [k]; [None] is the [TypeError] raised when [v] is
    [null] or [undefined]. *)
Definition prop (v : JsValue) (k : jstring) : option JsValue :=
  match v with
  | JUndefined | JNull => None
  | JObj props => Some (lookup k props)
  | JArr items =>
      Some (if jstring_eqb k (js "length")
            then JNum (Z.of_nat (List.length items)) else JUndefined)
  | JStr s =>
      Some (if jstring_eqb k (js "length")
            then JNum (Z.of_nat (List.length s)) else JUndefined)
  | JBool _ | JNum _ => Some JUndefined
  end.

(** [v[i]] for an index [i]. *)
Definition item (v : JsValue) (i : nat) : option JsValue :=
  match v with
  | JUndefined | JNull => None
  | JObj props => Some (lookup (dec (Z.of_nat i)) props)
  | JArr items => Some (nth i items JUndefined)
  | JStr s =>
      Some (match nth_error s i with Some c => JStr [c] | None => JUndefined end)
  | JBool _ | JNum _ => Some JUndefined
  end.

(** [v === 0] *)
Definition is_zero (v : JsValue) : bool :=
  match v with JNum 0 => true | _ => false end.

(* ================================================================== *)
(** * JavaScript numbers *)

(** A Number is an IEEE 754 binary64 value: 53 bits of precision, exponents
    up to 1024.  [S754_finite s m e] is [(-1)^s * m * 2^e]. *)
Definition Num : Type := spec_float.

(** The Number [v * 2^s], rounded to nearest, ties to even. *)
Definition dyadic (v s : Z) : Num := binary_normalize 53 1024 v s false.

(** The Number of an integer: a literal, or the [length] of a buffer. *)
Definition num_of_Z (z : Z) : Num := binary_normalize 53 1024 z 0 false.

(** [x + y], [x - y], [x < y], [x <= y] *)
Definition num_add : Num -> Num -> Num := SFadd 53 1024.
Definition num_sub : Num -> Num -> Num := SFsub 53 1024.
Definition num_ltb : Num -> Num -> bool := SFltb.
Definition num_leb : Num -> Num -> bool := SFleb.

(** [Math.min(x, y)]: [NaN] when either is, and [-0] below [+0]. *)
Definition Math_min (x y : Num) : Num :=
  match SFcompare x y with
  | None => S754_nan
  | Some Lt => x
  | Some Gt => y
  | Some Eq => match x with S754_zero true => x | _ => y end
  end.

(** The integral part of a finite number, towards zero. *)
Definition num_trunc (x : Num) : Z :=
  match x with
  | S754_finite s m e => cond_Zopp s (Z.shiftl (Zpos m) e)
  | _ => 0
  end.

(** The mantissa and the exponent of the Number of a positive integer below
    2^53: the integer moved up to 53 bits. *)
Definition canon_m (v : Z) : positive := Z.to_pos (v * 2 ^ (52 - Z.log2 v)).
Definition canon_e (v : Z) : Z := Z.log2 v - 52.

(** The value of a number that is an integer. *)
Definition num_integer (x : Num) : option Z :=
  match x with
  | S754_zero _ => Some 0
  | S754_finite s m e =>
      if 0 <=? e then Some (cond_Zopp s (Zpos m * 2 ^ e))
      else if Zpos m mod 2 ^ (- e) =? 0
           then Some (cond_Zopp s (Zpos m / 2 ^ (- e)))
           else None
  | _ => None
  end.

(* ================================================================== *)
(** * Errors, requests and the host platform *)

Inductive ErrorCode : Type := InvalidParams | InternalError | MethodNotFound.

Inductive Exn : Type :=
| McpError (code : ErrorCode) (message : jstring)
| AxiosError (message : jstring)
| TypeError
| Error (message : jstring).

Definition Buffer := list Byte.byte.

Inductive Method : Type := GET | POST | PATCH | DELETE.

Inductive Body : Type :=
| NoBody
| Json (v : JsValue)
| Octets (b : Buffer).

Record Request : Type := mkRequest {
  method : Method;
  url : jstring;
  body : Body;
  headers : list (jstring * jstring)
}.

(** What axios resolves or rejects with.  A rejection carries the text the
    catch blocks extract from it,
    [error.response?.data?.message || error.message]. *)
Inductive Response : Type :=
| Replied (data : JsValue)
| Rejected (message : jstring).

(** The remote service: its answer may depend on everything sent before. *)
Definition Remote := list Request -> Request -> Response.

(** What the runtime, the SDK and the process environment provide. *)
Class Host : Type := {
  ORG_URL : jstring;
  PAT : jstring;
  encodeURIComponent : jstring -> jstring;
  (** [Buffer.from(s).toString('base64')] *)
  base64_encode : jstring -> jstring;
  (** [Buffer.from(s, 'base64')] on a string: Node decodes leniently and
      returns a buffer for every string. *)
  base64_decode : jstring -> Buffer;
  (** [Buffer.from(v, 'base64')] on an array or an object; [None] when Node
      raises. *)
  buffer_from_object : JsValue -> option Buffer;
  (** [Number(s)] on a string; [None] when the result is not an integer *)
  number_of_string : jstring -> option Z;
  (** [JSON.stringify(v, null, 2)] *)
  JSON_stringify : JsValue -> jstring;
  (** the [message] of [new McpError(code, text)] *)
  mcp_message : ErrorCode -> jstring -> jstring;
  (** the [message] of the engine's [TypeError] *)
  type_error_message : jstring;
  (** [`${x}`] for a finite Number that is not an integer below 2^53 in
      absolute value: the shortest decimal text that reads back as [x] *)
  number_text : Num -> jstring
}.

Record AxiosInstance : Type := mkAxios {
  baseURL : jstring;
  authorization : jstring
}.

(** The two module-level variables and the requests sent so far. *)
Record World : Type := mkWorld {
  axiosInstance : option AxiosInstance;
  projectName : JsValue;
  sent : list Request
}.

Inductive Outcome (A : Type) : Type :=
| Ret (a : A)
| Throw (e : Exn)
| OutOfFuel.
Arguments Ret {A} a.
Arguments Throw {A} e.
Arguments OutOfFuel {A}.

Definition M (A : Type) : Type := World -> Outcome A * World.

Definition ret {A} (a : A) : M A := fun w => (Ret a, w).

Definition throw {A} (e : Exn) : M A := fun w => (Throw e, w).

Definition out_of_fuel {A} : M A := fun w => (OutOfFuel, w).

Definition bind {A B} (m : M A) (k : A -> M B) : M B :=
  fun w =>
    match m w with
    | (Ret a, w') => k a w'
    | (Throw e, w') => (Throw e, w')
    | (OutOfFuel, w') => (OutOfFuel, w')
    end.

(** [try { m } catch (error) { h error }] *)
Definition try_catch {A} (m : M A) (h : Exn -> M A) : M A :=
  fun w =>
    match m w with
    | (Throw e, w') => h e w'
    | r => r
    end.

Declare Scope js_scope.
Delimit Scope js_scope with js.
Notation "x <- m ;; k" := (bind m (fun x => k))
  (at level 100, m at next level, right associativity) : js_scope.
Notation "m ;;; k" := (bind m (fun _ => k))
  (at level 100, right associativity) : js_scope.
Local Open Scope js_scope.

(** A property read that raises [TypeError] on [null] and [undefined]. *)
Definition get (v : JsValue) (k : jstring) : M JsValue :=
  match prop v k with Some x => ret x | None => throw TypeError end.

Definition get_item (v : JsValue) (i : nat) : M JsValue :=
  match item v i with Some x => ret x | None => throw TypeError end.

Section Server.

Context {host : Host}.
Variable remote : Remote.

(** The source files differ in this constant (["7.1"] in index.ts,
    ["7.2-preview"] in its revision). *)
Variable API_VERSION : jstring.

(** [await instance.<method>(url, data, {headers})] *)
Definition send (r : Request) : M JsValue :=
  fun w =>
    let w' := mkWorld (axiosInstance w) (projectName w) (sent w ++ [r]) in
    match remote (sent w) r with
    | Replied data => (Ret data, w')
    | Rejected message => (Throw (AxiosError message), w')
    end.

(** [error instanceof AxiosError
      ? error.response?.data?.message || error.message : error.message] *)
Definition exn_message (error : Exn) : jstring :=
  match error with
  | McpError code message => mcp_message code message
  | AxiosError message => message
  | TypeError => type_error_message
  | Error message => message
  end.

(** [error instanceof McpError ? error.code : ErrorCode.InternalError] *)
Definition exn_code (error : Exn) : ErrorCode :=
  match error with
  | McpError code _ => code
  | _ => InternalError
  end.

Definition getBasicAuthHeader (pat : jstring) : jstring :=
  js "Basic " ++ base64_encode (js ":" ++ pat).

Definition getAxiosInstance : M AxiosInstance :=
  fun w =>
    match axiosInstance w with
    | Some instance => (Ret instance, w)
    | None =>
        let instance := mkAxios ORG_URL (getBasicAuthHeader PAT) in
        (Ret instance, mkWorld (Some instance) (projectName w) (sent w))
    end.

Definition set_projectName (v : JsValue) : M unit :=
  fun w => (Ret tt, mkWorld (axiosInstance w) v (sent w)).

Definition projects_request : Request :=
  mkRequest GET (js "/_apis/projects?api-version=" ++ API_VERSION) NoBody [].

Definition getProjectName : M JsValue :=
  fun w =>
    (if truthy (projectName w) then ret (projectName w)
     else
       _ <- getAxiosInstance ;;
       try_catch
         (data <- send projects_request ;;
          projects <- get data (js "value") ;;
          (if negb (truthy projects) then
             throw (Error (js "Could not find any projects in the Azure DevOps organization."))
           else
             len <- get projects (js "length") ;;
             if is_zero len then
               throw (Error (js "Could not find any projects in the Azure DevOps organization."))
             else
               first <- get_item projects 0 ;;
               name <- get first (js "name") ;;
               if negb (truthy name) then
                 throw (Error (js "Could not find any projects in the Azure DevOps organization."))
               else
                 set_projectName name ;;;
                 ret name))
         (fun error =>
            throw (McpError InternalError
                     (js "無法取得 Azure DevOps 專案列表: " ++ exn_message error))))
      w.

(** The body of [server.setRequestHandler(CallToolRequestSchema, ...)] for one
    [case] of the [switch]: session lookup, then the handler inside the
    [try], whose [catch] re-raises every error as an [McpError]. *)
(** The error the [catch] of the dispatcher raises in place of [error]. *)
Definition tool_error (name : jstring) (error : Exn) : Exn :=
  McpError (exn_code error)
    (js "執行工具 " ++ name ++ js " 時發生錯誤: " ++ exn_message error).

Definition CallToolRequest {A} (name : jstring)
    (handler : JsValue -> M A) : M A :=
  _ <- getAxiosInstance ;;
  currentProjectName <- getProjectName ;;
  try_catch (handler currentProjectName)
    (fun error => throw (tool_error name error)).

End Server.

(* ================================================================== *)
(** * [search_work_items]: the WIQL conditions (part_000, lines 596-643) *)

(** The filters, at the types of their casts ([string | undefined]). *)
Record SearchArgs : Type := mkSearchArgs {
  search_query : option jstring;
  search_projectName : option jstring;
  search_workItemType : option jstring;
  search_state : option jstring;
  search_assignedTo : option jstring;
  search_tags : option jstring;
  search_createdAfter : option jstring;
  search_updatedAfter : option jstring
}.

(** [if (x) { conditions.push(...) }]: the clauses a filter contributes when
    it is supplied and not the empty string. *)
Definition when_given (x : option jstring) (clauses : jstring -> list jstring)
  : list jstring :=
  match x with
  | Some v => if nonempty v then clauses v else []
  | None => []
  end.

Definition equals_clause (field : string) (value : jstring) : jstring :=
  js "[" ++ js field ++ js "] = '" ++ escape_quotes value ++ js "'".

Definition tag_clause (tag : jstring) : jstring :=
  js "[System.Tags] CONTAINS '" ++ escape_quotes tag ++ js "'".

(** [tags.split(';').map(t => t.trim()).filter(t => t)] *)
Definition tagList (tags : jstring) : list jstring :=
  filter nonempty (map trim (split SEMICOLON tags)).

Definition tag_conditions (tags : option jstring) : list jstring :=
  when_given tags (fun tags =>
    if (0 <? Z.of_nat (List.length (tagList tags))) then
      [js "(" ++ join (js " OR ") (map tag_clause (tagList tags)) ++ js ")"]
    else []).

Definition since_clause (field : string) (value : jstring) : jstring :=
  js "[" ++ js field ++ js "] >= '" ++ value ++ js "'".

Definition query_clause (queryText : jstring) : jstring :=
  let isNumericId := regex_test NUMERIC_ID queryText in
  let escapedQueryText := escape_quotes queryText in
  js "([System.Title] CONTAINS '" ++ escapedQueryText ++ js "' "
  ++ (if isNumericId then js "OR [System.Id] = " ++ queryText else [])
  ++ js " OR [System.Description] CONTAINS '" ++ escapedQueryText ++ js "')".

Definition search_conditions (currentProjectName : jstring) (args : SearchArgs)
  : list jstring :=
  let targetProjectName :=
    match search_projectName args with
    | Some p => p
    | None => currentProjectName
    end in
  [equals_clause "System.TeamProject" targetProjectName]
  ++ when_given (search_workItemType args)
       (fun v => [equals_clause "System.WorkItemType" v])
  ++ when_given (search_state args)
       (fun v => [equals_clause "System.State" v])
  ++ when_given (search_assignedTo args)
       (fun v => [equals_clause "System.AssignedTo" v])
  ++ tag_conditions (search_tags args)
  ++ when_given (search_createdAfter args)
       (fun v => [since_clause "System.CreatedDate" v])
  ++ when_given (search_updatedAfter args)
       (fun v => [since_clause "System.ChangedDate" v])
  ++ when_given (search_query args) (fun v => [query_clause v]).

(** [conditions.join(" AND ")], the text after [WHERE] in the query sent. *)
Definition where_clause (currentProjectName : jstring) (args : SearchArgs)
  : jstring :=
  join (js " AND ") (search_conditions currentProjectName args).

(* ================================================================== *)
(** * The tool handlers *)

(** [typeof v === 'object'] *)
Definition is_object (v : JsValue) : bool :=
  match v with JNull | JArr _ | JObj _ => true | _ => false end.

Fixpoint indexed {A} (make : A -> JsValue) (i : nat) (l : list A)
  : list (jstring * JsValue) :=
  match l with
  | [] => []
  | x :: r => (dec (Z.of_nat i), make x) :: indexed make (S i) r
  end.

(** [Object.entries(v)] for [v] other than [null] and [undefined]. *)
Definition entries (v : JsValue) : list (jstring * JsValue) :=
  match v with
  | JObj props => props
  | JArr items => indexed (fun x => x) 0 items
  | JStr s => indexed (fun c => JStr [c]) 0 s
  | _ => []
  end.

(** [Object.keys(v).length]; [Object.keys] raises on [null] and
    [undefined]. *)
Definition keys_length (v : JsValue) : M Z :=
  if nullish v then throw TypeError
  else ret (Z.of_nat (List.length (entries v))).

(** [Object.entries(v).map(([key, value]) =>
      ({ op, path: `/fields/${key}`, value }))] *)
Definition field_patches (op : string) (v : JsValue) : list JsValue :=
  map (fun kv =>
         JObj [(js "op", JStr (js op));
               (js "path", JStr (js "/fields/" ++ fst kv));
               (js "value", snd kv)])
      (entries v).

Definition JSON_PATCH : list (jstring * jstring) :=
  [(js "Content-Type", js "application/json-patch+json")].

Definition OCTET_STREAM : jstring * jstring :=
  (js "Content-Type", js "application/octet-stream").

(** [a.map((x, index) => f index x)] for a callback that may raise. *)
Fixpoint map_indexed {A B} (f : nat -> A -> M B) (index : nat) (a : list A)
  : M (list B) :=
  match a with
  | [] => ret []
  | x :: r =>
      y <- f index x ;;
      ys <- map_indexed f (S index) r ;;
      ret (y :: ys)
  end.

(** An index of [slice]: negative indices count from the end, and the
    result is clamped to the buffer. *)
Definition clamp_index (len i : Z) : Z :=
  if i <? 0 then Z.max (len + i) 0 else Z.min i len.

(** The same for a Number: it is first cut to its integral part; [NaN]
    counts as 0 and the infinities as the two ends. *)
Definition slice_index (len : Z) (x : Num) : Z :=
  match x with
  | S754_nan => 0
  | S754_infinity true => 0
  | S754_infinity false => len
  | _ => clamp_index len (num_trunc x)
  end.

(** [buf.slice(start, end)] *)
Definition buffer_slice (buf : Buffer) (start end_ : Num) : Buffer :=
  let len := Z.of_nat (List.length buf) in
  let s := slice_index len start in
  let e := slice_index len end_ in
  firstn (Z.to_nat (e - s)) (skipn (Z.to_nat s) buf).

Record CreateArgs : Type := mkCreateArgs {
  create_type : JsValue;
  create_title : JsValue;
  create_projectName : JsValue;
  create_description : JsValue;
  create_areaPath : JsValue;
  create_iterationPath : JsValue;
  create_assignedTo : JsValue;
  create_tags : JsValue
}.

Record UpdateArgs : Type := mkUpdateArgs {
  update_id : JsValue;
  update_updates : JsValue;
  update_comment : JsValue
}.

Record BatchGetArgs : Type := mkBatchGetArgs {
  batch_ids : JsValue;
  batch_fields : JsValue;
  batch_asOf : JsValue;
  batch_expand : JsValue
}.

Record BatchUpdateArgs : Type := mkBatchUpdateArgs {
  batch_operations : JsValue;
  batch_bypassRules : JsValue;
  batch_suppressNotifications : JsValue
}.

Record UploadArgs : Type := mkUploadArgs {
  upload_workItemId : JsValue;
  upload_fileName : JsValue;
  upload_fileContentBase64 : JsValue;
  upload_projectName : JsValue;
  upload_comment : JsValue;
  upload_chunkSize : option Num;
  upload_chunkThreshold : option Num
}.

Section Handlers.

Context {host : Host}.
Variable remote : Remote.
Variable API_VERSION : jstring.

Let send := send remote.

(** [encodeURIComponent(v)] *)
Definition encode (v : JsValue) : jstring := encodeURIComponent (to_string v).

(** [x?.k] *)
Definition optional (x : JsValue) (k : jstring) : JsValue :=
  match prop x k with Some v => v | None => JUndefined end.

(* ------------------------------------------------------------------ *)
(** ** [create_work_item] (part_000, lines 488-520) *)

Definition add_field (path : string) (value : JsValue) : JsValue :=
  JObj [(js "op", JStr (js "add")); (js "path", JStr (js path));
        (js "value", value)].

Definition create_work_item (args : CreateArgs) (currentProjectName : JsValue)
  : M jstring :=
  let type := create_type args in
  let title := create_title args in
  let targetProjectName :=
    coalesce (create_projectName args) currentProjectName in
  let description := create_description args in
  let areaPath := coalesce (create_areaPath args) targetProjectName in
  let iterationPath := coalesce (create_iterationPath args) targetProjectName in
  let assignedTo := create_assignedTo args in
  let tags := create_tags args in
  if negb (truthy type) || negb (truthy title) then
    throw (McpError InvalidParams (js "缺少必要的參數: type 和 title"))
  else
    let patchDocument :=
      [add_field "/fields/System.Title" title;
       add_field "/fields/System.AreaPath" areaPath;
       add_field "/fields/System.IterationPath" iterationPath]
      ++ (if truthy description
          then [add_field "/fields/System.Description" description] else [])
      ++ (if truthy assignedTo
          then [add_field "/fields/System.AssignedTo" assignedTo] else [])
      ++ (if truthy tags then [add_field "/fields/System.Tags" tags] else []) in
    let url :=
      js "/" ++ encode targetProjectName ++ js "/_apis/wit/workitems/$"
      ++ encode type ++ js "?api-version=" ++ API_VERSION in
    workItem <- send (mkRequest POST url (Json (JArr patchDocument)) JSON_PATCH) ;;
    id <- get workItem (js "id") ;;
    ret (js "成功建立 Work Item " ++ to_string id ++ js ": "
         ++ to_string (optional (optional workItem (js "fields"))
                         (js "System.Title"))).

(* ------------------------------------------------------------------ *)
(** ** [update_work_item] (part_000, lines 561-594) *)

Definition update_work_item (args : UpdateArgs) (currentProjectName : JsValue)
  : M jstring :=
  let id := update_id args in
  let updates := update_updates args in
  let comment := update_comment args in
  invalid <-
    (if negb (is_number id) then ret true
     else if negb (is_object updates) then ret true
     else n <- keys_length updates ;; ret (n =? 0)) ;;
  if invalid : bool then
    throw (McpError InvalidParams
             (js "缺少或無效的參數: id (數字) 和 updates (非空物件)"))
  else
    assignee <- get updates (js "System.AssignedTo") ;;
    if truthy assignee && negb (regex_test EMAIL (to_string assignee)) then
      throw (McpError InvalidParams
               (js "System.AssignedTo 必須為有效的 email 格式。"))
    else
      let patchDocument :=
        field_patches "replace" updates
        ++ (if truthy comment then
              [JObj [(js "op", JStr (js "add"));
                     (js "path", JStr (js "/fields/System.History"));
                     (js "value", comment)]]
            else []) in
      let url :=
        js "/" ++ encode currentProjectName ++ js "/_apis/wit/workitems/"
        ++ to_string id ++ js "?api-version=" ++ API_VERSION in
      send (mkRequest PATCH url (Json (JArr patchDocument)) JSON_PATCH) ;;;
      ret (js "成功更新 Work Item " ++ to_string id).

(* ------------------------------------------------------------------ *)
(** ** [get_work_items_batch] (part_000, lines 938-975) *)

(** [a || b] *)
Definition or_else (a b : JsValue) : JsValue := if truthy a then a else b.

Definition NL : jstring := [10%N].

(** The callback of [workItems.map] that renders one item. *)
Definition batch_item_text (item : JsValue) : M jstring :=
  fields0 <- get item (js "fields") ;;
  let fields := or_else fields0 (JObj []) in
  id <- get item (js "id") ;;
  type <- get fields (js "System.WorkItemType") ;;
  state <- get fields (js "System.State") ;;
  title <- get fields (js "System.Title") ;;
  assigned <- get fields (js "System.AssignedTo") ;;
  ret (js "[" ++ to_string id ++ js "] " ++ to_string type ++ js " ("
       ++ to_string state ++ js ")" ++ NL
       ++ js "標題: " ++ to_string title ++ NL
       ++ js "指派給: "
       ++ to_string (or_else (optional assigned (js "displayName"))
                       (JStr (js "未指派")))
       ++ NL).

(** [v.map(f)] and [v.filter(f)] exist on arrays only. *)
Definition array_items (v : JsValue) : M (list JsValue) :=
  match v with
  | JArr items => ret items
  | _ => throw TypeError
  end.

Definition workitemsbatch_request (args : BatchGetArgs) : Request :=
  let ids := batch_ids args in
  let requestedFields := batch_fields args in
  let asOf := batch_asOf args in
  let expand := batch_expand args in
  let batchRequest :=
    [(js "ids", ids); (js "fields", requestedFields)]
    ++ (if truthy asOf then [(js "asOf", asOf)] else [])
    ++ (if truthy expand then [(js "$expand", expand)] else []) in
  mkRequest POST (js "/_apis/wit/workitemsbatch?api-version=" ++ API_VERSION)
    (Json (JObj batchRequest)) [].

(** The text built from the reply. *)
Definition batch_summary (data : JsValue) : M jstring :=
  workItems <- get data (js "value") ;;
  count <- get workItems (js "length") ;;
  items <- array_items workItems ;;
  texts <- map_indexed (fun _ => batch_item_text) 0 items ;;
  ret (js "成功獲取 " ++ to_string count ++ js " 個 Work Items:" ++ NL ++ NL
       ++ join (NL ++ js "---" ++ NL ++ NL) texts).

Definition get_work_items_batch (args : BatchGetArgs)
    (currentProjectName : JsValue) : M jstring :=
  match batch_ids args with
  | JArr ids =>
      if (Z.of_nat (List.length ids) =? 0) then
        throw (McpError InvalidParams
                 (js "缺少或無效的參數: ids (必須是非空數組)"))
      else if (200 <? Z.of_nat (List.length ids)) then
        throw (McpError InvalidParams (js "ids 數組長度不能超過 200"))
      else
        data <- send (workitemsbatch_request args) ;;
        batch_summary data
  | _ =>
      throw (McpError InvalidParams
               (js "缺少或無效的參數: ids (必須是非空數組)"))
  end.

(* ------------------------------------------------------------------ *)
(** ** [batch_update_work_items] (part_000, lines 977-1060) *)

(** [v === 'text'] *)
Definition is_string (text : string) (v : JsValue) : bool :=
  match v with JStr s => jstring_eqb s (js text) | _ => false end.

Definition work_item_uri (targetProjectName : JsValue) (target : jstring)
  : jstring :=
  js "/" ++ encode targetProjectName ++ js "/_apis/wit/workitems/" ++ target
  ++ js "?api-version=" ++ API_VERSION.

Definition operation_error (index : nat) (what : jstring) : Exn :=
  McpError InvalidParams (js "操作 " ++ dec (Z.of_nat index) ++ js ": " ++ what).

Definition inner_request (method : JsValue) (uri : jstring)
    (body : list JsValue) : JsValue :=
  JObj [(js "method", method);
        (js "uri", JStr uri);
        (js "headers",
         JObj [(js "Content-Type", JStr (js "application/json-patch+json"))]);
        (js "body", JArr body)].

(** The callback of [operations.map((op, index) => ...)]. *)
Definition batch_request (currentProjectName : JsValue) (index : nat)
    (op : JsValue) : M JsValue :=
  method <- get op (js "method") ;;
  workItemId <- get op (js "workItemId") ;;
  workItemType <- get op (js "workItemType") ;;
  projectName <- get op (js "projectName") ;;
  let targetProjectName := coalesce projectName currentProjectName in
  updates <- get op (js "updates") ;;
  fields <- get op (js "fields") ;;
  if is_string "PATCH" method then
    if negb (truthy workItemId) then
      throw (operation_error index (js "PATCH 方法需要 workItemId"))
    else
      ret (inner_request method
             (work_item_uri targetProjectName (to_string workItemId))
             (if truthy updates then field_patches "replace" updates else []))
  else if is_string "POST" method then
    if negb (truthy workItemType) then
      throw (operation_error index (js "POST 方法需要 workItemType"))
    else
      ret (inner_request method
             (work_item_uri targetProjectName (js "$" ++ encode workItemType))
             (if truthy fields then field_patches "add" fields else []))
  else if is_string "DELETE" method then
    if negb (truthy workItemId) then
      throw (operation_error index (js "DELETE 方法需要 workItemId"))
    else
      ret (inner_request method
             (work_item_uri targetProjectName (to_string workItemId)) [])
  else
    throw (operation_error index (js "不支援的方法 " ++ to_string method)).

(** [Number(v)] when it is an integer. *)
Definition to_number (v : JsValue) : option Z :=
  match v with
  | JNum z => Some z
  | JNull => Some 0
  | JBool b => Some (if b then 1 else 0)
  | JStr s => number_of_string s
  | JArr _ => number_of_string (to_string v)
  | JUndefined | JObj _ => None
  end.

(** [r.code >= 200 && r.code < 300] *)
Definition is_success (r : JsValue) : M bool :=
  code <- get r (js "code") ;;
  ret (match to_number code with
       | Some z => (200 <=? z) && (z <? 300)
       | None => false
       end).

Definition batch_update_work_items (args : BatchUpdateArgs)
    (currentProjectName : JsValue) : M jstring :=
  let operations := batch_operations args in
  let bypassRules := coalesce (batch_bypassRules args) (JBool false) in
  let suppressNotifications :=
    coalesce (batch_suppressNotifications args) (JBool false) in
  match operations with
  | JArr ops =>
      if (Z.of_nat (List.length ops) =? 0) then
        throw (McpError InvalidParams
                 (js "缺少或無效的參數: operations (必須是非空數組)"))
      else
        batchRequests <- map_indexed (batch_request currentProjectName) 0 ops ;;
        let url :=
          js "/_apis/wit/$batch?api-version=" ++ API_VERSION
          ++ (if truthy bypassRules then js "&bypassRules=true" else [])
          ++ (if truthy suppressNotifications
              then js "&suppressNotifications=true" else []) in
        data <- send (mkRequest PATCH url (Json (JArr batchRequests))
                        [(js "Content-Type", js "application/json")]) ;;
        results <- get data (js "value") ;;
        result_list <- array_items results ;;
        flags <- map_indexed (fun _ => is_success) 0 result_list ;;
        let successCount := Z.of_nat (List.length (filter (fun b => b) flags)) in
        let errorCount := Z.of_nat (List.length result_list) - successCount in
        ret (js "批次操作完成：" ++ dec successCount ++ js " 個成功，"
             ++ dec errorCount ++ js " 個失敗")
  | _ =>
      throw (McpError InvalidParams
               (js "缺少或無效的參數: operations (必須是非空數組)"))
  end.

(* ------------------------------------------------------------------ *)
(** ** [upload_work_item_attachment] (index.ts, lines 558-667) *)

Definition DEFAULT_CHUNK_SIZE : Z := 4 * 1024 * 1024.
Definition DEFAULT_CHUNK_THRESHOLD : Z := 100 * 1024 * 1024.

(** [Buffer.from(v, 'base64')] for a truthy [v]: a string is decoded, a
    number or a boolean makes Node raise a [TypeError]. *)
Definition Buffer_from (v : JsValue) : M Buffer :=
  match v with
  | JStr s => ret (base64_decode s)
  | JArr _ | JObj _ =>
      match buffer_from_object v with
      | Some buf => ret buf
      | None => throw TypeError
      end
  | _ => throw TypeError
  end.

Definition attachments_path (targetProjectName : JsValue) : jstring :=
  js "/" ++ encode targetProjectName ++ js "/_apis/wit/attachments".

Definition upload_request (targetProjectName fileName : JsValue)
    (fileBuffer : Buffer) : Request :=
  mkRequest POST
    (attachments_path targetProjectName ++ js "?fileName=" ++ encode fileName
     ++ js "&api-version=" ++ API_VERSION)
    (Octets fileBuffer) [OCTET_STREAM].

Definition init_request (targetProjectName fileName : JsValue) : Request :=
  mkRequest POST
    (attachments_path targetProjectName ++ js "?fileName=" ++ encode fileName
     ++ js "&uploadType=chunked&api-version=" ++ API_VERSION)
    NoBody [(js "Content-Length", js "0")].

Definition chunk_url (targetProjectName attachmentId : JsValue) : jstring :=
  attachments_path targetProjectName ++ js "/" ++ to_string attachmentId
  ++ js "?api-version=" ++ API_VERSION.

(** [`${x}`] for a Number: an integer below 2^53 in absolute value is
    written with all its digits ([-0] as [0]). *)
Definition Number_toString (x : Num) : jstring :=
  match x with
  | S754_nan => js "NaN"
  | S754_infinity false => js "Infinity"
  | S754_infinity true => js "-Infinity"
  | _ =>
      match num_integer x with
      | Some v => if Z.abs v <? 2 ^ 53 then dec v else number_text x
      | None => number_text x
      end
  end.

(** [`bytes ${start}-${end}/${fileSize}`] *)
Definition contentRange (start end_ : Num) (fileSize : Z) : jstring :=
  js "bytes " ++ Number_toString start ++ js "-" ++ Number_toString end_
  ++ js "/" ++ dec fileSize.

(** One iteration of the loop: the request for the chunk that begins at
    [start]. *)
Definition chunk_request (chunkUploadUrl : jstring) (fileBuffer : Buffer)
    (chunkSize start : Num) : Request :=
  let fileSize := Z.of_nat (List.length fileBuffer) in
  let end_ :=
    num_sub (Math_min (num_add start chunkSize) (num_of_Z fileSize))
      (num_of_Z 1) in
  let chunk := buffer_slice fileBuffer start (num_add end_ (num_of_Z 1)) in
  let currentChunkSize := Z.of_nat (List.length chunk) in
  mkRequest PATCH chunkUploadUrl (Octets chunk)
    [OCTET_STREAM;
     (js "Content-Length", dec currentChunkSize);
     (js "Content-Range", contentRange start end_ fileSize)].

(** [for (let start = 0; start < fileSize; start += chunkSize) { ... }];
    [fuel] bounds the number of iterations run. *)
Fixpoint upload_chunks (fuel : nat) (chunkUploadUrl : jstring)
    (fileBuffer : Buffer) (chunkSize start : Num) : M unit :=
  if num_ltb start (num_of_Z (Z.of_nat (List.length fileBuffer))) then
    match fuel with
    | O => out_of_fuel
    | S fuel' =>
        send (chunk_request chunkUploadUrl fileBuffer chunkSize start) ;;;
        upload_chunks fuel' chunkUploadUrl fileBuffer chunkSize
          (num_add start chunkSize)
    end
  else ret tt.

Definition link_request (workItemId attachmentUrl comment : JsValue)
  : Request :=
  mkRequest PATCH
    (js "/_apis/wit/workitems/" ++ to_string workItemId ++ js "?api-version="
     ++ API_VERSION)
    (Json (JArr
       [JObj [(js "op", JStr (js "add"));
              (js "path", JStr (js "/relations/-"));
              (js "value",
               JObj [(js "rel", JStr (js "AttachedFile"));
                     (js "url", attachmentUrl);
                     (js "attributes", JObj [(js "comment", comment)])])]]))
    JSON_PATCH.

(** [args.projectName ?? currentProjectName] *)
Definition upload_target (args : UploadArgs) (currentProjectName : JsValue)
  : JsValue :=
  coalesce (upload_projectName args) currentProjectName.

(** [args.comment ?? `Attached ${fileName} via MCP`] *)
Definition upload_comment_text (args : UploadArgs) : JsValue :=
  coalesce (upload_comment args)
    (JStr (js "Attached " ++ to_string (upload_fileName args) ++ js " via MCP")).

(** [args.chunkSize ?? (4 * 1024 * 1024)] *)
Definition chunkSize_of (args : UploadArgs) : Num :=
  match upload_chunkSize args with
  | Some n => n
  | None => num_of_Z DEFAULT_CHUNK_SIZE
  end.

(** [args.chunkThreshold ?? (100 * 1024 * 1024)] *)
Definition chunkThreshold_of (args : UploadArgs) : Num :=
  match upload_chunkThreshold args with
  | Some n => n
  | None => num_of_Z DEFAULT_CHUNK_THRESHOLD
  end.

(** The attachment URL put together after a chunked upload. *)
Definition chunked_attachment_url (targetProjectName attachmentId fileName
    : JsValue) : JsValue :=
  JStr (ORG_URL ++ attachments_path targetProjectName ++ js "/"
        ++ to_string attachmentId ++ js "?fileName=" ++ encode fileName).

(** The branch [fileSize <= chunkThreshold]: one request with the whole
    buffer; the reply names the attachment. *)
Definition standard_upload (targetProjectName fileName : JsValue)
    (fileBuffer : Buffer) : M (JsValue * JsValue) :=
  data <- send (upload_request targetProjectName fileName fileBuffer) ;;
  attachmentUrl <- get data (js "url") ;;
  attachmentId <- get data (js "id") ;;
  ret (attachmentId, attachmentUrl).

(** The other branch: an initiate request, then the loop over the chunks. *)
Definition chunked_upload (fuel : nat) (targetProjectName fileName : JsValue)
    (fileBuffer : Buffer) (chunkSize : Num) : M (JsValue * JsValue) :=
  data <- send (init_request targetProjectName fileName) ;;
  attachmentId <- get data (js "id") ;;
  upload_chunks fuel (chunk_url targetProjectName attachmentId)
    fileBuffer chunkSize (num_of_Z 0) ;;;
  ret (attachmentId,
       chunked_attachment_url targetProjectName attachmentId fileName).

Definition upload_work_item_attachment (fuel : nat) (args : UploadArgs)
    (currentProjectName : JsValue) : M jstring :=
  let workItemId := upload_workItemId args in
  let fileName := upload_fileName args in
  let fileContentBase64 := upload_fileContentBase64 args in
  let targetProjectName := upload_target args currentProjectName in
  let comment := upload_comment_text args in
  let chunkSize := chunkSize_of args in
  let chunkThreshold := chunkThreshold_of args in
  if negb (is_number workItemId) || negb (truthy fileName)
     || negb (truthy fileContentBase64) then
    throw (McpError InvalidParams
             (js "缺少必要的參數: workItemId (數字), fileName (字串), fileContentBase64 (字串)"))
  else
    fileBuffer <-
      try_catch (Buffer_from fileContentBase64)
        (fun _ =>
           throw (McpError InvalidParams
                    (js "無效的參數: fileContentBase64 無法被解析為 Base64"))) ;;
    let fileSize := Z.of_nat (List.length fileBuffer) in
    attachment <-
      (if num_leb (num_of_Z fileSize) chunkThreshold then
         standard_upload targetProjectName fileName fileBuffer
       else
         chunked_upload fuel targetProjectName fileName fileBuffer chunkSize) ;;
    send (link_request workItemId (snd attachment) comment) ;;;
    ret (JSON_stringify
           (JObj [(js "id", fst attachment); (js "url", snd attachment)])).

(* ------------------------------------------------------------------ *)
(** ** The tools as the dispatcher runs them *)

Definition call_create_work_item (args : CreateArgs) : M jstring :=
  CallToolRequest remote API_VERSION (js "create_work_item")
    (create_work_item args).

Definition call_update_work_item (args : UpdateArgs) : M jstring :=
  CallToolRequest remote API_VERSION (js "update_work_item")
    (update_work_item args).

Definition call_get_work_items_batch (args : BatchGetArgs) : M jstring :=
  CallToolRequest remote API_VERSION (js "get_work_items_batch")
    (get_work_items_batch args).

Definition call_batch_update_work_items (args : BatchUpdateArgs) : M jstring :=
  CallToolRequest remote API_VERSION (js "batch_update_work_items")
    (batch_update_work_items args).

Definition call_upload_work_item_attachment (fuel : nat) (args : UploadArgs)
  : M jstring :=
  CallToolRequest remote API_VERSION (js "upload_work_item_attachment")
    (upload_work_item_attachment fuel args).

End Handlers.

(* ================================================================== *)
(** * A host to run the handlers on concrete inputs *)

Definition base64_digit (c : N) : option N :=
  (if (65 <=? c) && (c <=? 90) then Some (c - 65)
   else if (97 <=? c) && (c <=? 122) then Some (c - 71)
   else if (48 <=? c) && (c <=? 57) then Some (c + 4)
   else if (c =? 43) || (c =? 45) then Some 62
   else if (c =? 47) || (c =? 95) then Some 63
   else None)%N.

(** Characters outside the alphabet are skipped and [=] ends the input. *)
Fixpoint sextets (s : jstring) : list N :=
  match s with
  | [] => []
  | c :: r =>
      if (c =? 61)%N then []
      else match base64_digit c with
           | Some d => d :: sextets r
           | None => sextets r
           end
  end.

Definition octet (n : N) : Byte.byte :=
  match Byte.of_N (n mod 256) with Some b => b | None => Byte.x00 end.

Fixpoint octets_of_sextets (l : list N) : Buffer :=
  match l with
  | a :: b :: c :: d :: r =>
      [octet (a * 4 + b / 16); octet (b * 16 + c / 4); octet (c * 64 + d)]%N
      ++ octets_of_sextets r
  | [a; b; c] => [octet (a * 4 + b / 16); octet (b * 16 + c / 4)]%N
  | [a; b] => [octet (a * 4 + b / 16)]%N
  | _ => []
  end.

Definition lenient_base64 (s : jstring) : Buffer := octets_of_sextets (sextets s).

Definition digits_value (s : jstring) : option Z :=
  if regex_test NUMERIC_ID s
  then Some (fold_left (fun acc c => acc * 10 + (Z.of_N c - 48)) s 0)
  else None.

Definition error_number (code : ErrorCode) : Z :=
  match code with
  | InvalidParams => -32602
  | InternalError => -32603
  | MethodNotFound => -32601
  end.

(** [Number::toString]: the digits and their layout. *)

(** The shortest decimal text of the positive number [m * 2^e]: the digits
    [s] (there are [k] of them) and the position [n] of the decimal point,
    so that [s * 10^(n - k)] is the decimal with the fewest digits that
    rounds to the number, and the closest to it among those. *)
Record interval : Type := mkInterval {
  (** the common denominator of the three fractions *)
  scale : Z;
  (** the number *)
  middle : Z;
  (** half way to the number below *)
  low : Z;
  (** half way to the number above *)
  high : Z;
  (** ties round to this number, its mantissa being even *)
  closed : bool
}.

Definition rounding_interval (m : positive) (e : Z) : interval :=
  let sh := Z.max 0 (- e) + 2 in
  let V := Zpos m * 2 ^ (e + sh) in
  let up := 2 ^ (e + sh - 1) in
  let down :=
    if (Zpos m =? 2 ^ 52) && (-1074 <? e) then 2 ^ (e + sh - 2) else up in
  mkInterval (2 ^ sh) V (V - down) (V + up) (Z.even (Zpos m)).

(** [s * 10^p] compared with [a / scale]. *)
Definition compare_decimal (i : interval) (s p a : Z) : comparison :=
  if 0 <=? p then s * 10 ^ p * scale i ?= a
  else s * scale i ?= a * 10 ^ (- p).

Definition rounds_here (i : interval) (s p : Z) : bool :=
  match compare_decimal i s p (low i) with
  | Gt => true | Eq => closed i | Lt => false
  end
  && match compare_decimal i s p (high i) with
     | Lt => true | Eq => closed i | Gt => false
     end.

(** The least [n] from [n] on with [m * 2^e < 10^n]; the search begins just
    below it, at an estimate from the binary exponent. *)
Fixpoint magnitude (fuel : nat) (i : interval) (n : Z) : Z :=
  match fuel with
  | O => n
  | S fuel' =>
      match compare_decimal i 1 n (middle i) with
      | Gt => n
      | _ => magnitude fuel' i (n + 1)
      end
  end.

(** The decimal of [k] digits nearest to the number, if it rounds to it. *)
Definition nearest_decimal (i : interval) (n k : Z) : option Z :=
  let p := n - k in
  let num := if 0 <=? p then middle i else middle i * 10 ^ (- p) in
  let den := if 0 <=? p then 10 ^ p * scale i else scale i in
  let s0 := num / den in
  let r := num mod den in
  let first :=
    match 2 * r ?= den with
    | Lt => s0
    | Gt => s0 + 1
    | Eq => if Z.even s0 then s0 else s0 + 1
    end in
  let second := if first =? s0 then s0 + 1 else s0 in
  let fits s := (10 ^ (k - 1) <=? s) && (s <? 10 ^ k) && rounds_here i s p in
  if fits first then Some first
  else if fits second then Some second
  else None.

Fixpoint fewest_digits (fuel : nat) (i : interval) (n k : Z) : Z * Z :=
  match fuel with
  | O => (0, k)
  | S fuel' =>
      match nearest_decimal i n k with
      | Some s => (s, k)
      | None => fewest_digits fuel' i n (k + 1)
      end
  end.

Definition shortest_decimal (m : positive) (e : Z) : Z * Z * Z :=
  let i := rounding_interval m e in
  let n := magnitude 8 i ((e + Z.log2 (Zpos m)) * 30103 / 100000 - 1) in
  if rounds_here i 1 n then (1, 1, n + 1)
  else let (s, k) := fewest_digits 17 i n 1 in (s, k, n).

Definition zeros (n : Z) : jstring := repeat 48%N (Z.to_nat n).

(** The text of [s * 10^(n - k)] as [Number::toString] lays it out. *)
Definition decimal_text (s k n : Z) : jstring :=
  let digits := dec s in
  if (k <=? n) && (n <=? 21) then digits ++ zeros (n - k)
  else if (0 <? n) && (n <=? 21) then
    firstn (Z.to_nat n) digits ++ js "." ++ skipn (Z.to_nat n) digits
  else if (-6 <? n) && (n <=? 0) then js "0." ++ zeros (- n) ++ digits
  else
    let exponent :=
      js "e" ++ (if n - 1 <? 0 then js "-" else js "+") ++ dec (Z.abs (n - 1)) in
    if k =? 1 then digits ++ exponent
    else firstn 1 digits ++ js "." ++ skipn 1 digits ++ exponent.

Definition shortest_text (x : Num) : jstring :=
  match x with
  | S754_finite s m e =>
      let '(d, k, n) := shortest_decimal m e in
      (if s then js "-" else []) ++ decimal_text d k n
  | S754_zero _ => js "0"
  | S754_infinity false => js "Infinity"
  | S754_infinity true => js "-Infinity"
  | S754_nan => js "NaN"
  end.

Definition sample_host : Host := {|
  ORG_URL := js "https://dev.azure.com/org";
  PAT := js "token";
  encodeURIComponent := fun s => s;
  base64_encode := fun s => s;
  base64_decode := lenient_base64;
  buffer_from_object := fun _ => None;
  number_of_string := digits_value;
  JSON_stringify := to_string;
  mcp_message := fun code text =>
    js "MCP error " ++ dec (error_number code) ++ js ": " ++ text;
  type_error_message := js "TypeError";
  number_text := shortest_text
|}.

(** A service that accepts every request and answers with [data]. *)
Definition always (data : JsValue) : Remote := fun _ _ => Replied data.

(** The session as [main] leaves it before the first tool call: the client
    and the default project are cached. *)
Definition ready (w : World) : Prop :=
  axiosInstance w <> None /\ truthy (projectName w) = true.

Definition fresh : World := mkWorld None JNull [].

Definition started (project : jstring) : World :=
  mkWorld (Some (mkAxios [] [])) (JStr project) [].

(* ================================================================== *)
(** * Predicates used in the statements *)

(** A computation that sends nothing and can fail only with a [TypeError]. *)
Definition quiet {A} (m : M A) : Prop :=
  forall w, (exists a, m w = (Ret a, w)) \/ m w = (Throw TypeError, w).

(** An operation the batch cannot carry, in the words of the specification:
    an update or a delete without a work item id, a creation without a work
    item type, or a method other than the three.  "Without" is the test of
    the code: the field is absent or falsy. *)
Definition malformed (op : JsValue) : bool :=
  let method := optional op (js "method") in
  if is_string "PATCH" method || is_string "DELETE" method then
    negb (truthy (optional op (js "workItemId")))
  else if is_string "POST" method then
    negb (truthy (optional op (js "workItemType")))
  else true.

(** The partition of the specification: [0, fileSize) cut into consecutive
    ranges of [chunkSize] bytes, the last possibly shorter; range [k] is
    [(first, last)], both inclusive. *)
Definition chunk_count (fileSize chunkSize : Z) : nat :=
  Z.to_nat ((fileSize + chunkSize - 1) / chunkSize).

Definition chunk_range (fileSize chunkSize : Z) (k : nat) : Z * Z :=
  (Z.of_nat k * chunkSize, Z.min ((Z.of_nat k + 1) * chunkSize) fileSize - 1).

Definition chunk_ranges (fileSize chunkSize : Z) : list (Z * Z) :=
  map (chunk_range fileSize chunkSize) (seq 0 (chunk_count fileSize chunkSize)).

(** The ranges from range [k] on. *)
Definition ranges_from (fileSize chunkSize : Z) (k : nat) : list (Z * Z) :=
  map (chunk_range fileSize chunkSize)
    (seq k (chunk_count fileSize chunkSize - k)).

(** [tiles a ranges b]: the ranges are not empty, follow one another without
    gap or overlap, begin at [a] and end just before [b]. *)
Inductive tiles : Z -> list (Z * Z) -> Z -> Prop :=
| tiles_nil (a : Z) : tiles a [] a
| tiles_cons (a e b : Z) (rest : list (Z * Z)) :
    a <= e -> tiles (e + 1) rest b -> tiles a ((a, e) :: rest) b.

(** The bytes of a buffer from index [first] to index [last], inclusive. *)
Definition bytes_between (buf : Buffer) (range : Z * Z) : Buffer :=
  firstn (Z.to_nat (snd range - fst range + 1)) (skipn (Z.to_nat (fst range)) buf).

(** The request of the specification for one range: the bytes of the range,
    with the header [bytes <first>-<last>/<total>]. *)
Definition range_request (url : jstring) (buf : Buffer) (range : Z * Z)
  : Request :=
  mkRequest PATCH url (Octets (bytes_between buf range))
    [OCTET_STREAM;
     (js "Content-Length",
      dec (Z.of_nat (List.length (bytes_between buf range))));
     (js "Content-Range",
      js "bytes " ++ dec (fst range) ++ js "-" ++ dec (snd range) ++ js "/"
      ++ dec (Z.of_nat (List.length buf)))].

(** The process after it has sent [requests]. *)
Definition sending (w : World) (requests : list Request) : World :=
  mkWorld (axiosInstance w) (projectName w) (sent w ++ requests).

(** A service that answers every request with some object or value from
    which a property can be read. *)
Definition accepting (remote : Remote) : Prop :=
  forall history request,
    exists data, remote history request = Replied data /\ nullish data = false.

(** A computation that only adds to the requests sent. *)
Definition grows {A} (m : M A) : Prop :=
  forall w, exists more, sent (snd (m w)) = sent w ++ more.

(** After escaping, the quotes come in pairs. *)
Fixpoint quotes_paired (s : jstring) : bool :=
  match s with
  | [] => true
  | c :: r =>
      if (c =? QUOTE)%N then
        match r with
        | c' :: r' => (c' =? QUOTE)%N && quotes_paired r'
        | [] => false
        end
      else quotes_paired r
  end.

(** A date filter that carries quotes, and a search with nothing else. *)
Definition injected_date : jstring := js "2024-01-01' OR '1'='1".

Definition date_only_search : SearchArgs :=
  mkSearchArgs None None None None None None
    (Some injected_date) (Some injected_date).


(** Sample calls of the upload tool and a reply that names an attachment. *)
Definition attachment_reply : JsValue :=
  JObj [(js "id", JStr (js "att-1"));
        (js "url", JStr (js "https://dev.azure.com/org/att-1"))].

(** Five bytes, to be sent in chunks of two. *)
Definition five_bytes_upload : UploadArgs :=
  mkUploadArgs (JNum 7) (JStr (js "a.bin")) (JStr (js "AAECAwQ="))
    JUndefined JUndefined (Some (num_of_Z 2)) (Some (num_of_Z 1)).

(** Five bytes, below the default threshold. *)
Definition small_upload : UploadArgs :=
  mkUploadArgs (JNum 7) (JStr (js "a.bin")) (JStr (js "AAECAwQ="))
    JUndefined JUndefined None None.

(** Text that is not Base64. *)
Definition not_base64_upload : UploadArgs :=
  mkUploadArgs (JNum 7) (JStr (js "a.bin")) (JStr (js "!!!!"))
    JUndefined JUndefined None None.

(** An empty buffer above a negative threshold, with a chunk size of zero. *)
Definition empty_chunked_upload : UploadArgs :=
  mkUploadArgs (JNum 7) (JStr (js "a.bin")) (JStr (js "="))
    JUndefined JUndefined (Some (num_of_Z 0)) (Some (num_of_Z (-1))).

(** Five bytes above a threshold of one, with a chunk size of zero. *)
Definition zero_chunk_upload : UploadArgs :=
  mkUploadArgs (JNum 7) (JStr (js "a.bin")) (JStr (js "AAECAwQ="))
    JUndefined JUndefined (Some (num_of_Z 0)) (Some (num_of_Z 1)).

(** The numbers 1.5, 0.1 (the binary64 value nearest to it) and 2^-53. *)
Definition one_and_a_half : Num := dyadic 3 (-1).
Definition one_tenth : Num := S754_finite false 7205759403792794 (-56).
Definition half_ulp_of_one : Num := dyadic 1 (-53).

(** Five bytes above a threshold of one, in chunks of 1.5 bytes. *)
Definition fractional_chunk_upload : UploadArgs :=
  mkUploadArgs (JNum 7) (JStr (js "a.bin")) (JStr (js "AAECAwQ="))
    JUndefined JUndefined (Some one_and_a_half) (Some (num_of_Z 1)).

(** A chunk request of the sample calls, by its bytes and the texts of its
    two headers. *)
Definition sample_chunk (bytes : Buffer) (size range : string) : Request :=
  mkRequest PATCH (js "/Demo/_apis/wit/attachments/att-1?api-version=7.1")
    (Octets bytes)
    [OCTET_STREAM; (js "Content-Length", js size);
     (js "Content-Range", js range)].

(** One byte above a threshold of zero, in chunks of 0.1 bytes. *)
Definition one_byte_tenth_upload : UploadArgs :=
  mkUploadArgs (JNum 7) (JStr (js "a.bin")) (JStr (js "AA=="))
    JUndefined JUndefined (Some one_tenth) (Some (num_of_Z 0)).

(** Five bytes above a threshold of one, in chunks of 2^-53 bytes. *)
Definition tiny_chunk_upload : UploadArgs :=
  mkUploadArgs (JNum 7) (JStr (js "a.bin")) (JStr (js "AAECAwQ="))
    JUndefined JUndefined (Some half_ulp_of_one) (Some (num_of_Z 1)).

(** Sample calls of the other tools. *)
Definition two_hundred_ids : BatchGetArgs :=
  mkBatchGetArgs (JArr (repeat (JNum 1) 200)) JUndefined JUndefined JUndefined.

Definition patch_without_id : BatchUpdateArgs :=
  mkBatchUpdateArgs (JArr [JObj [(js "method", JStr (js "PATCH"))]])
    JUndefined JUndefined.

Definition assign_display_name : UpdateArgs :=
  mkUpdateArgs (JNum 7)
    (JObj [(js "System.AssignedTo", JStr (js "John Doe"))]) JUndefined.

(* ================================================================== *)
(** * The language of a pattern *)

(** [matches r s]: the whole of [s] is an instance of the pattern [r]. *)
Inductive matches : regex -> jstring -> Prop :=
| matches_eps : matches Eps []
| matches_class (p : N -> bool) (c : N) : p c = true -> matches (Class p) [c]
| matches_cat (a b : regex) (s t : jstring) :
    matches a s -> matches b t -> matches (Cat a b) (s ++ t)
| matches_alt_l (a b : regex) (s : jstring) :
    matches a s -> matches (Alt a b) s
| matches_alt_r (a b : regex) (s : jstring) :
    matches b s -> matches (Alt a b) s
| matches_star_nil (a : regex) : matches (Star a) []
| matches_star_cons (a : regex) (s t : jstring) :
    matches a s -> matches (Star a) t -> matches (Star a) (s ++ t).

(** Reading an escaped value back: a doubled quote stands for one quote. *)
Fixpoint unescape_quotes (s : jstring) : jstring :=
  match s with
  | [] => []
  | c :: r =>
      if (c =? QUOTE)%N then
        match r with
        | c' :: r' =>
            if (c' =? QUOTE)%N then QUOTE :: unescape_quotes r'
            else c :: c' :: unescape_quotes r'
        | [] => [c]
        end
      else c :: unescape_quotes r
  end.

(* ================================================================== *)
(** * [search_work_items]: the page of results (part_000, lines 607-707) *)





(* ================================================================== *)
(** * Start-up ([main], index.ts lines 723-733) *)

Inductive Startup : Type :=
| Running
| Exited (code : Z).

Section Main.

Context {host : Host}.
Variable remote : Remote.
Variable API_VERSION : jstring.

(** The default project is resolved before the transport is connected; any
    failure ends the process with status 1.  [connected] tells whether
    [server.connect], which is the SDK's, resolves. *)
Definition main (connected : bool) : World -> Startup * World :=
  fun w =>
    match getProjectName remote API_VERSION w with
    | (Ret _, w') => (if connected then Running else Exited 1, w')
    | (_, w') => (Exited 1, w')
    end.

End Main.

(** A reply with no project. *)
Definition no_projects : JsValue := JObj [(js "value", JArr [])].

(** A reply with one project, [Demo]. *)
Definition one_project : JsValue :=
  JObj [(js "value", JArr [JObj [(js "name", JStr (js "Demo"))]])].

(* ================================================================== *)
(** * Values used to state the behaviour of the batch and update tools *)

Section BatchStatements.

Context {host : Host}.
Variable API_VERSION : jstring.

(** The address of the composite request of [batch_update_work_items]. *)
Definition batch_url (args : BatchUpdateArgs) : jstring :=
  js "/_apis/wit/$batch?api-version=" ++ API_VERSION
  ++ (if truthy (coalesce (batch_bypassRules args) (JBool false))
      then js "&bypassRules=true" else [])
  ++ (if truthy (coalesce (batch_suppressNotifications args) (JBool false))
      then js "&suppressNotifications=true" else []).

(** [r.code >= 200 && r.code < 300] for a result [r]. *)
Definition succeeded (r : JsValue) : bool :=
  match to_number (optional r (js "code")) with
  | Some z => (200 <=? z) && (z <? 300)
  | None => false
  end.

End BatchStatements.

(** A computation that leaves the process as it is: it sends nothing and
    caches nothing. *)
Definition silent {A} (m : M A) : Prop := forall w, snd (m w) = w.

(** A batch of one update, and a reply with one success and two failures. *)
Definition one_update : BatchUpdateArgs :=
  mkBatchUpdateArgs
    (JArr [JObj [(js "method", JStr (js "PATCH"));
                 (js "workItemId", JNum 12);
                 (js "updates", JObj [(js "System.State", JStr (js "Done"))])]])
    JUndefined (JBool true).

Definition mixed_results : JsValue :=
  JObj [(js "value",
         JArr [JObj [(js "code", JNum 200)];
               JObj [(js "code", JNum 404)];
               JObj [(js "code", JNum 300)]])].

(* ================================================================== *)
(** * More tool handlers of part_000 *)

Definition SLASH : N := 47.

(** [s.replace(/\/$/, '')]: one slash at the end is removed. *)
Definition strip_trailing_slash (s : jstring) : jstring :=
  match rev s with
  | c :: r => if (c =? SLASH)%N then rev r else s
  | [] => s
  end.

(** [parts[parts.length - 1]] for [parts = s.split('/')]. *)
Definition last_segment (s : jstring) : jstring := last (split SLASH s) [].

Record LinkCommitArgs : Type := mkLinkCommitArgs {
  link_workItemId : JsValue;
  link_commitSha : JsValue;
  link_repositoryName : JsValue;
  link_projectName : JsValue;
  link_comment : JsValue
}.

Record ListAttachmentsArgs : Type := mkListAttachmentsArgs {
  attachments_workItemId : JsValue;
  attachments_projectName : JsValue
}.

Section MoreHandlers.

Context {host : Host}.
Variable remote : Remote.
Variable API_VERSION : jstring.

(* ------------------------------------------------------------------ *)
(** ** [link_commit_to_work_item] (part_000, lines 777-820) *)

(** [`${baseUrl}/${encodeURIComponent(targetProjectName)}/_git/
      ${encodeURIComponent(repositoryName)}/commit/${commitSha}`] with
    [baseUrl = orgUrl.replace(/\/$/, '')] *)
Definition commit_url (orgUrl : jstring)
    (targetProjectName repositoryName commitSha : JsValue) : jstring :=
  strip_trailing_slash orgUrl ++ js "/" ++ encode targetProjectName
  ++ js "/_git/" ++ encode repositoryName ++ js "/commit/"
  ++ to_string commitSha.

Definition commit_link_request (workItemId targetProjectName : JsValue)
    (commitUrl : jstring) (linkComment : JsValue) : Request :=
  mkRequest PATCH
    (js "/" ++ encode targetProjectName ++ js "/_apis/wit/workitems/"
     ++ to_string workItemId ++ js "?api-version=" ++ API_VERSION)
    (Json (JArr
       [JObj [(js "op", JStr (js "add"));
              (js "path", JStr (js "/relations/-"));
              (js "value",
               JObj [(js "rel", JStr (js "ArtifactLink"));
                     (js "url", JStr commitUrl);
                     (js "attributes",
                      JObj [(js "name", JStr (js "Fixed in Commit"));
                            (js "comment", linkComment)])])]]))
    JSON_PATCH.

(** [v.substring(0, 7)]: strings only have the method. *)
Definition substring_0_7 (v : JsValue) : M jstring :=
  match v with
  | JStr s => ret (firstn 7 s)
  | _ => throw TypeError
  end.

(** [v !== 40] *)
Definition is_not_40 (v : JsValue) : bool :=
  match v with JNum 40 => false | _ => true end.

Definition link_commit_to_work_item (args : LinkCommitArgs)
    (currentProjectName : JsValue) : M jstring :=
  let workItemId := link_workItemId args in
  let commitSha := link_commitSha args in
  let repositoryName := link_repositoryName args in
  let targetProjectName := coalesce (link_projectName args) currentProjectName in
  let linkComment :=
    coalesce (link_comment args) (JStr (js "Linked by MCP Server")) in
  if negb (is_number workItemId) || negb (truthy commitSha)
     || negb (truthy repositoryName) then
    throw (McpError InvalidParams
             (js "缺少必要的參數: workItemId (數字), commitSha (字串), repositoryName (字串)"))
  else
    len <- get commitSha (js "length") ;;
    if is_not_40 len then
      throw (McpError InvalidParams
               (js "無效的參數: commitSha 必須是 40 個字元的 SHA"))
    else
      let commitUrl :=
        commit_url ORG_URL targetProjectName repositoryName commitSha in
      send remote (commit_link_request workItemId targetProjectName commitUrl
                     linkComment) ;;;
      short <- substring_0_7 commitSha ;;
      ret (js "成功將 Commit " ++ short ++ js " 連結到 Work Item "
           ++ to_string workItemId).

(* ------------------------------------------------------------------ *)
(** ** [list_work_item_attachments] (part_000, lines 822-858) *)

(** [v.split('/')]: strings only have the method. *)
Definition split_slash (v : JsValue) : M (list jstring) :=
  match v with
  | JStr s => ret (split SLASH s)
  | _ => throw TypeError
  end.

(** The callback of [filter]: [rel.rel === 'AttachedFile']. *)
Definition is_attached_file (rel : JsValue) : M bool :=
  kind <- get rel (js "rel") ;;
  ret (is_string "AttachedFile" kind).

(** The callback of [map]: id, name and address of an attachment. *)
Definition attachment_info (rel : JsValue) : M JsValue :=
  url <- get rel (js "url") ;;
  urlParts <- split_slash url ;;
  let id := last urlParts [] in
  attributes <- get rel (js "attributes") ;;
  ret (JObj [(js "id", JStr id);
             (js "name",
              coalesce (optional attributes (js "name"))
                (JStr (js "Unknown Filename")));
             (js "url", url)]).

(** [v.filter(f)] for a callback that may raise. *)
Fixpoint filter_m {A} (f : A -> M bool) (a : list A) : M (list A) :=
  match a with
  | [] => ret []
  | x :: r =>
      keep <- f x ;;
      rest <- filter_m f r ;;
      ret (if keep : bool then x :: rest else rest)
  end.

(** [{ ...att, downloadUrl }] *)
Definition with_download_url (targetProjectName : JsValue) (att : JsValue)
  : JsValue :=
  JObj [(js "id", optional att (js "id"));
        (js "name", optional att (js "name"));
        (js "url", optional att (js "url"));
        (js "downloadUrl",
         JStr (ORG_URL ++ js "/" ++ encode targetProjectName
               ++ js "/_apis/wit/attachments/"
               ++ to_string (optional att (js "id")) ++ js "?fileName="
               ++ encode (optional att (js "name"))
               ++ js "&download=true&api-version=" ++ API_VERSION))].

Definition attachments_request (workItemId targetProjectName : JsValue)
  : Request :=
  mkRequest GET
    (js "/" ++ encode targetProjectName ++ js "/_apis/wit/workitems/"
     ++ to_string workItemId ++ js "?$expand=relations&api-version="
     ++ API_VERSION)
    NoBody [].

Definition list_work_item_attachments (args : ListAttachmentsArgs)
    (currentProjectName : JsValue) : M jstring :=
  let workItemId := attachments_workItemId args in
  let targetProjectName :=
    coalesce (attachments_projectName args) currentProjectName in
  if negb (is_number workItemId) then
    throw (McpError InvalidParams
             (js "缺少或無效的參數: workItemId (必須是數字)"))
  else
    workItemData <- send remote (attachments_request workItemId targetProjectName) ;;
    relations0 <- get workItemData (js "relations") ;;
    relations <- array_items (coalesce relations0 (JArr [])) ;;
    attached <- filter_m is_attached_file relations ;;
    attachments <- map_indexed (fun _ => attachment_info) 0 attached ;;
    if (Z.of_nat (List.length attachments) =? 0) then
      ret (js "Work Item " ++ to_string workItemId ++ js " 沒有找到任何附件。")
    else
      ret (JSON_stringify
             (JArr (map (with_download_url targetProjectName) attachments))).

Definition call_link_commit_to_work_item (args : LinkCommitArgs) : M jstring :=
  CallToolRequest remote API_VERSION (js "link_commit_to_work_item")
    (link_commit_to_work_item args).

Definition call_list_work_item_attachments (args : ListAttachmentsArgs)
  : M jstring :=
  CallToolRequest remote API_VERSION (js "list_work_item_attachments")
    (list_work_item_attachments args).

End MoreHandlers.

(** A relation is an attached file. *)
Definition attached_file (rel : JsValue) : bool :=
  is_string "AttachedFile" (optional rel (js "rel")).

(** A relation whose address is a string: what [attachment_info] needs. *)
Definition has_text_url (rel : JsValue) : bool :=
  match optional rel (js "url") with JStr _ => true | _ => false end.

(** The entry listed for an attached file. *)
Definition attachment_entry (rel : JsValue) : JsValue :=
  JObj [(js "id", JStr (last_segment (to_string (optional rel (js "url")))));
        (js "name",
         coalesce (optional (optional rel (js "attributes")) (js "name"))
           (JStr (js "Unknown Filename")));
        (js "url", optional rel (js "url"))].

(** Sample calls. *)
Definition forty : jstring := js "0123456789abcdef0123456789abcdef01234567".

Definition link_commit_call : LinkCommitArgs :=
  mkLinkCommitArgs (JNum 7) (JStr forty) (JStr (js "repo")) JUndefined
    JUndefined.

Definition short_sha_call : LinkCommitArgs :=
  mkLinkCommitArgs (JNum 7) (JStr (js "0123abc")) (JStr (js "repo")) JUndefined
    JUndefined.

Definition sample_relations : list JsValue :=
  [JObj [(js "rel", JStr (js "ArtifactLink"));
         (js "url", JStr (js "vstfs:///Git/Commit/x"))];
   JObj [(js "rel", JStr (js "AttachedFile"));
         (js "url",
          JStr (js "https://dev.azure.com/org/_apis/wit/attachments/abc-1"));
         (js "attributes", JObj [(js "name", JStr (js "a.txt"))])]].

Definition two_relations : JsValue :=
  JObj [(js "relations", JArr sample_relations)].

Definition list_attachments_call : ListAttachmentsArgs :=
  mkListAttachmentsArgs (JNum 7) JUndefined.

(** The patches [if (v) patchDocument.push(...)] adds for the fields that
    are given. *)
Definition given_fields (fields : list (string * JsValue)) : list JsValue :=
  map (fun f => add_field (fst f) (snd f))
    (filter (fun f => truthy (snd f)) fields).

(** A bug with an assignee, an empty description and no paths. *)
Definition bug_report : CreateArgs :=
  mkCreateArgs (JStr (js "Bug")) (JStr (js "Crash")) JUndefined (JStr [])
    JUndefined JNull (JStr (js "a@b.co")) JUndefined.

(** A content that is a number. *)
Definition numeric_content_upload : UploadArgs :=
  mkUploadArgs (JNum 7) (JStr (js "a.bin")) (JNum 5) JUndefined JUndefined
    None None.

(* ================================================================== *)
(** * Errors about the arguments *)

(** The outcome is an error with the code [InvalidParams]. *)
Definition reports_invalid {A} (r : Outcome A) : bool :=
  match r with
  | Throw e => match exn_code e with InvalidParams => true | _ => false end
  | _ => false
  end.

(** A computation that reports invalid arguments only while the process is
    as it found it. *)
Definition checks_first {A} (m : M A) : Prop :=
  forall w, reports_invalid (fst (m w)) = true -> snd (m w) = w.

(** A computation that never reports invalid arguments. *)
Definition never_invalid {A} (m : M A) : Prop :=
  forall w, reports_invalid (fst (m w)) = false.

(** Updates that are [null], an empty object, and one state. *)
Definition null_updates : UpdateArgs := mkUpdateArgs (JNum 7) JNull JUndefined.

Definition state_update : UpdateArgs :=
  mkUpdateArgs (JNum 7) (JObj [(js "System.State", JStr (js "Done"))])
    (JStr (js "closing")).

(* ================================================================== *)
(** * The order of the requests of a chunked upload *)

(** The values of [start] for which the chunk loop runs its body, with
    [fuel] iterations at most. *)
Fixpoint chunk_starts (fuel : nat) (fileSize : Z) (chunkSize start : Num)
  : list Num :=
  if num_ltb start (num_of_Z fileSize) then
    match fuel with
    | O => []
    | S fuel' =>
        start :: chunk_starts fuel' fileSize chunkSize (num_add start chunkSize)
    end
  else [].

(** The service answered every request of [new], sent one after the other
    after [history]. *)
Fixpoint all_answered (remote : Remote) (history new : list Request) : Prop :=
  match new with
  | [] => True
  | r :: rest =>
      (exists data, remote history r = Replied data)
      /\ all_answered remote (history ++ [r]) rest
  end.

(** Every request of [new] that is followed by another one was answered:
    nothing was sent after a request that the service rejected. *)
Fixpoint stops_at_rejection (remote : Remote) (history new : list Request)
  : Prop :=
  match new with
  | [] => True
  | r :: rest =>
      (rest = [] \/ exists data, remote history r = Replied data)
      /\ stops_at_rejection remote (history ++ [r]) rest
  end.

(** A computation that stops sending at the first rejected request, and
    returns only when every request was answered. *)
Definition fail_fast {A} (remote : Remote) (m : M A) : Prop :=
  forall w,
    exists new,
      sent (snd (m w)) = sent w ++ new
      /\ stops_at_rejection remote (sent w) new
      /\ forall a, fst (m w) = Ret a -> all_answered remote (sent w) new.

(** A service that rejects the request that comes after [n] others and
    accepts the rest. *)
Definition failing_at (n : nat) : Remote :=
  fun history _ =>
    if (List.length history =? n)%nat then Rejected (js "503")
    else Replied attachment_reply.

(* ================================================================== *)
(** * Properties of the string operations *)

Lemma split_without_separator (sep : N) (x : jstring) :
  ~ In sep x -> split sep x = [x].
Proof.
  induction x as [|c r IH]; intros Hx; simpl; [reflexivity|].
  destruct (N.eqb_spec c sep) as [->|_].
  - exfalso; apply Hx; left; reflexivity.
  - rewrite IH; [reflexivity|]. intros Hin; apply Hx; right; exact Hin.
Qed.

Lemma split_at_separator (sep : N) (x r : jstring) :
  ~ In sep x -> split sep (x ++ sep :: r) = x :: split sep r.
Proof.
  induction x as [|c x IH]; intros Hx; simpl.
  - rewrite N.eqb_refl; reflexivity.
  - destruct (N.eqb_spec c sep) as [->|_].
    + exfalso; apply Hx; left; reflexivity.
    + rewrite IH; [reflexivity|]. intros Hin; apply Hx; right; exact Hin.
Qed.

(** Splitting what was joined with the separator gives the segments back. *)
Lemma split_join (sep : N) (segments : list jstring) :
  segments <> [] ->
  Forall (fun s => ~ In sep s) segments ->
  split sep (join [sep] segments) = segments.
Proof.
  induction segments as [|x rest IH]; intros Hne Hall; [congruence|].
  inversion Hall as [|? ? Hx Hrest]; subst.
  destruct rest as [|y rest'].
  - simpl; apply split_without_separator; exact Hx.
  - change (join [sep] (x :: y :: rest'))
      with (x ++ sep :: join [sep] (y :: rest')).
    rewrite split_at_separator by exact Hx.
    rewrite IH; [reflexivity|discriminate|exact Hrest].
Qed.

Lemma jstring_eqb_true (a b : jstring) : jstring_eqb a b = true -> a = b.
Proof.
  revert b. induction a as [|x a IH]; intros [|y b]; simpl;
    try discriminate; [reflexivity|].
  intros H. apply andb_prop in H as [Hxy Hab].
  apply N.eqb_eq in Hxy. f_equal; [exact Hxy|apply IH; exact Hab].
Qed.

Lemma escape_quotes_app (a b : jstring) :
  escape_quotes (a ++ b) = escape_quotes a ++ escape_quotes b.
Proof. unfold escape_quotes; apply flat_map_app. Qed.

(** Escaping changes nothing exactly when there is no quote to double. *)
Lemma escape_quotes_id (s : jstring) :
  ~ In QUOTE s -> escape_quotes s = s.
Proof.
  induction s as [|c r IH]; intros Hs; [reflexivity|].
  unfold escape_quotes in *; simpl.
  destruct (N.eqb_spec c QUOTE) as [->|_].
  - exfalso; apply Hs; left; reflexivity.
  - simpl; rewrite IH; [reflexivity|]. intros Hin; apply Hs; right; exact Hin.
Qed.

Lemma escape_quotes_paired (s : jstring) :
  quotes_paired (escape_quotes s) = true.
Proof.
  induction s as [|c r IH]; [reflexivity|].
  unfold escape_quotes in *; simpl.
  destruct (N.eqb_spec c QUOTE) as [->|Hc].
  - simpl. exact IH.
  - simpl. destruct (N.eqb_spec c QUOTE); [contradiction|exact IH].
Qed.

(* ================================================================== *)
(** * [search_work_items]: quoting of the filter values *)

(** C4 (fails on the code).  The claim is that every filter value reaches the
    query with its single quotes doubled.  The project, type, state, assignee,
    tag and free-text values do; [createdAfter] and [updatedAfter] are
    interpolated as they are: at the date [2024-01-01' OR '1'='1] the two
    date conditions carry the value unchanged, its quotes are not paired,
    and the doubled text the claim asks for is a different string. *)
Theorem search_date_filters_not_escaped :
  search_conditions (js "Demo") date_only_search
  = [ js "[System.TeamProject] = 'Demo'";
      js "[System.CreatedDate] >= '2024-01-01' OR '1'='1'";
      js "[System.ChangedDate] >= '2024-01-01' OR '1'='1'" ]
  /\ escape_quotes injected_date = js "2024-01-01'' OR ''1''=''1"
  /\ quotes_paired injected_date = false
  /\ since_clause "System.CreatedDate" injected_date
     <> since_clause "System.CreatedDate" (escape_quotes injected_date).
Proof.
  repeat split; try (vm_compute; reflexivity).
  vm_compute. discriminate.
Qed.

(** The filters that are escaped: the value placed between the quotes of an
    equality, tag or free-text condition has all its quotes paired. *)
Lemma escaped_filters (field : string) (v : jstring) :
  equals_clause field v = js "[" ++ js field ++ js "] = '" ++ escape_quotes v ++ js "'"
  /\ tag_clause v = js "[System.Tags] CONTAINS '" ++ escape_quotes v ++ js "'"
  /\ quotes_paired (escape_quotes v) = true.
Proof. repeat split; apply escape_quotes_paired. Qed.

(* ================================================================== *)
(** * [search_work_items]: the tag filter *)

Lemma tagList_join (segments : list jstring) :
  segments <> [] ->
  Forall (fun s => ~ In SEMICOLON s) segments ->
  tagList (join [SEMICOLON] segments) = filter nonempty (map trim segments).
Proof.
  intros Hne Hall. unfold tagList. rewrite split_join by assumption. reflexivity.
Qed.

(** C5.  Let the [tags] argument be the segments [segments] joined with
    semicolons, and let the tags be the segments that are not empty after
    trimming, in order.  With N >= 1 tags the tag predicate is one
    parenthesised condition, the [" OR "]-join of exactly N [CONTAINS]
    clauses, the i-th for the i-th tag; with no tag (every segment empty)
    the tag filter adds no condition. *)
Theorem tag_filter_disjunction (segments : list jstring) :
  segments <> [] ->
  Forall (fun s => ~ In SEMICOLON s) segments ->
  let tags := join [SEMICOLON] segments in
  let named := filter nonempty (map trim segments) in
  let clauses := map tag_clause named in
  List.length clauses = List.length named
  /\ (forall i tag, nth_error named i = Some tag ->
        nth_error clauses i
        = Some (js "[System.Tags] CONTAINS '" ++ escape_quotes tag ++ js "'"))
  /\ ((1 <= List.length named)%nat ->
        tag_conditions (Some tags)
        = [js "(" ++ join (js " OR ") clauses ++ js ")"])
  /\ (named = [] -> tag_conditions (Some tags) = []).
Proof.
  intros Hne Hall tags named clauses.
  assert (Htl : tagList tags = named) by (apply tagList_join; assumption).
  split; [apply length_map|].
  split.
  { intros i tag Hi. unfold clauses. rewrite nth_error_map, Hi. reflexivity. }
  unfold tag_conditions, when_given. rewrite Htl.
  split.
  - intros HN.
    assert (Htags : nonempty tags = true).
    { destruct tags as [|c r] eqn:Et; [|reflexivity].
      exfalso. unfold tags in Et.
      assert (Hs : split SEMICOLON (join [SEMICOLON] segments) = segments)
        by (apply split_join; assumption).
      rewrite Et in Hs. simpl in Hs. subst segments.
      unfold named in HN. simpl in HN. lia. }
    rewrite Htags.
    destruct (Z.ltb_spec 0 (Z.of_nat (List.length named))); [reflexivity|lia].
  - intros Hnone. rewrite Hnone. simpl.
    destruct (nonempty tags); reflexivity.
Qed.

Lemma tag_filter_disjunction_witness :
  tag_conditions (Some (js "a; b;;o'c "))
  = [js "([System.Tags] CONTAINS 'a' OR [System.Tags] CONTAINS 'b' OR [System.Tags] CONTAINS 'o''c')"].
Proof.
  assert (Hne : [js "a"; js " b"; js ""; js "o'c "] <> []) by discriminate.
  assert (Hall : Forall (fun s => ~ In SEMICOLON s)
                   [js "a"; js " b"; js ""; js "o'c "]).
  { repeat constructor; vm_compute; intuition discriminate. }
  destruct (tag_filter_disjunction _ Hne Hall) as (_ & _ & Hsome & _).
  apply Hsome. vm_compute. lia.
Defined.

(* ================================================================== *)
(** * Running the monad *)

Lemma bind_ret_inv {A B} (m : M A) (k : A -> M B) (w w' : World) (b : B) :
  bind m k w = (Ret b, w') ->
  exists a w1, m w = (Ret a, w1) /\ k a w1 = (Ret b, w').
Proof.
  unfold bind. destruct (m w) as [[a|e|] w1]; try discriminate.
  intros H. exists a, w1. split; [reflexivity|exact H].
Qed.

Lemma bind_ret {A B} (m : M A) (k : A -> M B) (w w1 : World) (a : A) :
  m w = (Ret a, w1) -> bind m k w = k a w1.
Proof. intros H. unfold bind. rewrite H. reflexivity. Qed.

Lemma bind_throw {A B} (m : M A) (k : A -> M B) (w w1 : World) (e : Exn) :
  m w = (Throw e, w1) -> bind m k w = (Throw e, w1).
Proof. intros H. unfold bind. rewrite H. reflexivity. Qed.

Lemma try_rethrow_ret_inv {A} (m : M A) (f : Exn -> Exn) (w w' : World)
    (a : A) :
  try_catch m (fun e => throw (f e)) w = (Ret a, w') -> m w = (Ret a, w').
Proof.
  unfold try_catch, throw. destruct (m w) as [[x|e|] w1]; try discriminate.
  intros H; exact H.
Qed.

Lemma get_ret_inv (v : JsValue) (k : jstring) (w w' : World) (x : JsValue) :
  get v k w = (Ret x, w') -> prop v k = Some x /\ w' = w.
Proof.
  unfold get. destruct (prop v k); unfold ret, throw; intros H;
    inversion H; subst; split; reflexivity.
Qed.

Lemma get_item_ret_inv (v : JsValue) (i : nat) (w w' : World) (x : JsValue) :
  get_item v i w = (Ret x, w') -> item v i = Some x /\ w' = w.
Proof.
  unfold get_item. destruct (item v i); unfold ret, throw; intros H;
    inversion H; subst; split; reflexivity.
Qed.

Lemma sending_nil (w : World) : sending w [] = w.
Proof. destruct w; unfold sending; simpl. rewrite app_nil_r. reflexivity. Qed.

Lemma sending_sending (w : World) (a b : list Request) :
  sending (sending w a) b = sending w (a ++ b).
Proof. unfold sending; simpl. rewrite app_assoc. reflexivity. Qed.

Lemma send_outcome (remote : Remote) (r : Request) (w : World) :
  send remote r w
  = (match remote (sent w) r with
     | Replied data => Ret data
     | Rejected message => Throw (AxiosError message)
     end, sending w [r]).
Proof. unfold send, sending. destruct (remote (sent w) r); reflexivity. Qed.

Lemma send_ret_inv (remote : Remote) (r : Request) (w w' : World)
    (d : JsValue) :
  send remote r w = (Ret d, w') ->
  remote (sent w) r = Replied d /\ w' = sending w [r].
Proof.
  rewrite send_outcome. destruct (remote (sent w) r); intros H;
    inversion H; subst; split; reflexivity.
Qed.

(* ================================================================== *)
(** * The session: the default project is resolved once *)

Section Session.

Context {host : Host}.
Variable API_VERSION : jstring.

Lemma getAxiosInstance_outcome (w : World) :
  exists instance,
    getAxiosInstance w
    = (Ret instance, mkWorld (Some instance) (projectName w) (sent w)).
Proof.
  unfold getAxiosInstance. destruct w as [[i|] p s]; simpl;
    eexists; reflexivity.
Qed.

Lemma getProjectName_cached (remote : Remote) (w : World) :
  truthy (projectName w) = true ->
  getProjectName remote API_VERSION w = (Ret (projectName w), w).
Proof. intros H. unfold getProjectName. rewrite H. reflexivity. Qed.

(** C8.  A call of [getProjectName] that finds nothing cached and succeeds
    has sent exactly one request, the project list, and has cached the name
    of the first project of the reply; from then on every call, against any
    state of the service and in any later state of the process that still
    holds that cache, returns the same value and sends nothing. *)
Theorem getProjectName_idempotent (remote : Remote) (w w1 : World)
    (name : JsValue) :
  truthy (projectName w) = false ->
  getProjectName remote API_VERSION w = (Ret name, w1) ->
  sent w1 = sent w ++ [projects_request API_VERSION]
  /\ (exists data projects first,
        remote (sent w) (projects_request API_VERSION) = Replied data
        /\ prop data (js "value") = Some projects
        /\ item projects 0 = Some first
        /\ prop first (js "name") = Some name)
  /\ projectName w1 = name
  /\ forall (remote' : Remote) (w2 : World),
       projectName w2 = projectName w1 ->
       getProjectName remote' API_VERSION w2 = (Ret name, w2).
Proof.
  intros Hnone Hcall.
  unfold getProjectName in Hcall. rewrite Hnone in Hcall.
  apply bind_ret_inv in Hcall as (instance & w0 & Hinstance & Hcall).
  destruct (getAxiosInstance_outcome w) as (i & Hi).
  rewrite Hi in Hinstance.
  inversion Hinstance; subst instance w0; clear Hinstance Hi.
  apply try_rethrow_ret_inv in Hcall.
  apply bind_ret_inv in Hcall as (data & w2 & Hsend & Hcall).
  apply send_ret_inv in Hsend as [Hreply ->].
  apply bind_ret_inv in Hcall as (projects & w3 & Hvalue & Hcall).
  apply get_ret_inv in Hvalue as [Hvalue ->].
  destruct (truthy projects); [|discriminate Hcall].
  apply bind_ret_inv in Hcall as (len & w3 & Hlen & Hcall).
  apply get_ret_inv in Hlen as [_ ->].
  destruct (is_zero len); [discriminate Hcall|].
  apply bind_ret_inv in Hcall as (first & w4 & Hfirst & Hcall).
  apply get_item_ret_inv in Hfirst as [Hfirst ->].
  apply bind_ret_inv in Hcall as (name' & w5 & Hname & Hcall).
  apply get_ret_inv in Hname as [Hname ->].
  destruct (truthy name') eqn:Htruthy; [|discriminate Hcall].
  apply bind_ret_inv in Hcall as ([] & w6 & Hset & Hcall).
  unfold set_projectName in Hset. inversion Hset; subst w6; clear Hset.
  unfold ret in Hcall. inversion Hcall; subst; clear Hcall.
  split; [reflexivity|].
  split; [exists data, projects, first; auto|].
  split; [reflexivity|].
  intros remote' w7 Hw7. simpl in Hw7.
  rewrite (getProjectName_cached remote' w7) by (rewrite Hw7; exact Htruthy).
  rewrite Hw7. reflexivity.
Qed.

End Session.

Lemma getProjectName_idempotent_witness :
  let remote := always (JObj [(js "value",
                               JArr [JObj [(js "name", JStr (js "Demo"))]])]) in
  let w1 := snd (getProjectName (host := sample_host) remote (js "7.1") fresh) in
  sent w1 = sent fresh ++ [projects_request (js "7.1")]
  /\ projectName w1 = JStr (js "Demo")
  /\ getProjectName (host := sample_host) (always JNull) (js "7.1") w1
     = (Ret (JStr (js "Demo")), w1).
Proof.
  intros remote w1.
  assert (Hnone : truthy (projectName fresh) = false) by reflexivity.
  assert (Hcall : getProjectName (host := sample_host) remote (js "7.1") fresh
                  = (Ret (JStr (js "Demo")), w1))
    by (vm_compute; reflexivity).
  destruct (getProjectName_idempotent (host := sample_host) (js "7.1") remote
              fresh w1 (JStr (js "Demo")) Hnone Hcall)
    as (Hsent & _ & Hname & Hlater).
  split; [exact Hsent|]. split; [exact Hname|].
  apply Hlater. reflexivity.
Defined.

(* ================================================================== *)
(** * The dispatcher once the session is ready *)

Section Dispatch.

Context {host : Host}.
Variable remote : Remote.
Variable API_VERSION : jstring.

(** With the client and the project cached, a tool call is its handler run
    on the cached project, its errors re-raised by the dispatcher; the
    session lookup sends nothing. *)
Lemma CallToolRequest_ready {A} (name : jstring) (handler : JsValue -> M A)
    (w : World) :
  ready w ->
  CallToolRequest remote API_VERSION name handler w
  = match handler (projectName w) w with
    | (Throw e, w') => (Throw (tool_error name e), w')
    | r => r
    end.
Proof.
  intros [Haxios Hproject].
  unfold CallToolRequest, bind, try_catch, throw, getAxiosInstance.
  destruct (axiosInstance w) as [instance|] eqn:Hi; [|congruence].
  rewrite getProjectName_cached by exact Hproject.
  reflexivity.
Qed.

Lemma tool_error_code (name : jstring) (e : Exn) :
  exists text, tool_error name e = McpError (exn_code e) text.
Proof. eexists; reflexivity. Qed.

(* ------------------------------------------------------------------ *)
(** ** [update_work_item]: the assignee must look like an e-mail address *)

(** C10.  When the [updates] object has a truthy ["System.AssignedTo"] whose
    text does not match the e-mail pattern, [update_work_item] raises
    [InvalidParams] and sends nothing, whatever the other arguments are;
    [create_work_item] puts the same assignee into the document it posts. *)
Theorem update_rejects_non_email_assignee (args : UpdateArgs)
    (props : list (jstring * JsValue)) (assignee : JsValue) (w : World) :
  ready w ->
  update_updates args = JObj props ->
  lookup (js "System.AssignedTo") props = assignee ->
  truthy assignee = true ->
  regex_test EMAIL (to_string assignee) = false ->
  (exists text,
     call_update_work_item remote API_VERSION args w
     = (Throw (McpError InvalidParams text), w))
  /\ forall created : CreateArgs,
       truthy (create_type created) = true ->
       truthy (create_title created) = true ->
       create_assignedTo created = assignee ->
       exists request document,
         sent (snd (call_create_work_item remote API_VERSION created w))
         = sent w ++ [request]
         /\ method request = POST
         /\ body request = Json (JArr document)
         /\ In (add_field "/fields/System.AssignedTo" assignee) document.
Proof.
  intros Hready Hupdates Hlookup Htruthy Hemail.
  split.
  - unfold call_update_work_item.
    rewrite CallToolRequest_ready by exact Hready.
    unfold update_work_item. rewrite Hupdates.
    destruct (update_id args) eqn:Hid; simpl;
      try (eexists; reflexivity).
    unfold keys_length, bind, ret, throw, get; simpl.
    destruct props as [|p props']; [simpl in Hlookup; subst; discriminate|].
    simpl List.length.
    destruct (Z.eqb_spec (Z.of_nat (S (List.length props'))) 0) as [E|_];
      [lia|].
    rewrite Hlookup, Htruthy, Hemail. simpl.
    eexists; reflexivity.
  - intros created Htype Htitle Hassigned.
    unfold call_create_work_item.
    rewrite CallToolRequest_ready by exact Hready.
    unfold create_work_item. rewrite Htype, Htitle, Hassigned, Htruthy. simpl.
    unfold bind, send.
    match goal with
    | |- context [remote (sent w) ?r] =>
        exists r; destruct (remote (sent w) r) as [data|message]
    end; simpl.
    + match goal with
      | |- context [Json (JArr ?doc)] => exists doc
      end.
      destruct (get data (js "id") _) as [[id| e |] w'] eqn:Hget;
        unfold get in Hget; destruct (prop data (js "id"));
        inversion Hget; subst; simpl;
        (repeat split; try reflexivity);
        destruct (truthy (create_description created)); simpl; auto 10.
    + match goal with
      | |- context [Json (JArr ?doc)] => exists doc
      end.
      (repeat split; try reflexivity).
      destruct (truthy (create_description created)); simpl; auto 10.
Qed.

(* ------------------------------------------------------------------ *)
(** ** Computations on a reply *)

Lemma quiet_ret {A} (a : A) : quiet (ret a).
Proof. intros w; left; eexists; reflexivity. Qed.

Lemma quiet_type_error {A} : quiet (@throw A TypeError).
Proof. intros w; right; reflexivity. Qed.

Lemma quiet_bind {A B} (m : M A) (k : A -> M B) :
  quiet m -> (forall a, quiet (k a)) -> quiet (bind m k).
Proof.
  intros Hm Hk w. unfold bind.
  destruct (Hm w) as [[a ->]| ->]; [apply Hk|right; reflexivity].
Qed.

Lemma quiet_get (v : JsValue) (k : jstring) : quiet (get v k).
Proof.
  unfold get. destruct (prop v k); [apply quiet_ret|apply quiet_type_error].
Qed.

Lemma quiet_array_items (v : JsValue) : quiet (array_items v).
Proof.
  destruct v; simpl; first [apply quiet_ret|apply quiet_type_error].
Qed.

Lemma quiet_map_indexed {A B} (f : nat -> A -> M B) (l : list A) :
  (forall i x, quiet (f i x)) -> forall i, quiet (map_indexed f i l).
Proof.
  intros Hf. induction l as [|x r IH]; intros i; simpl.
  - apply quiet_ret.
  - apply quiet_bind; [apply Hf|]. intros y.
    apply quiet_bind; [apply IH|]. intros ys. apply quiet_ret.
Qed.

Create HintDb quiet.
#[local] Hint Resolve quiet_ret quiet_type_error quiet_get quiet_array_items
  : quiet.

Ltac quiet_steps :=
  repeat first
    [ apply quiet_bind; [|intros ?]
    | apply quiet_map_indexed; intros ? ?
    | solve [auto with quiet] ].

Lemma quiet_batch_item_text (item : JsValue) : quiet (batch_item_text item).
Proof. unfold batch_item_text. quiet_steps. Qed.

Lemma quiet_batch_summary (data : JsValue) : quiet (batch_summary data).
Proof.
  unfold batch_summary. quiet_steps; apply quiet_batch_item_text.
Qed.

(* ------------------------------------------------------------------ *)
(** ** [get_work_items_batch]: the bound on [ids] *)

(** C6.  With 200 ids the call sends its one request, the batch fetch, and
    whatever comes back the error is never [InvalidParams]; with an [ids]
    that is not an array, is empty or has 201 ids or more the call raises
    [InvalidParams] and sends nothing. *)
Theorem batch_ids_limit (args : BatchGetArgs) (w : World) :
  ready w ->
  let run := call_get_work_items_batch remote API_VERSION args w in
  (forall ids, batch_ids args = JArr ids -> List.length ids = 200%nat ->
     sent (snd run) = sent w ++ [workitemsbatch_request API_VERSION args]
     /\ forall text, fst run <> Throw (McpError InvalidParams text))
  /\ ((forall ids, batch_ids args = JArr ids ->
         ids = [] \/ (201 <= List.length ids)%nat) ->
      exists text, run = (Throw (McpError InvalidParams text), w)).
Proof.
  intros Hready run. unfold run, call_get_work_items_batch.
  rewrite CallToolRequest_ready by exact Hready.
  unfold get_work_items_batch.
  split.
  - intros ids Hids Hlen. rewrite Hids, Hlen. simpl.
    unfold bind, send.
    destruct (remote (sent w) (workitemsbatch_request API_VERSION args))
      as [data|message]; simpl.
    + match goal with
      | |- context [batch_summary data ?w'] =>
          destruct (quiet_batch_summary data w') as [[text ->]| ->]
      end; simpl; (split; [reflexivity|]); intros text'; discriminate.
    + split; [reflexivity|]. intros text'; discriminate.
  - intros Hbad.
    destruct (batch_ids args) as [| | | | |ids|] eqn:Hids;
      try (eexists; reflexivity).
    destruct (Hbad ids eq_refl) as [-> |Hlong]; [eexists; reflexivity|].
    destruct (Z.eqb_spec (Z.of_nat (List.length ids)) 0) as [E|_]; [lia|].
    destruct (Z.ltb_spec 200 (Z.of_nat (List.length ids))) as [_|E]; [|lia].
    eexists; reflexivity.
Qed.

(* ------------------------------------------------------------------ *)
(** ** [batch_update_work_items]: the first malformed operation *)

Lemma get_optional (v : JsValue) (k : jstring) :
  nullish v = false -> get v k = ret (optional v k).
Proof.
  intros Hv. unfold get, optional.
  destruct v; try discriminate Hv; reflexivity.
Qed.

Lemma is_string_true (text : string) (v : JsValue) :
  is_string text v = true -> v = JStr (js text).
Proof.
  destruct v; simpl; try discriminate.
  intros H. apply jstring_eqb_true in H. congruence.
Qed.

Lemma post_is_not_delete (v : JsValue) :
  is_string "POST" v = true -> is_string "DELETE" v = false.
Proof. intros H. apply is_string_true in H. subst. reflexivity. Qed.

(** One operation: it is translated when it is well formed and raises the
    positional error when it is malformed; nothing is sent either way. *)
Lemma batch_request_outcome (currentProjectName : JsValue) (index : nat)
    (op : JsValue) (w : World) :
  nullish op = false ->
  if malformed op then
    exists what,
      batch_request API_VERSION currentProjectName index op w
      = (Throw (operation_error index what), w)
  else
    exists inner,
      batch_request API_VERSION currentProjectName index op w
      = (Ret inner, w).
Proof.
  intros Hop. unfold batch_request, malformed.
  repeat rewrite (get_optional op) by exact Hop.
  unfold bind, ret, throw.
  destruct (is_string "PATCH" (optional op (js "method"))); simpl.
  { destruct (truthy (optional op (js "workItemId"))); simpl;
      eexists; reflexivity. }
  destruct (is_string "POST" (optional op (js "method"))) eqn:Hpost; simpl.
  { rewrite (post_is_not_delete _ Hpost).
    destruct (truthy (optional op (js "workItemType"))); simpl;
      eexists; reflexivity. }
  destruct (is_string "DELETE" (optional op (js "method"))); simpl.
  { destruct (truthy (optional op (js "workItemId"))); simpl;
      eexists; reflexivity. }
  eexists; reflexivity.
Qed.

(** [map] stops at the first element whose callback raises. *)
Lemma map_indexed_first_failure {A B} (f : nat -> A -> M B) (w : World)
    (e : Exn) (i : nat) :
  forall (l : list A) (k : nat) (x : A),
    nth_error l i = Some x ->
    (forall j y, (j < i)%nat -> nth_error l j = Some y ->
       exists b, f (k + j)%nat y w = (Ret b, w)) ->
    f (k + i)%nat x w = (Throw e, w) ->
    map_indexed f k l w = (Throw e, w).
Proof.
  induction i as [|i IH]; intros l k x Hx Hbefore Hfail;
    destruct l as [|y r]; try discriminate Hx; simpl in Hx.
  - inversion Hx; subst. simpl. unfold bind.
    rewrite Nat.add_0_r in Hfail. rewrite Hfail. reflexivity.
  - simpl. unfold bind at 1.
    destruct (Hbefore 0%nat y) as [b Hb]; [lia|reflexivity|].
    rewrite Nat.add_0_r in Hb. rewrite Hb.
    unfold bind at 1.
    rewrite (IH r (S k) x Hx).
    + reflexivity.
    + intros j z Hj Hz.
      replace (S k + j)%nat with (k + S j)%nat by lia.
      apply Hbefore; [lia|exact Hz].
    + replace (S k + i)%nat with (k + S i)%nat by lia. exact Hfail.
Qed.

(** C7.  Let entry [i] of [operations] be malformed and the entries before
    it well formed (all of them objects, as the schema of the tool has it).
    The call fails with [InvalidParams], its message names the index [i],
    and nothing has been sent. *)
Theorem batch_update_reports_first_malformed (args : BatchUpdateArgs)
    (ops : list JsValue) (i : nat) (op : JsValue) (w : World) :
  ready w ->
  batch_operations args = JArr ops ->
  nth_error ops i = Some op ->
  malformed op = true ->
  (forall j op', (j < i)%nat -> nth_error ops j = Some op' ->
     malformed op' = false) ->
  (forall j op', (j <= i)%nat -> nth_error ops j = Some op' ->
     nullish op' = false) ->
  exists what,
    call_batch_update_work_items remote API_VERSION args w
    = (Throw (McpError InvalidParams
                (js "執行工具 batch_update_work_items 時發生錯誤: "
                 ++ mcp_message InvalidParams
                      (js "操作 " ++ dec (Z.of_nat i) ++ js ": " ++ what))),
       w).
Proof.
  intros Hready Hops Hop Hbad Hbefore Hobjects.
  unfold call_batch_update_work_items.
  rewrite CallToolRequest_ready by exact Hready.
  unfold batch_update_work_items. rewrite Hops.
  destruct ops as [|op0 ops']; [destruct i; discriminate Hop|].
  remember (op0 :: ops') as ops eqn:Eops.
  assert (Hlen : (Z.of_nat (List.length ops) =? 0) = false).
  { subst ops. simpl List.length. apply Z.eqb_neq. lia. }
  rewrite Hlen.
  pose proof (batch_request_outcome (projectName w) i op w
                (Hobjects i op (le_n i) Hop)) as Hfail.
  rewrite Hbad in Hfail. destruct Hfail as [what Hfail].
  exists what.
  unfold bind at 1.
  rewrite (map_indexed_first_failure _ w (operation_error i what) i ops 0%nat op
             Hop).
  - reflexivity.
  - intros j y Hj Hy. simpl.
    pose proof (batch_request_outcome (projectName w) j y w
                  (Hobjects j y (Nat.lt_le_incl _ _ Hj) Hy)) as Hok.
    rewrite (Hbefore j y Hj Hy) in Hok. exact Hok.
  - exact Hfail.
Qed.

End Dispatch.

(* ================================================================== *)
(** * The partition into chunks *)

Section Partition.

Variables fileSize chunkSize : Z.
Hypothesis chunkSize_positive : 0 < chunkSize.

Lemma chunk_count_spec (k : nat) :
  Z.of_nat k * chunkSize < fileSize <-> (k < chunk_count fileSize chunkSize)%nat.
Proof.
  unfold chunk_count.
  set (q := (fileSize + chunkSize - 1) / chunkSize).
  assert (Hq : chunkSize * q <= fileSize + chunkSize - 1 < chunkSize * (q + 1)).
  { unfold q.
    pose proof (Z.mul_div_le (fileSize + chunkSize - 1) chunkSize
                  chunkSize_positive).
    pose proof (Z.mul_succ_div_gt (fileSize + chunkSize - 1) chunkSize
                  chunkSize_positive).
    lia. }
  split; intros H.
  - assert (Z.of_nat k < q) by nia. lia.
  - assert (Z.of_nat k < q) by lia. nia.
Qed.

Lemma chunk_count_zero : fileSize <= 0 -> chunk_count fileSize chunkSize = 0%nat.
Proof.
  intros H. destruct (chunk_count fileSize chunkSize) eqn:E; [reflexivity|].
  assert (Hk : (0 < chunk_count fileSize chunkSize)%nat) by lia.
  apply chunk_count_spec in Hk. lia.
Qed.

Lemma chunk_count_positive :
  0 < fileSize -> (0 < chunk_count fileSize chunkSize)%nat.
Proof. intros H. apply chunk_count_spec. lia. Qed.

(** The ranges from chunk [k] on tile what is left of the file. *)
Lemma tiles_from (n k : nat) :
  (k + n = chunk_count fileSize chunkSize)%nat ->
  tiles (if (0 <? n)%nat then Z.of_nat k * chunkSize else Z.max fileSize 0)
    (map (chunk_range fileSize chunkSize) (seq k n)) 
    (Z.max fileSize 0).
Proof.
  revert k. induction n as [|n IH]; intros k Hk; simpl.
  - constructor.
  - assert (Hlt : Z.of_nat k * chunkSize < fileSize)
      by (apply chunk_count_spec; lia).
    unfold chunk_range at 1.
    constructor; [lia|].
    specialize (IH (S k) ltac:(lia)).
    destruct n as [|n].
    + simpl in *.
      assert (Hge : ~ Z.of_nat (S k) * chunkSize < fileSize).
      { rewrite chunk_count_spec. lia. }
      replace (Z.min ((Z.of_nat k + 1) * chunkSize) fileSize - 1 + 1)
        with (Z.max fileSize 0) by lia.
      exact IH.
    + change (0 <? S n)%nat with true in IH.
      assert (Hnext : Z.of_nat (S k) * chunkSize < fileSize)
        by (apply chunk_count_spec; lia).
      replace (Z.min ((Z.of_nat k + 1) * chunkSize) fileSize - 1 + 1)
        with (Z.of_nat (S k) * chunkSize) by lia.
      exact IH.
Qed.

Lemma chunk_ranges_tile :
  0 <= fileSize -> tiles 0 (chunk_ranges fileSize chunkSize) fileSize.
Proof.
  intros Hsize. unfold chunk_ranges.
  pose proof (tiles_from (chunk_count fileSize chunkSize) 0 eq_refl) as H.
  rewrite Z.max_l in H by lia.
  destruct (chunk_count fileSize chunkSize) eqn:E; simpl in *.
  - assert (fileSize = 0).
    { destruct (Z.eq_dec fileSize 0); [assumption|].
      pose proof (chunk_count_positive ltac:(lia)). lia. }
    subst. exact H.
  - exact H.
Qed.

Lemma chunk_ranges_length :
  Forall (fun r => snd r - fst r + 1 <= chunkSize)
    (chunk_ranges fileSize chunkSize).
Proof.
  unfold chunk_ranges. apply Forall_map. apply Forall_forall.
  intros k _. unfold chunk_range; simpl. lia.
Qed.

Lemma chunk_ranges_last :
  0 < fileSize ->
  exists front first,
    chunk_ranges fileSize chunkSize = front ++ [(first, fileSize - 1)].
Proof.
  intros Hsize. unfold chunk_ranges.
  pose proof (chunk_count_positive Hsize) as Hpos.
  destruct (chunk_count fileSize chunkSize) as [|n] eqn:E; [lia|].
  rewrite seq_S, map_app. simpl.
  eexists. exists (Z.of_nat n * chunkSize).
  f_equal. unfold chunk_range. do 2 f_equal.
  assert (Hin : Z.of_nat n * chunkSize < fileSize)
    by (apply chunk_count_spec; lia).
  assert (Hout : ~ Z.of_nat (S n) * chunkSize < fileSize)
    by (rewrite chunk_count_spec; lia).
  lia.
Qed.

End Partition.

(* ------------------------------------------------------------------ *)
(** ** What a tiling covers *)

Lemma tiles_le (a b : Z) (l : list (Z * Z)) : tiles a l b -> a <= b.
Proof. induction 1; lia. Qed.

Lemma tiles_bounds (a b : Z) (l : list (Z * Z)) :
  tiles a l b -> forall r, In r l -> a <= fst r /\ fst r <= snd r /\ snd r < b.
Proof.
  induction 1 as [a|a e b rest Hae Hrest IH]; intros r Hr; [destruct Hr|].
  pose proof (tiles_le _ _ _ Hrest).
  destruct Hr as [<-|Hr]; simpl; [lia|].
  specialize (IH r Hr). lia.
Qed.

(** Every index of [a, b) lies in exactly one range. *)
Lemma tiles_cover_once (a b : Z) (l : list (Z * Z)) :
  tiles a l b ->
  forall i, a <= i < b ->
    exists r, In r l /\ fst r <= i <= snd r
              /\ forall r', In r' l -> fst r' <= i <= snd r' -> r' = r.
Proof.
  induction 1 as [a|a e b rest Hae Hrest IH]; intros i Hi; [lia|].
  destruct (Z_le_gt_dec i e) as [Hle|Hgt].
  - exists (a, e). simpl. repeat split; auto; try lia.
    intros r' [<-|Hr'] Hin; [reflexivity|].
    pose proof (tiles_bounds _ _ _ Hrest r' Hr'). lia.
  - destruct (IH i ltac:(lia)) as (r & Hr & Hin & Huniq).
    exists r. repeat split; try tauto; try lia. 
    + right; exact Hr.
    + intros r' [<-|Hr'] Hin'; [simpl in Hin'; lia|]. apply Huniq; assumption.
Qed.

Lemma firstn_add {A} (m n : nat) (l : list A) :
  firstn (m + n) l = firstn m l ++ firstn n (skipn m l).
Proof.
  revert l. induction m as [|m IH]; intros l; [reflexivity|].
  destruct l as [|x l]; simpl; [now rewrite firstn_nil|].
  rewrite IH. reflexivity.
Qed.

(** The bytes of the ranges of a tiling, one after the other, are the bytes
    of the buffer between its two ends. *)
Lemma tiles_concat (buf : Buffer) (a b : Z) (l : list (Z * Z)) :
  tiles a l b -> 0 <= a ->
  List.concat (map (bytes_between buf) l)
  = firstn (Z.to_nat (b - a)) (skipn (Z.to_nat a) buf).
Proof.
  induction 1 as [a|a e b rest Hae Hrest IH]; intros Ha; simpl.
  - rewrite Z.sub_diag. reflexivity.
  - rewrite IH by lia. unfold bytes_between; simpl.
    pose proof (tiles_le _ _ _ Hrest).
    replace (Z.to_nat (b - a))
      with (Z.to_nat (e - a + 1) + Z.to_nat (b - (e + 1)))%nat by lia.
    rewrite firstn_add, skipn_skipn.
    replace (Z.to_nat (e - a + 1) + Z.to_nat a)%nat with (Z.to_nat (e + 1))
      by lia.
    reflexivity.
Qed.

Lemma chunk_ranges_concat (buf : Buffer) (chunkSize : Z) :
  0 < chunkSize ->
  List.concat (map (bytes_between buf)
            (chunk_ranges (Z.of_nat (List.length buf)) chunkSize))
  = buf.
Proof.
  intros Hcs.
  rewrite (tiles_concat buf 0 (Z.of_nat (List.length buf)))
    by (try apply chunk_ranges_tile; lia).
  simpl. rewrite Z.sub_0_r, Nat2Z.id. apply firstn_all.
Qed.

(* ================================================================== *)
(** * Numbers: integers below 2^53 are computed with exactly *)

Lemma digits2_pos_size (p : positive) : digits2_pos p = Pos.size p.
Proof. induction p; simpl; congruence. Qed.

Lemma digits2_pos_log2 (p : positive) :
  Zpos (digits2_pos p) = Z.log2 (Zpos p) + 1.
Proof.
  rewrite digits2_pos_size. destruct p; simpl Z.log2; simpl Pos.size;
    rewrite ?Pos2Z.inj_succ; lia.
Qed.

Lemma iter_xO (d m : positive) : Zpos (Pos.iter xO m d) = Zpos m * 2 ^ Zpos d.
Proof.
  induction d as [|d IH] using Pos.peano_ind.
  - simpl. lia.
  - rewrite Pos.iter_succ, Pos2Z.inj_xO, IH, Pos2Z.inj_succ, Z.pow_succ_r by lia.
    ring.
Qed.

Lemma iter_pos_nat {A} (f : A -> A) (n : positive) :
  forall x, iter_pos f n x = Nat.iter (Pos.to_nat n) f x.
Proof.
  induction n as [n IH|n IH|]; intros x; simpl iter_pos.
  - rewrite !IH, Pos2Nat.inj_xI.
    replace (S (2 * Pos.to_nat n)) with (Pos.to_nat n + S (Pos.to_nat n))%nat
      by lia.
    rewrite Nat.iter_add, Nat.iter_succ_r. reflexivity.
  - rewrite !IH, Pos2Nat.inj_xO.
    replace (2 * Pos.to_nat n)%nat with (Pos.to_nat n + Pos.to_nat n)%nat by lia.
    rewrite Nat.iter_add. reflexivity.
  - reflexivity.
Qed.

Lemma shr_1_double (m : Z) :
  0 <= m ->
  shr_1 (Build_shr_record (2 * m) false false) = Build_shr_record m false false.
Proof. intros Hm. destruct m as [|p|p]; [reflexivity|reflexivity|lia]. Qed.

Lemma iter_shr_exact (k : nat) :
  forall m, 0 <= m ->
    Nat.iter k shr_1 (Build_shr_record (m * 2 ^ Z.of_nat k) false false)
    = Build_shr_record m false false.
Proof.
  induction k as [|k IH]; intros m Hm.
  - simpl. rewrite Z.mul_1_r. reflexivity.
  - rewrite Nat.iter_succ.
    replace (m * 2 ^ Z.of_nat (S k)) with ((2 * m) * 2 ^ Z.of_nat k)
      by (rewrite Nat2Z.inj_succ, Z.pow_succ_r by lia; ring).
    rewrite IH by lia. apply shr_1_double. exact Hm.
Qed.

Lemma fexp_normal (e : Z) : -1074 <= e -> fexp 53 1024 (53 + e) = e.
Proof. intros He. unfold fexp, emin. lia. Qed.

Lemma shr_fexp_canonical (m : positive) (e : Z) :
  Z.log2 (Zpos m) = 52 -> -1074 <= e ->
  shr_fexp 53 1024 (Zpos m) e loc_Exact
  = (Build_shr_record (Zpos m) false false, e).
Proof.
  intros Hm He. unfold shr_fexp, Zdigits2. rewrite digits2_pos_log2, Hm.
  change (52 + 1) with 53. rewrite fexp_normal by lia.
  rewrite Z.sub_diag. reflexivity.
Qed.

(** A mantissa of 53 bits with an exponent in range is left as it is. *)
Lemma binary_round_aux_canonical (s : bool) (m : positive) (e : Z) :
  Z.log2 (Zpos m) = 52 -> -1074 <= e <= 971 ->
  binary_round_aux 53 1024 s (Zpos m) e loc_Exact = S754_finite s m e.
Proof.
  intros Hm He. unfold binary_round_aux.
  rewrite shr_fexp_canonical by (assumption || lia).
  cbn [shr_m loc_of_shr_record round_nearest_even].
  rewrite shr_fexp_canonical by (assumption || lia).
  cbn [shr_m].
  destruct (Z.leb_spec e (1024 - 53)); [reflexivity|lia].
Qed.

(** A mantissa that is a 53-bit one followed by zeros is shifted exactly. *)
Lemma binary_round_aux_shift (s : bool) (M m : positive) (ez e : Z) :
  Z.log2 (Zpos m) = 52 -> -1074 <= e <= 971 -> ez <= e ->
  Zpos M = Zpos m * 2 ^ (e - ez) ->
  binary_round_aux 53 1024 s (Zpos M) ez loc_Exact = S754_finite s m e.
Proof.
  intros Hm He Hez HM.
  destruct (Z.eq_dec ez e) as [->|Hne].
  { rewrite Z.sub_diag, Z.mul_1_r in HM. inversion HM; subst.
    apply binary_round_aux_canonical; assumption. }
  unfold binary_round_aux.
  assert (Hshr : shr_fexp 53 1024 (Zpos M) ez loc_Exact
                 = (Build_shr_record (Zpos m) false false, e)).
  { unfold shr_fexp, Zdigits2. rewrite digits2_pos_log2, HM.
    rewrite Z.log2_mul_pow2, Hm by lia.
    replace (e - ez + 52 + 1 + ez) with (53 + e) by lia.
    rewrite fexp_normal by lia.
    unfold shr, shr_record_of_loc.
    destruct (e - ez) as [|p|p] eqn:Hd; try lia.
    rewrite iter_pos_nat. f_equal; [|lia].
    rewrite <- HM.
    replace (Zpos M) with (Zpos m * 2 ^ Z.of_nat (Pos.to_nat p))
      by (rewrite positive_nat_Z; lia).
    apply iter_shr_exact. lia. }
  rewrite Hshr. cbn [shr_m loc_of_shr_record round_nearest_even].
  rewrite shr_fexp_canonical by (assumption || lia).
  cbn [shr_m].
  destruct (Z.leb_spec e (1024 - 53)); [reflexivity|lia].
Qed.

Lemma shl_align_fst (m : positive) (e ez : Z) :
  ez <= e -> Zpos (fst (shl_align m e ez)) = Zpos m * 2 ^ (e - ez).
Proof.
  intros He. unfold shl_align.
  destruct (ez - e) as [|p|p] eqn:Hd; try lia.
  - replace (e - ez) with 0 by lia. simpl. lia.
  - simpl fst. rewrite iter_xO. f_equal. f_equal. lia.
Qed.

(** The number [m * 2^e], for a mantissa [M] and an exponent [ez] that
    denote it. *)
Lemma binary_round_exact (s : bool) (M m : positive) (ez e : Z) :
  Z.log2 (Zpos m) = 52 -> -1074 <= e <= 971 ->
  (e <= ez /\ Zpos M * 2 ^ (ez - e) = Zpos m)
  \/ (ez <= e /\ Zpos M = Zpos m * 2 ^ (e - ez)) ->
  binary_round 53 1024 s M ez = S754_finite s m e.
Proof.
  intros Hm He Hcase. unfold binary_round.
  assert (Hfexp : fexp 53 1024 (Zpos (digits2_pos M) + ez) = e).
  { rewrite digits2_pos_log2.
    destruct Hcase as [[Hle HM]|[Hle HM]].
    - assert (Z.log2 (Zpos M) + (ez - e) = 52).
      { rewrite <- Hm, <- HM, Z.log2_mul_pow2 by lia. lia. }
      replace (Z.log2 (Zpos M) + 1 + ez) with (53 + e) by lia.
      apply fexp_normal; lia.
    - rewrite HM, Z.log2_mul_pow2, Hm by lia.
      replace (e - ez + 52 + 1 + ez) with (53 + e) by lia.
      apply fexp_normal; lia. }
  rewrite Hfexp.
  destruct Hcase as [[Hle HM]|[Hle HM]].
  - pose proof (shl_align_fst M ez e Hle) as Hfst.
    destruct (shl_align M ez e) as [mz ez'] eqn:Halign.
    assert (ez' = e).
    { unfold shl_align in Halign.
      destruct (e - ez) as [|p|p] eqn:Hd; inversion Halign; lia. }
    subst ez'. cbn [fst] in Hfst. rewrite HM in Hfst. inversion Hfst; subst mz.
    apply binary_round_aux_canonical; assumption.
  - assert (Halign : shl_align M ez e = (M, ez)).
    { unfold shl_align. destruct (e - ez) as [|p|p] eqn:Hd; try reflexivity. lia. }
    rewrite Halign. apply binary_round_aux_shift with (e := e); assumption.
Qed.


Lemma log2_below (v : Z) : 0 < v < 2 ^ 53 -> 0 <= Z.log2 v <= 52.
Proof.
  intros Hv. split; [apply Z.log2_nonneg|].
  assert (Z.log2 v < 53) by (apply Z.log2_lt_pow2; lia). lia.
Qed.

Lemma canon_m_value (v : Z) :
  0 < v < 2 ^ 53 -> Zpos (canon_m v) = v * 2 ^ (52 - Z.log2 v).
Proof.
  intros Hv. unfold canon_m. pose proof (log2_below v Hv).
  rewrite Z2Pos.id; [reflexivity|].
  apply Z.mul_pos_pos; [lia|]. apply Z.pow_pos_nonneg; lia.
Qed.

Lemma canon_m_log2 (v : Z) : 0 < v < 2 ^ 53 -> Z.log2 (Zpos (canon_m v)) = 52.
Proof.
  intros Hv. pose proof (log2_below v Hv).
  rewrite canon_m_value, Z.log2_mul_pow2 by lia. lia.
Qed.

Lemma dyadic_finite (v s : Z) :
  0 < v < 2 ^ 53 -> -1074 <= canon_e v + s <= 971 ->
  dyadic v s = S754_finite false (canon_m v) (canon_e v + s).
Proof.
  intros Hv Hs. pose proof (log2_below v Hv).
  unfold dyadic, binary_normalize. destruct v as [|p|p]; try lia.
  apply binary_round_exact; [apply canon_m_log2; assumption|assumption|].
  left. unfold canon_e in *. split; [lia|].
  rewrite canon_m_value by assumption. f_equal. f_equal. lia.
Qed.

Lemma num_of_Z_finite (v : Z) :
  0 < v < 2 ^ 53 -> num_of_Z v = S754_finite false (canon_m v) (canon_e v).
Proof.
  intros Hv. pose proof (log2_below v Hv).
  replace (canon_e v) with (canon_e v + 0) by lia.
  apply (dyadic_finite v 0); unfold canon_e; lia.
Qed.

Lemma canon_scaled (v s ez : Z) :
  0 < v < 2 ^ 53 -> ez <= canon_e v + s ->
  Zpos (canon_m v) * 2 ^ (canon_e v + s - ez) = v * 2 ^ (s - ez).
Proof.
  intros Hv Hez. pose proof (log2_below v Hv). unfold canon_e in *.
  rewrite canon_m_value, <- Z.mul_assoc, <- Z.pow_add_r by lia.
  f_equal. f_equal. lia.
Qed.

Lemma canon_e_mono (a b : Z) : 0 < a -> a <= b -> canon_e a <= canon_e b.
Proof.
  intros Ha Hab. unfold canon_e.
  pose proof (Z.log2_le_mono a b Hab). lia.
Qed.

(** Sums that need no rounding. *)
Lemma dyadic_add (a b s : Z) :
  0 < a -> 0 < b -> a + b < 2 ^ 53 ->
  -1074 <= canon_e a + s -> -1074 <= canon_e b + s ->
  canon_e (a + b) + s <= 971 ->
  num_add (dyadic a s) (dyadic b s) = dyadic (a + b) s.
Proof.
  intros Ha Hb Hab Hea Heb Hes.
  pose proof (canon_e_mono a (a + b) Ha ltac:(lia)).
  pose proof (canon_e_mono b (a + b) Hb ltac:(lia)).
  pose proof (log2_below a ltac:(lia)).
  pose proof (log2_below b ltac:(lia)).
  rewrite !dyadic_finite by lia.
  unfold num_add, SFadd. cbn [cond_Zopp].
  set (ez := Z.min (canon_e a + s) (canon_e b + s)).
  rewrite !shl_align_fst by lia.
  rewrite !canon_scaled by lia.
  assert (Hez : ez <= s) by (unfold ez, canon_e in *; lia).
  assert (Hpow : 0 < 2 ^ (s - ez)) by (apply Z.pow_pos_nonneg; lia).
  destruct (a * 2 ^ (s - ez) + b * 2 ^ (s - ez)) as [|M|M] eqn:HM; try nia.
  unfold binary_normalize.
  apply binary_round_exact; [apply canon_m_log2; lia|lia|].
  right. split; [lia|]. rewrite canon_scaled by lia. lia.
Qed.

(** Differences that need no rounding. *)
Lemma dyadic_sub (a b s : Z) :
  0 < b -> b < a -> a < 2 ^ 53 ->
  -1074 <= canon_e (a - b) + s -> -1074 <= canon_e b + s ->
  canon_e a + s <= 971 ->
  num_sub (dyadic a s) (dyadic b s) = dyadic (a - b) s.
Proof.
  intros Hb Hba Ha Hed Heb Hea.
  pose proof (canon_e_mono (a - b) a ltac:(lia) ltac:(lia)).
  pose proof (canon_e_mono b a Hb ltac:(lia)).
  pose proof (log2_below a ltac:(lia)).
  pose proof (log2_below b ltac:(lia)).
  pose proof (log2_below (a - b) ltac:(lia)).
  rewrite (dyadic_finite a), (dyadic_finite b), (dyadic_finite (a - b))
    by lia.
  unfold num_sub, SFsub. cbn [cond_Zopp].
  set (ez := Z.min (canon_e a + s) (canon_e b + s)).
  rewrite !shl_align_fst by lia.
  rewrite !canon_scaled by lia.
  assert (Hez : ez <= s) by (unfold ez, canon_e in *; lia).
  assert (Hpow : 0 < 2 ^ (s - ez)) by (apply Z.pow_pos_nonneg; lia).
  destruct (a * 2 ^ (s - ez) - b * 2 ^ (s - ez)) as [|M|M] eqn:HM; try nia.
  unfold binary_normalize.
  apply binary_round_exact; [apply canon_m_log2; lia|lia|].
  destruct (Z.le_ge_cases ez (canon_e (a - b) + s)) as [Hle|Hge].
  - right. split; [lia|]. rewrite canon_scaled by lia. lia.
  - left. split; [lia|]. rewrite canon_m_value by lia.
    replace (Z.pos M) with ((a - b) * 2 ^ (s - ez)) by lia.
    rewrite <- Z.mul_assoc, <- Z.pow_add_r by (unfold canon_e in *; lia).
    f_equal. f_equal. unfold canon_e. lia.
Qed.

Lemma num_of_Z_dyadic (v : Z) : num_of_Z v = dyadic v 0.
Proof. reflexivity. Qed.

Lemma canon_e_range (v : Z) : 0 < v < 2 ^ 53 -> -52 <= canon_e v <= 0.
Proof. intros Hv. pose proof (log2_below v Hv). unfold canon_e. lia. Qed.

Lemma num_add_Z (a b : Z) :
  0 <= a -> 0 <= b -> a + b < 2 ^ 53 ->
  num_add (num_of_Z a) (num_of_Z b) = num_of_Z (a + b).
Proof.
  intros Ha Hb Hab.
  destruct (Z.eq_dec a 0) as [->|Ha0]; destruct (Z.eq_dec b 0) as [->|Hb0].
  - reflexivity.
  - rewrite Z.add_0_l, (num_of_Z_finite b) by lia. reflexivity.
  - rewrite Z.add_0_r, (num_of_Z_finite a) by lia. reflexivity.
  - rewrite !num_of_Z_dyadic.
    pose proof (canon_e_range a ltac:(lia)).
    pose proof (canon_e_range b ltac:(lia)).
    pose proof (canon_e_range (a + b) ltac:(lia)).
    apply dyadic_add; lia.
Qed.

Lemma num_sub_Z (a b : Z) :
  0 <= b -> b <= a -> a < 2 ^ 53 ->
  num_sub (num_of_Z a) (num_of_Z b) = num_of_Z (a - b).
Proof.
  intros Hb Hba Ha.
  destruct (Z.eq_dec b 0) as [->|Hb0].
  - rewrite Z.sub_0_r. destruct (Z.eq_dec a 0) as [->|Ha0]; [reflexivity|].
    rewrite (num_of_Z_finite a) by lia. reflexivity.
  - destruct (Z.eq_dec a b) as [->|Hne].
    + rewrite Z.sub_diag, (num_of_Z_finite b) by lia.
      unfold num_sub, SFsub. cbn [cond_Zopp].
      rewrite Z.sub_diag. reflexivity.
    + rewrite !num_of_Z_dyadic.
      pose proof (canon_e_range a ltac:(lia)).
      pose proof (canon_e_range b ltac:(lia)).
      pose proof (canon_e_range (a - b) ltac:(lia)).
      apply dyadic_sub; lia.
Qed.

Lemma num_compare_Z (a b : Z) :
  0 <= a < 2 ^ 53 -> 0 <= b < 2 ^ 53 ->
  SFcompare (num_of_Z a) (num_of_Z b) = Some (a ?= b).
Proof.
  intros Ha Hb.
  destruct (Z.eq_dec a 0) as [->|Ha0]; destruct (Z.eq_dec b 0) as [->|Hb0].
  - reflexivity.
  - rewrite (num_of_Z_finite b) by lia.
    change (num_of_Z 0) with (S754_zero false). unfold SFcompare.
    f_equal. symmetry. apply Z.compare_lt_iff. lia.
  - rewrite (num_of_Z_finite a) by lia.
    change (num_of_Z 0) with (S754_zero false). unfold SFcompare.
    f_equal. symmetry. apply Z.compare_gt_iff. lia.
  - rewrite !num_of_Z_finite by lia. unfold SFcompare.
    pose proof (log2_below a ltac:(lia)) as Hla.
    pose proof (log2_below b ltac:(lia)) as Hlb.
    pose proof (Z.log2_spec a ltac:(lia)) as Hsa.
    pose proof (Z.log2_spec b ltac:(lia)) as Hsb.
    unfold canon_e.
    destruct (Z.compare_spec (Z.log2 a - 52) (Z.log2 b - 52)) as [He|He|He].
    + rewrite Pos.compare_cont_spec. cbn [Pos.switch_Eq].
      change (Pos.compare (canon_m a) (canon_m b))
        with (Zpos (canon_m a) ?= Zpos (canon_m b)).
      rewrite !canon_m_value by lia.
      replace (Z.log2 b) with (Z.log2 a) by lia.
      assert (0 < 2 ^ (52 - Z.log2 a)) by (apply Z.pow_pos_nonneg; lia).
      f_equal.
      destruct (Z.compare_spec a b); destruct (Z.compare_spec
        (a * 2 ^ (52 - Z.log2 a)) (b * 2 ^ (52 - Z.log2 a)));
        try reflexivity; nia.
    + assert (2 ^ Z.succ (Z.log2 a) <= 2 ^ Z.log2 b)
        by (apply Z.pow_le_mono_r; lia).
      f_equal. symmetry. apply Z.compare_lt_iff. lia.
    + assert (2 ^ Z.succ (Z.log2 b) <= 2 ^ Z.log2 a)
        by (apply Z.pow_le_mono_r; lia).
      f_equal. symmetry. apply Z.compare_gt_iff. lia.
Qed.

Lemma num_ltb_Z (a b : Z) :
  0 <= a < 2 ^ 53 -> 0 <= b < 2 ^ 53 ->
  num_ltb (num_of_Z a) (num_of_Z b) = (a <? b).
Proof.
  intros Ha Hb. unfold num_ltb, SFltb. rewrite num_compare_Z by assumption.
  unfold Z.ltb. destruct (a ?= b); reflexivity.
Qed.

Lemma Math_min_Z (a b : Z) :
  0 <= a < 2 ^ 53 -> 0 <= b < 2 ^ 53 ->
  Math_min (num_of_Z a) (num_of_Z b) = num_of_Z (Z.min a b).
Proof.
  intros Ha Hb. unfold Math_min. rewrite num_compare_Z by assumption.
  unfold Z.min. destruct (Z.compare_spec a b) as [->|H|H]; try reflexivity.
  destruct (Z.eq_dec b 0) as [->|Hb0]; [reflexivity|].
  rewrite num_of_Z_finite by lia. reflexivity.
Qed.

Lemma num_trunc_Z (a : Z) : 0 <= a < 2 ^ 53 -> num_trunc (num_of_Z a) = a.
Proof.
  intros Ha. destruct (Z.eq_dec a 0) as [->|Ha0]; [reflexivity|].
  rewrite num_of_Z_finite by lia. unfold num_trunc. cbn [cond_Zopp].
  pose proof (log2_below a ltac:(lia)).
  rewrite canon_m_value by lia. unfold canon_e.
  rewrite Z.shiftl_div_pow2 by lia.
  replace (- (Z.log2 a - 52)) with (52 - Z.log2 a) by lia.
  apply Z.div_mul. apply Z.pow_nonzero; lia.
Qed.

Lemma num_integer_Z (a : Z) :
  0 <= a < 2 ^ 53 -> num_integer (num_of_Z a) = Some a.
Proof.
  intros Ha. destruct (Z.eq_dec a 0) as [->|Ha0]; [reflexivity|].
  rewrite num_of_Z_finite by lia. unfold num_integer. cbn [cond_Zopp].
  pose proof (log2_below a ltac:(lia)).
  rewrite canon_m_value by lia. unfold canon_e.
  destruct (Z.leb_spec 0 (Z.log2 a - 52)).
  - replace (Z.log2 a - 52) with 0 by lia.
    replace (52 - Z.log2 a) with 0 by lia. f_equal. lia.
  - replace (- (Z.log2 a - 52)) with (52 - Z.log2 a) by lia.
    rewrite Z.mod_mul by (apply Z.pow_nonzero; lia).
    rewrite Z.div_mul by (apply Z.pow_nonzero; lia). reflexivity.
Qed.

(* ------------------------------------------------------------------ *)
(** ** Numbers that are not positive *)

Lemma num_leb_zero (x : Num) :
  num_leb x (num_of_Z 0)
  = match x with
    | S754_zero _ => true
    | S754_finite s _ _ | S754_infinity s => s
    | S754_nan => false
    end.
Proof. destruct x as [s|s| |s m e]; try destruct s; reflexivity. Qed.

Lemma shr_1_nonneg (r : shr_record) : 0 <= shr_m r -> 0 <= shr_m (shr_1 r).
Proof. destruct r as [m r s]. destruct m as [|[p|p|]|[p|p|]]; simpl; lia. Qed.

Lemma iter_shr_nonneg (k : nat) (r : shr_record) :
  0 <= shr_m r -> 0 <= shr_m (Nat.iter k shr_1 r).
Proof.
  intros Hr. induction k as [|k IH]; simpl; [exact Hr|].
  apply shr_1_nonneg. exact IH.
Qed.

Lemma shr_fexp_nonneg (m e : Z) (l : location) :
  0 <= m -> 0 <= shr_m (fst (shr_fexp 53 1024 m e l)).
Proof.
  intros Hm. unfold shr_fexp, shr.
  assert (H0 : 0 <= shr_m (shr_record_of_loc m l))
    by (destruct l as [|[]]; exact Hm).
  destruct (fexp 53 1024 (Zdigits2 m + e) - e); cbn [fst]; try exact H0.
  rewrite iter_pos_nat. apply iter_shr_nonneg. exact H0.
Qed.

Lemma round_nearest_even_nonneg (m : Z) (l : location) :
  0 <= m -> 0 <= round_nearest_even m l.
Proof.
  intros Hm. destruct l as [|[]]; simpl; try destruct (Z.even m); lia.
Qed.

(** Rounding keeps the sign. *)
Lemma binary_round_aux_negative (m e : Z) (l : location) :
  0 <= m ->
  num_leb (binary_round_aux 53 1024 true m e l) (num_of_Z 0) = true.
Proof.
  intros Hm. rewrite num_leb_zero. unfold binary_round_aux.
  pose proof (shr_fexp_nonneg m e l Hm) as H1.
  destruct (shr_fexp 53 1024 m e l) as [mrs' e']. cbn [fst] in H1.
  pose proof (shr_fexp_nonneg _ e' loc_Exact
                (round_nearest_even_nonneg _ (loc_of_shr_record mrs') H1))
    as H2.
  destruct (shr_fexp 53 1024
              (round_nearest_even (shr_m mrs') (loc_of_shr_record mrs')) e'
              loc_Exact) as [mrs'' e''].
  cbn [fst] in H2.
  destruct (shr_m mrs'') as [|p|p];
    [reflexivity|destruct (e'' <=? 1024 - 53); reflexivity|lia].
Qed.

Lemma num_add_nonpos (x y : Num) :
  num_leb x (num_of_Z 0) = true -> num_leb y (num_of_Z 0) = true ->
  num_leb (num_add x y) (num_of_Z 0) = true.
Proof.
  rewrite (num_leb_zero x), (num_leb_zero y).
  destruct x as [[|]|[|]| |[|] mx ex]; destruct y as [[|]|[|]| |[|] my ey];
    intros Hx Hy; try discriminate Hx; try discriminate Hy; try reflexivity.
  unfold num_add, SFadd. cbn [cond_Zopp Z.opp Z.add].
  unfold binary_normalize, binary_round.
  destruct (shl_align _ _ _) as [mz ez].
  apply binary_round_aux_negative. lia.
Qed.

Lemma num_ltb_nonpos (x : Num) (n : Z) :
  num_leb x (num_of_Z 0) = true -> 0 < n < 2 ^ 53 ->
  num_ltb x (num_of_Z n) = true.
Proof.
  rewrite num_leb_zero. intros Hx Hn. rewrite num_of_Z_finite by exact Hn.
  destruct x as [[|]|[|]| |[|] m e]; try discriminate Hx; reflexivity.
Qed.

(* ------------------------------------------------------------------ *)
(** ** Steps of 2^-53 *)

Lemma crawl_step (k : Z) :
  0 < k -> k + 1 < 2 ^ 53 ->
  num_add (dyadic k (-53)) half_ulp_of_one = dyadic (k + 1) (-53).
Proof.
  intros Hk Hk1. unfold half_ulp_of_one.
  pose proof (canon_e_range k ltac:(lia)).
  pose proof (canon_e_range (k + 1) ltac:(lia)).
  apply dyadic_add; try lia; unfold canon_e; simpl; lia.
Qed.

(** At 1 the step is half the distance to the next number: the sum is
    rounded back to 1. *)
Lemma crawl_stuck : num_add (num_of_Z 1) half_ulp_of_one = num_of_Z 1.
Proof. vm_compute. reflexivity. Qed.

Lemma crawl_last :
  num_add (dyadic (2 ^ 53 - 1) (-53)) half_ulp_of_one = num_of_Z 1.
Proof. vm_compute. reflexivity. Qed.

Lemma crawl_below (k n : Z) :
  0 < k < 2 ^ 53 -> 2 <= n < 2 ^ 53 ->
  num_ltb (dyadic k (-53)) (num_of_Z n) = true.
Proof.
  intros Hk Hn.
  pose proof (canon_e_range k Hk). pose proof (canon_e_range n ltac:(lia)).
  rewrite dyadic_finite, num_of_Z_finite by lia.
  unfold num_ltb, SFltb, SFcompare.
  destruct (Z.compare_spec (canon_e k + -53) (canon_e n));
    [lia|reflexivity|lia].
Qed.

(* ================================================================== *)
(** * [upload_work_item_attachment] *)

Section ChunkRequest.

Context {host : Host}.

Lemma slice_index_Z (len a : Z) :
  0 <= a < 2 ^ 53 -> slice_index len (num_of_Z a) = clamp_index len a.
Proof.
  intros Ha. destruct (Z.eq_dec a 0) as [->|Ha0]; [reflexivity|].
  rewrite <- (num_trunc_Z a Ha) at 2.
  rewrite num_of_Z_finite by lia. reflexivity.
Qed.

Lemma Number_toString_Z (a : Z) :
  0 <= a < 2 ^ 53 -> Number_toString (num_of_Z a) = dec a.
Proof.
  intros Ha.
  assert (Hint : match num_integer (num_of_Z a) with
                 | Some v => if Z.abs v <? 2 ^ 53 then dec v
                             else number_text (num_of_Z a)
                 | None => number_text (num_of_Z a)
                 end = dec a).
  { rewrite num_integer_Z by exact Ha.
    destruct (Z.ltb_spec (Z.abs a) (2 ^ 53)); [reflexivity|lia]. }
  destruct (Z.eq_dec a 0) as [->|Ha0]; [exact Hint|].
  rewrite num_of_Z_finite in * by lia. exact Hint.
Qed.

End ChunkRequest.

Section Upload.

Context {host : Host}.
Variable remote : Remote.
Variable API_VERSION : jstring.

Variable chunkUploadUrl : jstring.
Variable fileBuffer : Buffer.

(** The chunk size is the Number of the integer [chunkSize]. *)
Variable chunkSize : Z.

Let fileSize := Z.of_nat (List.length fileBuffer).

Hypothesis chunkSize_positive : 0 < chunkSize.
Hypothesis sizes_safe : fileSize + chunkSize < 2 ^ 53.

Lemma chunk_count_bound (k : nat) :
  (k <= chunk_count fileSize chunkSize)%nat ->
  0 <= Z.of_nat k * chunkSize < fileSize + chunkSize.
Proof.
  intros Hk. split; [nia|].
  destruct k as [|k]; [unfold fileSize; lia|].
  assert (Hlt : (k < chunk_count fileSize chunkSize)%nat) by lia.
  apply chunk_count_spec in Hlt; [|exact chunkSize_positive]. lia.
Qed.

(** The request of an iteration is the request for its range. *)
Lemma chunk_request_range (k : nat) :
  (k < chunk_count fileSize chunkSize)%nat ->
  chunk_request chunkUploadUrl fileBuffer (num_of_Z chunkSize)
    (num_of_Z (Z.of_nat k * chunkSize))
  = range_request chunkUploadUrl fileBuffer (chunk_range fileSize chunkSize k).
Proof.
  intros Hk. apply chunk_count_spec in Hk; [|exact chunkSize_positive].
  assert (H0 : 0 <= Z.of_nat k * chunkSize) by nia.
  assert (Hsize : 0 < fileSize) by lia.
  unfold chunk_request, range_request, contentRange. fold fileSize.
  rewrite num_add_Z by lia.
  rewrite Math_min_Z by lia.
  rewrite num_sub_Z by lia.
  rewrite num_add_Z by lia.
  rewrite !Number_toString_Z by lia.
  assert (Hslice :
    buffer_slice fileBuffer (num_of_Z (Z.of_nat k * chunkSize))
      (num_of_Z (Z.min (Z.of_nat k * chunkSize + chunkSize) fileSize - 1 + 1))
    = bytes_between fileBuffer (chunk_range fileSize chunkSize k)).
  { unfold buffer_slice. rewrite !slice_index_Z by lia.
    unfold bytes_between, clamp_index, chunk_range. fold fileSize.
    simpl fst; simpl snd.
    destruct (Z.ltb_spec (Z.of_nat k * chunkSize) 0); [lia|].
    destruct (Z.ltb_spec
                (Z.min (Z.of_nat k * chunkSize + chunkSize) fileSize - 1 + 1) 0);
      [lia|].
    f_equal; [|f_equal]; lia. }
  rewrite Hslice.
  unfold chunk_range; simpl fst; simpl snd.
  replace ((Z.of_nat k + 1) * chunkSize)
    with (Z.of_nat k * chunkSize + chunkSize) by lia.
  reflexivity.
Qed.

Local Abbreviation rest_from := (ranges_from fileSize chunkSize).

Lemma ranges_from_zero : rest_from 0 = chunk_ranges fileSize chunkSize.
Proof.
  unfold ranges_from, chunk_ranges.
  rewrite Nat.sub_0_r. reflexivity.
Qed.

Lemma ranges_from_step (k : nat) :
  (k < chunk_count fileSize chunkSize)%nat ->
  rest_from k = chunk_range fileSize chunkSize k :: rest_from (S k).
Proof.
  intros Hk. unfold ranges_from.
  replace (chunk_count fileSize chunkSize - k)%nat
    with (S (chunk_count fileSize chunkSize - S k)) by lia.
  reflexivity.
Qed.

Lemma ranges_from_end (k : nat) :
  (chunk_count fileSize chunkSize <= k)%nat -> rest_from k = [].
Proof.
  intros Hk. unfold ranges_from.
  replace (chunk_count fileSize chunkSize - k)%nat with 0%nat by lia.
  reflexivity.
Qed.

(** The test of the loop at the start of range [k]. *)
Lemma loop_test (k : nat) :
  (k <= chunk_count fileSize chunkSize)%nat ->
  num_ltb (num_of_Z (Z.of_nat k * chunkSize))
    (num_of_Z (Z.of_nat (List.length fileBuffer)))
  = (k <? chunk_count fileSize chunkSize)%nat.
Proof.
  intros Hk. pose proof (chunk_count_bound k Hk) as Hbound.
  fold fileSize. rewrite num_ltb_Z by (unfold fileSize in *; lia).
  destruct (Z.ltb_spec (Z.of_nat k * chunkSize) fileSize) as [Hin|Hout];
    destruct (Nat.ltb_spec k (chunk_count fileSize chunkSize)) as [Hlt|Hge];
    try reflexivity.
  - apply chunk_count_spec in Hin; [lia|exact chunkSize_positive].
  - apply chunk_count_spec in Hlt; [lia|exact chunkSize_positive].
Qed.

Lemma loop_step (k : nat) :
  (k < chunk_count fileSize chunkSize)%nat ->
  num_add (num_of_Z (Z.of_nat k * chunkSize)) (num_of_Z chunkSize)
  = num_of_Z (Z.of_nat (S k) * chunkSize).
Proof.
  intros Hk. pose proof (chunk_count_bound (S k) Hk).
  rewrite num_add_Z by nia. f_equal. lia.
Qed.

(** With as much fuel as there are ranges left the loop ends, by its test
    or by a rejected request. *)
Lemma upload_chunks_ends (fuel : nat) :
  forall (k : nat) (w : World),
    (k <= chunk_count fileSize chunkSize)%nat ->
    (chunk_count fileSize chunkSize - k <= fuel)%nat ->
    fst (upload_chunks remote fuel chunkUploadUrl fileBuffer
           (num_of_Z chunkSize) (num_of_Z (Z.of_nat k * chunkSize)) w)
    <> OutOfFuel.
Proof.
  induction fuel as [|fuel IH]; intros k w Hk Hfuel; simpl;
    rewrite loop_test by exact Hk;
    destruct (Nat.ltb_spec k (chunk_count fileSize chunkSize)) as [Hlt|Hge];
    try (simpl; discriminate); try lia.
  unfold bind. rewrite send_outcome.
  destruct (remote (sent w) _) as [data|message]; [|simpl; discriminate].
  rewrite loop_step by exact Hlt.
  apply IH; lia.
Qed.

(** However the loop ends, it has sent the requests of the first ranges
    that were left, in order, and all of them when it ran to its end. *)
Lemma upload_chunks_prefix (fuel : nat) :
  forall (k : nat) (w : World),
    (k <= chunk_count fileSize chunkSize)%nat ->
    exists j,
      snd (upload_chunks remote fuel chunkUploadUrl fileBuffer
             (num_of_Z chunkSize) (num_of_Z (Z.of_nat k * chunkSize)) w)
      = sending w
          (map (range_request chunkUploadUrl fileBuffer)
             (firstn j (rest_from k)))
      /\ (fst (upload_chunks remote fuel chunkUploadUrl fileBuffer
                 (num_of_Z chunkSize) (num_of_Z (Z.of_nat k * chunkSize)) w)
          = Ret tt ->
          firstn j (rest_from k) = rest_from k).
Proof.
  induction fuel as [|fuel IH]; intros k w Hk; simpl;
    rewrite loop_test by exact Hk;
    destruct (Nat.ltb_spec k (chunk_count fileSize chunkSize)) as [Hlt|Hge].
  - exists 0%nat. simpl. rewrite sending_nil.
    split; [reflexivity|discriminate].
  - exists 0%nat. simpl. rewrite sending_nil. split; [reflexivity|].
    intros _. symmetry. apply ranges_from_end. exact Hge.
  - unfold bind. rewrite send_outcome.
    rewrite chunk_request_range by exact Hlt.
    rewrite (ranges_from_step k Hlt).
    destruct (remote (sent w) _) as [data|message].
    + rewrite loop_step by exact Hlt.
      destruct (IH (S k) (sending w
                  [range_request chunkUploadUrl fileBuffer
                     (chunk_range fileSize chunkSize k)]) Hlt)
        as (j & Hsnd & Hret).
      exists (S j). rewrite Hsnd, sending_sending. simpl.
      split; [reflexivity|].
      intros Hfst. rewrite Hret by exact Hfst. reflexivity.
    + exists 1%nat. simpl. split; [reflexivity|discriminate].
  - exists 0%nat. simpl. rewrite sending_nil. split; [reflexivity|].
    intros _. symmetry. apply ranges_from_end. exact Hge.
Qed.

(** When every request is accepted the loop needs exactly one unit of fuel
    for each range. *)
Lemma upload_chunks_accepted (Hacc : accepting remote) (fuel : nat) :
  forall (k : nat) (w : World),
    (k <= chunk_count fileSize chunkSize)%nat ->
    upload_chunks remote fuel chunkUploadUrl fileBuffer (num_of_Z chunkSize)
      (num_of_Z (Z.of_nat k * chunkSize)) w
    = if (chunk_count fileSize chunkSize - k <=? fuel)%nat then
        (Ret tt, sending w (map (range_request chunkUploadUrl fileBuffer)
                              (rest_from k)))
      else
        (OutOfFuel,
         sending w (map (range_request chunkUploadUrl fileBuffer)
                      (firstn fuel (rest_from k)))).
Proof.
  induction fuel as [|fuel IH]; intros k w Hk; simpl;
    rewrite loop_test by exact Hk;
    destruct (Nat.ltb_spec k (chunk_count fileSize chunkSize)) as [Hlt|Hge].
  - destruct (Nat.leb_spec (chunk_count fileSize chunkSize - k) 0); [lia|].
    simpl. rewrite sending_nil. reflexivity.
  - rewrite ranges_from_end by exact Hge.
    destruct (Nat.leb_spec (chunk_count fileSize chunkSize - k) 0); [|lia].
    rewrite sending_nil. reflexivity.
  - unfold bind. rewrite send_outcome.
    destruct (Hacc (sent w)
                (chunk_request chunkUploadUrl fileBuffer (num_of_Z chunkSize)
                   (num_of_Z (Z.of_nat k * chunkSize)))) as (data & -> & _).
    rewrite loop_step by exact Hlt.
    rewrite IH by exact Hlt.
    rewrite !sending_sending, (ranges_from_step k Hlt).
    rewrite chunk_request_range by exact Hlt. simpl.
    destruct (Nat.leb_spec (chunk_count fileSize chunkSize - S k) fuel);
      destruct (Nat.leb_spec (chunk_count fileSize chunkSize - k) (S fuel));
      try lia; reflexivity.
  - rewrite ranges_from_end by exact Hge.
    destruct (Nat.leb_spec (chunk_count fileSize chunkSize - k) (S fuel));
      [|lia].
    rewrite sending_nil. reflexivity.
Qed.

End Upload.

Section UploadDiverges.

Context {host : Host}.
Variable remote : Remote.
Variable chunkUploadUrl : jstring.
Variable fileBuffer : Buffer.

Let fileSize := Z.of_nat (List.length fileBuffer).

Hypothesis accepted : accepting remote.
Hypothesis size_safe : fileSize < 2 ^ 53.

(** With a chunk size that is zero or less the start never passes the end
    of a buffer that is not empty: as long as the requests are accepted,
    no amount of fuel ends the loop. *)
Lemma upload_chunks_diverges (chunkSize : Num) (fuel : nat) :
  num_leb chunkSize (num_of_Z 0) = true ->
  0 < fileSize ->
  forall (start : Num) (w : World),
    num_leb start (num_of_Z 0) = true ->
    fst (upload_chunks remote fuel chunkUploadUrl fileBuffer chunkSize start w)
    = OutOfFuel.
Proof.
  intros Hcs Hsize.
  induction fuel as [|fuel IH]; intros start w Hstart; simpl;
    fold fileSize; rewrite (num_ltb_nonpos start fileSize Hstart) by lia;
    [reflexivity|].
  unfold bind. rewrite send_outcome.
  destruct (accepted (sent w)
              (chunk_request chunkUploadUrl fileBuffer chunkSize start))
    as (data & -> & _).
  apply IH. apply num_add_nonpos; assumption.
Qed.

(** A positive chunk size is not enough.  In steps of 2^-53 the start
    reaches 1 and stays there, each sum being rounded back to 1. *)
Lemma upload_chunks_crawls (fuel : nat) :
  2 <= fileSize ->
  forall (start : Num) (w : World),
    start = num_of_Z 0
    \/ (exists k, 0 < k < 2 ^ 53 /\ start = dyadic k (-53))
    \/ start = num_of_Z 1 ->
    fst (upload_chunks remote fuel chunkUploadUrl fileBuffer half_ulp_of_one
           start w)
    = OutOfFuel.
Proof.
  intros Hsize.
  induction fuel as [|fuel IH]; intros start w Hstart; simpl; fold fileSize.
  - assert (Htest : num_ltb start (num_of_Z fileSize) = true).
    { destruct Hstart as [->|[(k & Hk & ->)| ->]].
      - rewrite num_ltb_Z by lia. apply Z.ltb_lt. lia.
      - apply crawl_below; lia.
      - rewrite num_ltb_Z by lia. apply Z.ltb_lt. lia. }
    rewrite Htest. reflexivity.
  - assert (Htest : num_ltb start (num_of_Z fileSize) = true).
    { destruct Hstart as [->|[(k & Hk & ->)| ->]].
      - rewrite num_ltb_Z by lia. apply Z.ltb_lt. lia.
      - apply crawl_below; lia.
      - rewrite num_ltb_Z by lia. apply Z.ltb_lt. lia. }
    rewrite Htest.
    unfold bind. rewrite send_outcome.
    destruct (accepted (sent w)
                (chunk_request chunkUploadUrl fileBuffer half_ulp_of_one start))
      as (data & -> & _).
    apply IH.
    destruct Hstart as [->|[(k & Hk & ->)| ->]].
    + right; left. exists 1. split; [lia|]. reflexivity.
    + destruct (Z.eq_dec (k + 1) (2 ^ 53)) as [Hlast|Hmore].
      * right; right. replace k with (2 ^ 53 - 1) by lia. apply crawl_last.
      * right; left. exists (k + 1). split; [lia|]. apply crawl_step; lia.
    + right; right. apply crawl_stuck.
Qed.

End UploadDiverges.

Section UploadHandler.

Context {host : Host}.
Variable remote : Remote.
Variable API_VERSION : jstring.

Lemma CallToolRequest_ret_inv {A} (name : jstring) (handler : JsValue -> M A)
    (w w' : World) (a : A) :
  ready w ->
  CallToolRequest remote API_VERSION name handler w = (Ret a, w') ->
  handler (projectName w) w = (Ret a, w').
Proof.
  intros Hready. rewrite CallToolRequest_ready by exact Hready.
  destruct (handler (projectName w) w) as [[x|e|] w1]; intros H;
    try discriminate H; exact H.
Qed.

(** The handler once its arguments have passed the checks and the text has
    been decoded. *)
Lemma upload_after_validation (fuel : nat) (args : UploadArgs)
    (content : jstring) (current : JsValue) (w : World) :
  is_number (upload_workItemId args) = true ->
  truthy (upload_fileName args) = true ->
  upload_fileContentBase64 args = JStr content ->
  nonempty content = true ->
  upload_work_item_attachment remote API_VERSION fuel args current w
  = bind
      (if num_leb (num_of_Z (Z.of_nat (List.length (base64_decode content))))
            (chunkThreshold_of args)
       then standard_upload remote API_VERSION (upload_target args current)
              (upload_fileName args) (base64_decode content)
       else chunked_upload remote API_VERSION fuel (upload_target args current)
              (upload_fileName args) (base64_decode content)
              (chunkSize_of args))
      (fun attachment =>
         bind (send remote
                 (link_request API_VERSION (upload_workItemId args)
                    (snd attachment) (upload_comment_text args)))
           (fun _ =>
              ret (JSON_stringify
                     (JObj [(js "id", fst attachment);
                            (js "url", snd attachment)]))))
      w.
Proof.
  intros Hid Hname Hcontent Htext.
  unfold upload_work_item_attachment.
  rewrite Hid, Hname, Hcontent.
  change (truthy (JStr content)) with (nonempty content). rewrite Htext.
  reflexivity.
Qed.

Lemma CallToolRequest_ready_world {A} (name : jstring)
    (handler : JsValue -> M A) (w : World) :
  ready w ->
  snd (CallToolRequest remote API_VERSION name handler w)
  = snd (handler (projectName w) w).
Proof.
  intros Hready. rewrite CallToolRequest_ready by exact Hready.
  destruct (handler (projectName w) w) as [[x|e|] w1]; reflexivity.
Qed.

(** C1 (as amended).  Let the decoded buffer be longer than the threshold
    and the chunk size a positive integer (the sizes being below 2^53, as
    the lengths of buffers are), and take the partition of [0, fileSize)
    into pieces of [chunkSize] bytes.  Whatever the service answers, the
    requests sent are the initiate request, then the requests of the first
    ranges of the partition in ascending order, and the link request only
    after all of them.  When the service accepts every request, a call
    with fuel for each range returns, and it has sent the initiate request,
    one request for each range, and the link request.  The ranges follow
    one another from 0 to fileSize without gap or overlap, so every index
    lies in exactly one; none is longer than [chunkSize]; the last one ends
    at [fileSize - 1]; the bodies put end to end are the buffer; each
    request carries the header [bytes <first>-<last>/<fileSize>] (see
    [range_request]). *)
Theorem chunked_upload_partitions (fuel : nat) (args : UploadArgs)
    (content : jstring) (chunkSize : Z) (w : World) :
  ready w ->
  is_number (upload_workItemId args) = true ->
  truthy (upload_fileName args) = true ->
  upload_fileContentBase64 args = JStr content ->
  nonempty content = true ->
  let fileBuffer := base64_decode content in
  let fileSize := Z.of_nat (List.length fileBuffer) in
  let target := upload_target args (projectName w) in
  num_leb (num_of_Z fileSize) (chunkThreshold_of args) = false ->
  chunkSize_of args = num_of_Z chunkSize ->
  0 < chunkSize ->
  fileSize + chunkSize < 2 ^ 53 ->
  let run := call_upload_work_item_attachment remote API_VERSION fuel args w in
  let ranges := chunk_ranges fileSize chunkSize in
  let requests attachmentId sent_ranges tail :=
    [init_request API_VERSION target (upload_fileName args)]
    ++ map (range_request (chunk_url API_VERSION target attachmentId)
              fileBuffer) sent_ranges
    ++ tail in
  let link attachmentId :=
    link_request API_VERSION (upload_workItemId args)
      (chunked_attachment_url target attachmentId (upload_fileName args))
      (upload_comment_text args) in
  (exists attachmentId j tail,
     sent (snd run) = sent w ++ requests attachmentId (firstn j ranges) tail
     /\ (tail = []
         \/ (firstn j ranges = ranges /\ tail = [link attachmentId])))
  /\ (accepting remote ->
      (chunk_count fileSize chunkSize <= fuel)%nat ->
      exists text attachmentId,
        run = (Ret text,
               sending w (requests attachmentId ranges [link attachmentId])))
  /\ tiles 0 ranges fileSize
  /\ (forall i, 0 <= i < fileSize ->
        exists r, In r ranges /\ fst r <= i <= snd r
                  /\ forall r', In r' ranges -> fst r' <= i <= snd r' -> r' = r)
  /\ Forall (fun r => snd r - fst r + 1 <= chunkSize) ranges
  /\ (0 < fileSize ->
        exists front first, ranges = front ++ [(first, fileSize - 1)])
  /\ List.concat (map (bytes_between fileBuffer) ranges) = fileBuffer.
Proof.
  intros Hready Hid Hname Hcontent Htext fileBuffer fileSize target Hbig Hsize
    Hcs Hsafe run ranges requests link.
  assert (Htiles : tiles 0 ranges fileSize)
    by (apply chunk_ranges_tile; [exact Hcs|unfold fileSize; lia]).
  split; [|split; [|split; [exact Htiles|split; [|split; [|split]]]]].
  - unfold run, requests, link, call_upload_work_item_attachment.
    rewrite CallToolRequest_ready_world by exact Hready.
    rewrite (upload_after_validation fuel args content) by assumption.
    fold fileBuffer fileSize target. rewrite Hbig, Hsize.
    unfold bind at 1. unfold chunked_upload. unfold bind at 1.
    rewrite send_outcome.
    destruct (remote (sent w) _) as [data|message];
      [|exists JUndefined, 0%nat, []; simpl;
        split; [reflexivity|left; reflexivity]].
    unfold bind at 1. unfold get.
    destruct (prop data (js "id")) as [attachmentId|];
      [|exists JUndefined, 0%nat, []; simpl;
        split; [reflexivity|left; reflexivity]].
    unfold ret at 1. unfold bind at 1.
    destruct (upload_chunks_prefix remote
                (chunk_url API_VERSION target attachmentId) fileBuffer
                chunkSize Hcs Hsafe fuel 0%nat
                (sending w [init_request API_VERSION target
                              (upload_fileName args)]) (Nat.le_0_l _))
      as (j & Hsnd & Hret).
    change (num_of_Z (Z.of_nat 0 * chunkSize)) with (num_of_Z 0)
      in Hsnd, Hret.
    rewrite (ranges_from_zero fileBuffer chunkSize) in Hsnd, Hret.
    fold fileSize ranges in Hsnd, Hret.
    destruct (upload_chunks remote fuel _ fileBuffer (num_of_Z chunkSize)
                (num_of_Z 0) _) as [[[]|e|] w1]; cbn [fst snd] in Hsnd, Hret;
      subst w1.
    + unfold ret at 1. cbv beta iota. cbn [snd fst].
      unfold bind. rewrite send_outcome, !sending_sending.
      exists attachmentId, j,
        [link_request API_VERSION (upload_workItemId args)
           (chunked_attachment_url target attachmentId (upload_fileName args))
           (upload_comment_text args)].
      split.
      * destruct (remote _ _); reflexivity.
      * right. split; [apply Hret; reflexivity|reflexivity].
    + exists attachmentId, j, []. split; [|left; reflexivity].
      simpl. rewrite app_nil_r, <- app_assoc. reflexivity.
    + exists attachmentId, j, []. split; [|left; reflexivity].
      simpl. rewrite app_nil_r, <- app_assoc. reflexivity.
  - intros Hacc Hfuel.
    destruct (Hacc (sent w)
                (init_request API_VERSION target (upload_fileName args)))
      as (data & Hinit & Hdata).
    set (attachmentId := optional data (js "id")).
    set (attachmentUrl :=
           chunked_attachment_url target attachmentId (upload_fileName args)).
    exists (JSON_stringify
              (JObj [(js "id", attachmentId); (js "url", attachmentUrl)])),
      attachmentId.
    unfold run, requests, link, call_upload_work_item_attachment.
    rewrite CallToolRequest_ready by exact Hready.
    rewrite (upload_after_validation fuel args content) by assumption.
    fold fileBuffer fileSize target. rewrite Hbig, Hsize.
    unfold bind at 1. unfold chunked_upload. unfold bind at 1.
    rewrite send_outcome, Hinit. cbv iota.
    unfold bind at 1. rewrite get_optional by exact Hdata.
    unfold ret at 1. cbv iota. fold attachmentId.
    unfold bind at 1.
    change (num_of_Z 0) with (num_of_Z (Z.of_nat 0 * chunkSize)).
    rewrite (upload_chunks_accepted remote _ fileBuffer chunkSize Hcs Hsafe
               Hacc fuel 0%nat _ (Nat.le_0_l _)).
    rewrite Nat.sub_0_r.
    destruct (Nat.leb_spec (chunk_count (Z.of_nat (List.length fileBuffer))
                              chunkSize) fuel) as [_|Hlt];
      [|unfold fileSize in Hfuel; lia].
    rewrite ranges_from_zero. fold fileSize ranges.
    unfold ret at 1. cbv iota. cbn [fst snd]. fold attachmentUrl.
    unfold bind. rewrite send_outcome, !sending_sending.
    destruct (Hacc (sent (sending w
                 ([init_request API_VERSION target (upload_fileName args)]
                  ++ map (range_request
                            (chunk_url API_VERSION target attachmentId)
                            fileBuffer) ranges)))
                (link_request API_VERSION (upload_workItemId args)
                   attachmentUrl (upload_comment_text args)))
      as (reply & -> & _).
    unfold ret. rewrite <- app_assoc. reflexivity.
  - intros i Hi. exact (tiles_cover_once _ _ _ Htiles i Hi).
  - apply chunk_ranges_length.
  - intros Hpos. apply chunk_ranges_last; assumption.
  - apply chunk_ranges_concat. exact Hcs.
Qed.

Lemma content_type_is_not_range : js "Content-Type" <> js "Content-Range".
Proof. vm_compute. discriminate. Qed.

(** C2.  Let the decoded buffer be no longer than the threshold (and the
    arguments pass the checks).  The call sends the upload request, whose
    body is the whole buffer, and after it at most the link request: no
    request sent is the initiate request and none carries a [Content-Range]
    header. *)
Theorem small_upload_single_request (fuel : nat) (args : UploadArgs)
    (content : jstring) (w : World) :
  ready w ->
  is_number (upload_workItemId args) = true ->
  truthy (upload_fileName args) = true ->
  upload_fileContentBase64 args = JStr content ->
  nonempty content = true ->
  let fileBuffer := base64_decode content in
  let target := upload_target args (projectName w) in
  num_leb (num_of_Z (Z.of_nat (List.length fileBuffer)))
    (chunkThreshold_of args) = true ->
  let upload :=
    upload_request API_VERSION target (upload_fileName args) fileBuffer in
  method upload = POST
  /\ body upload = Octets fileBuffer
  /\ exists requests,
       sent (snd (call_upload_work_item_attachment remote API_VERSION fuel
                    args w))
       = sent w ++ requests
       /\ (requests = [upload]
           \/ exists attachmentUrl,
                requests
                = [upload;
                   link_request API_VERSION (upload_workItemId args)
                     attachmentUrl (upload_comment_text args)])
       /\ Forall (fun r =>
                    r <> init_request API_VERSION target (upload_fileName args)
                    /\ ~ In (js "Content-Range") (map fst (headers r)))
            requests.
Proof.
  intros Hready Hid Hname Hcontent Htext fileBuffer target Hsmall upload.
  split; [reflexivity|]. split; [reflexivity|].
  unfold call_upload_work_item_attachment.
  rewrite CallToolRequest_ready_world by exact Hready.
  rewrite (upload_after_validation fuel args content) by assumption.
  fold fileBuffer target.
  rewrite Hsmall.
  assert (Hupload_ok :
    upload <> init_request API_VERSION target (upload_fileName args)
    /\ ~ In (js "Content-Range") (map fst (headers upload))).
  { split; [discriminate|]. simpl. intros [E|[]].
    exact (content_type_is_not_range E). }
  assert (Hlink_ok : forall url,
    link_request API_VERSION (upload_workItemId args) url
      (upload_comment_text args)
    <> init_request API_VERSION target (upload_fileName args)
    /\ ~ In (js "Content-Range")
           (map fst (headers (link_request API_VERSION (upload_workItemId args)
                                url (upload_comment_text args))))).
  { intros url. split; [discriminate|]. simpl. intros [E|[]].
    exact (content_type_is_not_range E). }
  unfold bind at 1. unfold standard_upload. unfold bind at 1.
  rewrite send_outcome. fold upload.
  destruct (remote (sent w) upload) as [data|message].
  - unfold bind at 1. unfold get at 1.
    destruct (prop data (js "url")) as [attachmentUrl|];
      [|exists [upload]; simpl; rewrite app_nil_r || idtac;
        split; [reflexivity|split; [left; reflexivity|]];
        constructor; [exact Hupload_ok|constructor]].
    unfold ret at 1. unfold bind at 1. unfold get at 1.
    destruct (prop data (js "id")) as [attachmentId|];
      [|exists [upload]; simpl;
        split; [reflexivity|split; [left; reflexivity|]];
        constructor; [exact Hupload_ok|constructor]].
    unfold ret at 1. unfold ret at 1. simpl snd at 2.
    unfold bind. rewrite send_outcome, sending_sending.
    exists [upload;
            link_request API_VERSION (upload_workItemId args) attachmentUrl
              (upload_comment_text args)].
    split.
    { destruct (remote _ _); reflexivity. }
    split; [right; exists attachmentUrl; reflexivity|].
    constructor; [exact Hupload_ok|].
    constructor; [apply Hlink_ok|constructor].
  - exists [upload]. simpl.
    split; [reflexivity|split; [left; reflexivity|]].
    constructor; [exact Hupload_ok|constructor].
Qed.

(* ------------------------------------------------------------------ *)
(** ** Termination of the chunk loop *)

Lemma CallToolRequest_out_of_fuel {A} (name : jstring)
    (handler : JsValue -> M A) (w : World) :
  ready w ->
  fst (CallToolRequest remote API_VERSION name handler w) = OutOfFuel
  <-> fst (handler (projectName w) w) = OutOfFuel.
Proof.
  intros Hready. rewrite CallToolRequest_ready by exact Hready.
  destruct (handler (projectName w) w) as [[x|e|] w1]; simpl;
    split; intros H; try discriminate H; reflexivity.
Qed.

Lemma bind_out_of_fuel {A B} (m : M A) (k : A -> M B) (w : World) :
  (forall a w1, fst (k a w1) <> OutOfFuel) ->
  fst (bind m k w) = OutOfFuel <-> fst (m w) = OutOfFuel.
Proof.
  intros Hk. unfold bind.
  destruct (m w) as [[a|e|] w1]; simpl; split; intros H;
    try discriminate H; try reflexivity.
  exfalso. exact (Hk a w1 H).
Qed.

Lemma link_never_out_of_fuel (workItemId comment : JsValue)
    (attachment : JsValue * JsValue) (w : World) :
  fst (bind (send remote
               (link_request API_VERSION workItemId (snd attachment) comment))
         (fun _ =>
            ret (JSON_stringify
                   (JObj [(js "id", fst attachment);
                          (js "url", snd attachment)]))) w)
  <> OutOfFuel.
Proof.
  unfold bind. rewrite send_outcome.
  destruct (remote (sent w) _); simpl; discriminate.
Qed.

(** The chunked branch runs out of fuel exactly when its loop does. *)
Lemma chunked_upload_out_of_fuel (fuel : nat) (target fileName : JsValue)
    (fileBuffer : Buffer) (chunkSize : Num) (w : World) :
  fst (chunked_upload remote API_VERSION fuel target fileName fileBuffer
         chunkSize w) = OutOfFuel
  <-> exists data attachmentId,
        remote (sent w) (init_request API_VERSION target fileName)
        = Replied data
        /\ prop data (js "id") = Some attachmentId
        /\ fst (upload_chunks remote fuel
                  (chunk_url API_VERSION target attachmentId) fileBuffer
                  chunkSize (num_of_Z 0)
                  (sending w [init_request API_VERSION target fileName]))
           = OutOfFuel.
Proof.
  unfold chunked_upload. unfold bind at 1. rewrite send_outcome.
  destruct (remote (sent w) (init_request API_VERSION target fileName))
    as [data|message].
  - unfold bind at 1. unfold get.
    destruct (prop data (js "id")) as [attachmentId|] eqn:Hprop.
    + unfold ret at 1.
      rewrite bind_out_of_fuel by (intros; simpl; discriminate).
      split.
      * intros H. exists data, attachmentId. auto.
      * intros (data' & id' & Hd & Hid & H).
        inversion Hd; subst data'. rewrite Hprop in Hid.
        inversion Hid; subst id'. exact H.
    + simpl. split; [discriminate|].
      intros (data' & id' & Hd & Hid & _). inversion Hd; subst.
      rewrite Hprop in Hid. discriminate.
  - simpl. split; [discriminate|].
    intros (data' & id' & Hd & _). discriminate.
Qed.

(** C9 (as amended).  With a chunk size that is a positive integer (the
    sizes being below 2^53) the loop always ends: fuel for
    [ceil(fileSize / chunkSize)] iterations is enough whatever the service
    answers, and when every request is accepted exactly that many
    iterations are needed.  The chunk size is not validated.  With a chunk
    size of zero or less (zero of either sign, a negative number, minus
    infinity) and a buffer that is not empty, the loop never ends as long
    as the service accepts the requests.  Nor is a positive chunk size
    enough: with 2^-53 and a buffer of two bytes or more the start is
    rounded back to 1 for ever. *)
Theorem chunk_loop_termination (args : UploadArgs) (content : jstring)
    (w : World) :
  ready w ->
  is_number (upload_workItemId args) = true ->
  truthy (upload_fileName args) = true ->
  upload_fileContentBase64 args = JStr content ->
  nonempty content = true ->
  let fileSize := Z.of_nat (List.length (base64_decode content)) in
  num_leb (num_of_Z fileSize) (chunkThreshold_of args) = false ->
  let outcome fuel :=
    fst (call_upload_work_item_attachment remote API_VERSION fuel args w) in
  (forall chunkSize,
     chunkSize_of args = num_of_Z chunkSize ->
     0 < chunkSize -> fileSize + chunkSize < 2 ^ 53 ->
     (forall fuel, (chunk_count fileSize chunkSize <= fuel)%nat ->
        outcome fuel <> OutOfFuel)
     /\ (accepting remote ->
         forall fuel,
           outcome fuel = OutOfFuel
           <-> (fuel < chunk_count fileSize chunkSize)%nat))
  /\ (num_leb (chunkSize_of args) (num_of_Z 0) = true ->
      0 < fileSize < 2 ^ 53 -> accepting remote ->
      forall fuel, outcome fuel = OutOfFuel)
  /\ (chunkSize_of args = half_ulp_of_one ->
      2 <= fileSize < 2 ^ 53 -> accepting remote ->
      forall fuel, outcome fuel = OutOfFuel).
Proof.
  intros Hready Hid Hname Hcontent Htext fileSize Hbig outcome.
  assert (Houtcome : forall fuel,
    outcome fuel = OutOfFuel
    <-> fst (chunked_upload remote API_VERSION fuel
               (upload_target args (projectName w)) (upload_fileName args)
               (base64_decode content) (chunkSize_of args) w) = OutOfFuel).
  { intros fuel. unfold outcome, call_upload_work_item_attachment.
    rewrite CallToolRequest_out_of_fuel by exact Hready.
    rewrite (upload_after_validation fuel args content) by assumption.
    fold fileSize. rewrite Hbig.
    apply bind_out_of_fuel. intros attachment w1.
    apply link_never_out_of_fuel. }
  assert (Hinit : accepting remote ->
    exists data attachmentId,
      remote (sent w)
        (init_request API_VERSION (upload_target args (projectName w))
           (upload_fileName args)) = Replied data
      /\ prop data (js "id") = Some attachmentId).
  { intros Hacc.
    destruct (Hacc (sent w)
                (init_request API_VERSION
                   (upload_target args (projectName w))
                   (upload_fileName args))) as (data & Hreply & Hdata).
    exists data, (optional data (js "id")).
    split; [exact Hreply|].
    unfold optional. destruct data; try discriminate Hdata; reflexivity. }
  split; [|split].
  - intros chunkSize Hsize Hcs Hsafe. split.
    + intros fuel Hfuel Hout. apply Houtcome in Hout.
      apply chunked_upload_out_of_fuel in Hout
        as (data & attachmentId & _ & _ & Hloop).
      rewrite Hsize in Hloop.
      change (num_of_Z 0) with (num_of_Z (Z.of_nat 0 * chunkSize)) in Hloop.
      revert Hloop.
      apply (upload_chunks_ends remote _ _ chunkSize Hcs Hsafe);
        fold fileSize; lia.
    + intros Hacc fuel. rewrite Houtcome, chunked_upload_out_of_fuel.
      rewrite Hsize. split.
      * intros (data & attachmentId & _ & _ & Hloop).
        change (num_of_Z 0) with (num_of_Z (Z.of_nat 0 * chunkSize)) in Hloop.
        rewrite (upload_chunks_accepted remote _ _ chunkSize Hcs Hsafe Hacc
                   fuel 0%nat _ (Nat.le_0_l _)) in Hloop.
        fold fileSize in Hloop.
        destruct (Nat.leb_spec (chunk_count fileSize chunkSize - 0) fuel).
        { simpl in Hloop. discriminate Hloop. }
        lia.
      * intros Hfuel.
        destruct (Hinit Hacc) as (data & attachmentId & Hreply & Hprop).
        exists data, attachmentId. split; [exact Hreply|].
        split; [exact Hprop|].
        change (num_of_Z 0) with (num_of_Z (Z.of_nat 0 * chunkSize)).
        rewrite (upload_chunks_accepted remote _ _ chunkSize Hcs Hsafe Hacc
                   fuel 0%nat _ (Nat.le_0_l _)).
        fold fileSize.
        destruct (Nat.leb_spec (chunk_count fileSize chunkSize - 0) fuel);
          [lia|reflexivity].
  - intros Hcs Hsize Hacc fuel.
    rewrite Houtcome, chunked_upload_out_of_fuel.
    destruct (Hinit Hacc) as (data & attachmentId & Hreply & Hprop).
    exists data, attachmentId. split; [exact Hreply|].
    split; [exact Hprop|].
    apply upload_chunks_diverges; try assumption; try reflexivity;
      fold fileSize; lia.
  - intros Hcs Hsize Hacc fuel.
    rewrite Houtcome, chunked_upload_out_of_fuel.
    destruct (Hinit Hacc) as (data & attachmentId & Hreply & Hprop).
    exists data, attachmentId. split; [exact Hreply|].
    split; [exact Hprop|].
    rewrite Hcs.
    apply upload_chunks_crawls; try assumption; fold fileSize; try lia.
    left. reflexivity.
Qed.

End UploadHandler.

(* ================================================================== *)
(** * The theorems at concrete calls *)

Lemma ready_started (project : jstring) :
  nonempty project = true -> ready (started project).
Proof. intros H. split; [discriminate|exact H]. Qed.

Lemma accepting_always (data : JsValue) :
  nullish data = false -> accepting (always data).
Proof. intros H history request. exists data. split; [reflexivity|exact H]. Qed.

Lemma chunked_upload_partitions_witness :
  (exists text attachmentId,
     call_upload_work_item_attachment (host := sample_host)
       (always attachment_reply) (js "7.1") 3 five_bytes_upload
       (started (js "Demo"))
     = (Ret text,
        sending (started (js "Demo"))
          ([init_request (host := sample_host) (js "7.1") (JStr (js "Demo"))
              (JStr (js "a.bin"))]
           ++ map (range_request
                     (chunk_url (host := sample_host) (js "7.1")
                        (JStr (js "Demo")) attachmentId)
                     (lenient_base64 (js "AAECAwQ=")))
                [(0, 1); (2, 3); (4, 4)]
           ++ [link_request (js "7.1") (JNum 7)
                 (chunked_attachment_url (host := sample_host)
                    (JStr (js "Demo")) attachmentId (JStr (js "a.bin")))
                 (JStr (js "Attached a.bin via MCP"))])))
  /\ tiles 0 [(0, 1); (2, 3); (4, 4)] 5.
Proof.
  destruct (chunked_upload_partitions (host := sample_host)
              (always attachment_reply) (js "7.1") 3 five_bytes_upload
              (js "AAECAwQ=") 2 (started (js "Demo"))
              (ready_started (js "Demo") eq_refl) eq_refl eq_refl eq_refl
              eq_refl ltac:(vm_compute; reflexivity) eq_refl
              ltac:(lia) ltac:(vm_compute; reflexivity))
    as (_ & Hreturns & Htiles & _).
  destruct (Hreturns (accepting_always attachment_reply eq_refl)
              ltac:(vm_compute; lia)) as (text & attachmentId & Hcall).
  split; [exists text, attachmentId; exact Hcall|exact Htiles].
Defined.

Lemma small_upload_single_request_witness :
  exists requests,
    sent (snd (call_upload_work_item_attachment (host := sample_host)
                 (always attachment_reply) (js "7.1") 0 small_upload
                 (started (js "Demo"))))
    = requests
    /\ List.length requests = 2%nat.
Proof.
  destruct (small_upload_single_request (host := sample_host)
              (always attachment_reply) (js "7.1") 0 small_upload
              (js "AAECAwQ=") (started (js "Demo"))
              (ready_started (js "Demo") eq_refl) eq_refl eq_refl eq_refl
              eq_refl ltac:(vm_compute; reflexivity))
    as (_ & _ & requests & Hsent & _ & _).
  eexists. split; [reflexivity|]. vm_compute. reflexivity.
Defined.

Lemma chunk_loop_termination_witness :
  (fst (call_upload_work_item_attachment (host := sample_host)
          (always attachment_reply) (js "7.1") 3 five_bytes_upload
          (started (js "Demo"))) <> OutOfFuel)
  /\ (forall fuel,
        fst (call_upload_work_item_attachment (host := sample_host)
               (always attachment_reply) (js "7.1") fuel zero_chunk_upload
               (started (js "Demo"))) = OutOfFuel)
  /\ (forall fuel,
        fst (call_upload_work_item_attachment (host := sample_host)
               (always attachment_reply) (js "7.1") fuel tiny_chunk_upload
               (started (js "Demo"))) = OutOfFuel).
Proof.
  split; [|split].
  - refine (proj1 (proj1 (chunk_loop_termination (host := sample_host)
              (always attachment_reply) (js "7.1") five_bytes_upload
              (js "AAECAwQ=") (started (js "Demo"))
              (ready_started (js "Demo") eq_refl) eq_refl eq_refl eq_refl
              eq_refl ltac:(vm_compute; reflexivity))
              2 eq_refl ltac:(lia) ltac:(vm_compute; reflexivity)) 3%nat _).
    vm_compute. lia.
  - refine (proj1 (proj2 (chunk_loop_termination (host := sample_host)
              (always attachment_reply) (js "7.1") zero_chunk_upload
              (js "AAECAwQ=") (started (js "Demo"))
              (ready_started (js "Demo") eq_refl) eq_refl eq_refl eq_refl
              eq_refl ltac:(vm_compute; reflexivity)))
              ltac:(vm_compute; reflexivity) _
              (accepting_always attachment_reply eq_refl)).
    vm_compute. split; [reflexivity|reflexivity].
  - refine (proj2 (proj2 (chunk_loop_termination (host := sample_host)
              (always attachment_reply) (js "7.1") tiny_chunk_upload
              (js "AAECAwQ=") (started (js "Demo"))
              (ready_started (js "Demo") eq_refl) eq_refl eq_refl eq_refl
              eq_refl ltac:(vm_compute; reflexivity)))
              eq_refl _ (accepting_always attachment_reply eq_refl)).
    vm_compute. split; [discriminate|reflexivity].
Defined.

(** C9 as stated fails.  The buffer decoded from ["="] is empty and longer
    than a threshold of -1, the chunk size is 0, and the loop ends at once,
    without any fuel: the call returns after the initiate and the link
    request.  And a positive chunk size does not give
    [ceil(length / chunkSize)] iterations: with a chunk size of 0.1 and one
    byte, ten sums of 0.1 stay below 1, and the loop ends in the eleventh
    iteration. *)
Lemma empty_buffer_loop_ends :
  num_leb (chunkSize_of empty_chunked_upload) (num_of_Z 0) = true
  /\ num_leb (num_of_Z (Z.of_nat (List.length (lenient_base64 (js "=")))))
       (chunkThreshold_of empty_chunked_upload) = false
  /\ (exists text,
        call_upload_work_item_attachment (host := sample_host)
          (always attachment_reply) (js "7.1") 0 empty_chunked_upload
          (started (js "Demo"))
        = (Ret text,
           sending (started (js "Demo"))
             [init_request (host := sample_host) (js "7.1") (JStr (js "Demo"))
                (JStr (js "a.bin"));
              link_request (js "7.1") (JNum 7)
                (chunked_attachment_url (host := sample_host)
                   (JStr (js "Demo")) (JStr (js "att-1")) (JStr (js "a.bin")))
                (JStr (js "Attached a.bin via MCP"))]))
  /\ ~ (forall fuel,
          fst (call_upload_work_item_attachment (host := sample_host)
                 (always attachment_reply) (js "7.1") fuel
                 empty_chunked_upload (started (js "Demo"))) = OutOfFuel)
  /\ List.length (lenient_base64 (js "AA==")) = 1%nat
  /\ fst (call_upload_work_item_attachment (host := sample_host)
            (always attachment_reply) (js "7.1") 10 one_byte_tenth_upload
            (started (js "Demo"))) = OutOfFuel
  /\ fst (call_upload_work_item_attachment (host := sample_host)
            (always attachment_reply) (js "7.1") 11 one_byte_tenth_upload
            (started (js "Demo"))) <> OutOfFuel.
Proof.
  split; [vm_compute; reflexivity|].
  split; [vm_compute; reflexivity|].
  split; [eexists; vm_compute; reflexivity|].
  split; [intros H; specialize (H 0%nat); vm_compute in H; discriminate H|].
  split; [vm_compute; reflexivity|].
  split; [vm_compute; reflexivity|].
  vm_compute. discriminate.
Qed.

(** C1 as stated fails for a chunk size that is positive and not an
    integer.  Five bytes in chunks of 1.5: the four chunks hold bytes 0,
    1 to 2, 3 and 4; the second request carries two bytes, more than the
    chunk size, under the header [bytes 1.5-2/5], and the last one carries
    byte 4 under [bytes 4.5-4/5]. *)
Lemma fractional_chunk_exceeds_size :
  chunkSize_of fractional_chunk_upload = one_and_a_half
  /\ num_ltb (num_of_Z 0) one_and_a_half = true
  /\ num_ltb one_and_a_half (num_of_Z 2) = true
  /\ lenient_base64 (js "AAECAwQ=")
     = [Byte.x00; Byte.x01; Byte.x02; Byte.x03; Byte.x04]
  /\ num_leb (num_of_Z 5) (chunkThreshold_of fractional_chunk_upload) = false
  /\ exists text,
       call_upload_work_item_attachment (host := sample_host)
         (always attachment_reply) (js "7.1") 4 fractional_chunk_upload
         (started (js "Demo"))
       = (Ret text,
          sending (started (js "Demo"))
            [init_request (host := sample_host) (js "7.1") (JStr (js "Demo"))
               (JStr (js "a.bin"));
             sample_chunk [Byte.x00] "1" "bytes 0-0.5/5";
             sample_chunk [Byte.x01; Byte.x02] "2" "bytes 1.5-2/5";
             sample_chunk [Byte.x03] "1" "bytes 3-3.5/5";
             sample_chunk [Byte.x04] "1" "bytes 4.5-4/5";
             link_request (js "7.1") (JNum 7)
               (chunked_attachment_url (host := sample_host)
                  (JStr (js "Demo")) (JStr (js "att-1")) (JStr (js "a.bin")))
               (JStr (js "Attached a.bin via MCP"))]).
Proof.
  split; [reflexivity|].
  split; [vm_compute; reflexivity|].
  split; [vm_compute; reflexivity|].
  split; [vm_compute; reflexivity|].
  split; [vm_compute; reflexivity|].
  eexists. vm_compute. reflexivity.
Qed.

(* ------------------------------------------------------------------ *)
(** ** The requests sent are never taken back *)

Lemma grows_ret {A} (a : A) : grows (ret a).
Proof. intros w. exists []. simpl. rewrite app_nil_r. reflexivity. Qed.

Lemma grows_throw {A} (e : Exn) : grows (@throw A e).
Proof. intros w. exists []. simpl. rewrite app_nil_r. reflexivity. Qed.

Lemma grows_out_of_fuel {A} : grows (@out_of_fuel A).
Proof. intros w. exists []. simpl. rewrite app_nil_r. reflexivity. Qed.

Lemma grows_send (remote : Remote) (r : Request) : grows (send remote r).
Proof. intros w. exists [r]. rewrite send_outcome. reflexivity. Qed.

Lemma grows_bind {A B} (m : M A) (k : A -> M B) :
  grows m -> (forall a, grows (k a)) -> grows (bind m k).
Proof.
  intros Hm Hk w. unfold bind. destruct (Hm w) as [more Hmore].
  destruct (m w) as [[a|e|] w1]; simpl in *; try (exists more; exact Hmore).
  destruct (Hk a w1) as [more' Hmore'].
  exists (more ++ more'). rewrite Hmore', Hmore, app_assoc. reflexivity.
Qed.

Lemma grows_get (v : JsValue) (k : jstring) : grows (get v k).
Proof. unfold get. destruct (prop v k); [apply grows_ret|apply grows_throw]. Qed.

Lemma grows_upload_chunks `{host : Host} (remote : Remote) (url : jstring)
    (buf : Buffer)
    (chunkSize : Num) (fuel : nat) :
  forall start, grows (upload_chunks remote fuel url buf chunkSize start).
Proof.
  induction fuel as [|fuel IH]; intros start; simpl;
    destruct (num_ltb start (num_of_Z (Z.of_nat (List.length buf))));
    try apply grows_ret; try apply grows_out_of_fuel.
  apply grows_bind; [apply grows_send|intros _; apply IH].
Qed.

Lemma bind_assoc {A B C} (m : M A) (k : A -> M B) (k' : B -> M C) (w : World) :
  bind (bind m k) k' w = bind m (fun a => bind (k a) k') w.
Proof. unfold bind. destruct (m w) as [[a|e|] w1]; reflexivity. Qed.

(** A computation that begins with a request has sent it, whatever
    follows. *)
Lemma bind_send_first {A} (remote : Remote) (r : Request)
    (k : JsValue -> M A) (w : World) :
  (forall data, grows (k data)) ->
  exists rest, sent (snd (bind (send remote r) k w)) = sent w ++ r :: rest.
Proof.
  intros Hk. unfold bind. rewrite send_outcome.
  destruct (remote (sent w) r) as [data|message].
  - destruct (Hk data (sending w [r])) as [more Hmore].
    exists more. rewrite Hmore. simpl. rewrite <- app_assoc. reflexivity.
  - exists []. reflexivity.
Qed.

(* ------------------------------------------------------------------ *)
(** ** Text that is not Base64 is uploaded *)

(** Whatever the text of [fileContentBase64] is, once the work item id is a
    number and the file name is given the handler goes on to the network:
    it sends the upload request or the initiate request.  The error of the
    [catch] around the decoding is never raised for a string. *)
Lemma upload_sends_any_text `{host : Host} (remote : Remote)
    (API_VERSION : jstring) (fuel : nat) (args : UploadArgs)
    (content : jstring) (w : World) :
  ready w ->
  is_number (upload_workItemId args) = true ->
  truthy (upload_fileName args) = true ->
  upload_fileContentBase64 args = JStr content ->
  nonempty content = true ->
  exists first rest,
    sent (snd (call_upload_work_item_attachment remote API_VERSION fuel args w))
    = sent w ++ first :: rest
    /\ (first = upload_request API_VERSION (upload_target args (projectName w))
                  (upload_fileName args) (base64_decode content)
        \/ first = init_request API_VERSION
                     (upload_target args (projectName w))
                     (upload_fileName args)).
Proof.
  intros Hready Hid Hname Hcontent Htext.
  unfold call_upload_work_item_attachment.
  rewrite CallToolRequest_ready_world by exact Hready.
  rewrite (upload_after_validation remote API_VERSION fuel args content)
    by assumption.
  destruct (num_leb (num_of_Z (Z.of_nat (List.length (base64_decode content))))
              (chunkThreshold_of args)).
  - unfold standard_upload. rewrite bind_assoc.
    match goal with
    | |- context [bind (send remote ?r) ?k w] =>
        destruct (bind_send_first remote r k w) as [rest Hrest]
    end.
    { intros data. repeat (apply grows_bind; [|intros ?]);
        first [apply grows_get|apply grows_send|apply grows_ret]. }
    eexists. exists rest. split; [exact Hrest|left; reflexivity].
  - unfold chunked_upload. rewrite bind_assoc.
    match goal with
    | |- context [bind (send remote ?r) ?k w] =>
        destruct (bind_send_first remote r k w) as [rest Hrest]
    end.
    { intros data. repeat (apply grows_bind; [|intros ?]);
        first [apply grows_get|apply grows_send|apply grows_ret
              |apply grows_upload_chunks]. }
    eexists. exists rest. split; [exact Hrest|right; reflexivity].
Qed.

(** C3 (fails on the code).  The text ["!!!!"] is not Base64.  The handler
    does not raise an invalid-argument error: Node decodes it to an empty
    buffer, and the handler posts that buffer and links the attachment. *)
Theorem upload_accepts_invalid_base64 :
  lenient_base64 (js "!!!!") = []
  /\ exists text,
       call_upload_work_item_attachment (host := sample_host)
         (always attachment_reply) (js "7.1") 0 not_base64_upload
         (started (js "Demo"))
       = (Ret text,
          sending (started (js "Demo"))
            [upload_request (host := sample_host) (js "7.1")
               (JStr (js "Demo")) (JStr (js "a.bin")) [];
             link_request (js "7.1") (JNum 7)
               (JStr (js "https://dev.azure.com/org/att-1"))
               (JStr (js "Attached a.bin via MCP"))]).
Proof.
  split; [vm_compute; reflexivity|].
  eexists. vm_compute. reflexivity.
Qed.

(* ------------------------------------------------------------------ *)
(** ** The other tools at concrete calls *)

Lemma batch_ids_limit_witness :
  sent (snd (call_get_work_items_batch (host := sample_host) (always JNull)
               (js "7.2-preview") two_hundred_ids (started (js "Demo"))))
  = [workitemsbatch_request (js "7.2-preview") two_hundred_ids].
Proof.
  apply (proj1 (batch_ids_limit (host := sample_host) (always JNull)
                  (js "7.2-preview") two_hundred_ids (started (js "Demo"))
                  (ready_started (js "Demo") eq_refl))
           (repeat (JNum 1) 200) eq_refl (repeat_length (JNum 1) 200)).
Defined.

Lemma batch_update_reports_first_malformed_witness :
  exists what,
    call_batch_update_work_items (host := sample_host) (always JNull)
      (js "7.2-preview") patch_without_id (started (js "Demo"))
    = (Throw (McpError InvalidParams
                (js "執行工具 batch_update_work_items 時發生錯誤: "
                 ++ mcp_message (Host := sample_host) InvalidParams
                      (js "操作 " ++ dec 0 ++ js ": " ++ what))),
       started (js "Demo")).
Proof.
  apply (batch_update_reports_first_malformed (host := sample_host)
           (always JNull) (js "7.2-preview") patch_without_id
           [JObj [(js "method", JStr (js "PATCH"))]] 0
           (JObj [(js "method", JStr (js "PATCH"))]) (started (js "Demo"))
           (ready_started (js "Demo") eq_refl) eq_refl eq_refl).
  - vm_compute. reflexivity.
  - intros j op' Hj. lia.
  - intros j op' Hj Hop. assert (j = 0%nat) by lia. subst j.
    simpl in Hop. inversion Hop. reflexivity.
Defined.

Lemma update_rejects_non_email_assignee_witness :
  exists text,
    call_update_work_item (host := sample_host) (always JNull)
      (js "7.2-preview") assign_display_name (started (js "Demo"))
    = (Throw (McpError InvalidParams text), started (js "Demo")).
Proof.
  apply (proj1 (update_rejects_non_email_assignee (host := sample_host)
                  (always JNull) (js "7.2-preview") assign_display_name
                  [(js "System.AssignedTo", JStr (js "John Doe"))]
                  (JStr (js "John Doe")) (started (js "Demo"))
                  (ready_started (js "Demo") eq_refl) eq_refl
                  ltac:(vm_compute; reflexivity) eq_refl
                  ltac:(vm_compute; reflexivity))).
Defined.

(* ================================================================== *)
(** * Patterns: the test decides the language *)

Lemma nullable_matches (r : regex) : nullable r = true <-> matches r [].
Proof.
  induction r as [| |p|a IHa b IHb|a IHa b IHb|a IHa]; simpl.
  - split; [discriminate|]. intros H; inversion H.
  - split; [constructor|reflexivity].
  - split; [discriminate|]. intros H; inversion H.
  - rewrite andb_true_iff, IHa, IHb. split.
    + intros [Ha Hb]. change (@nil N) with (@nil N ++ []). constructor; assumption.
    + intros H. inversion H; subst.
      match goal with
      | E : _ ++ _ = [] |- _ => apply app_eq_nil in E as [-> ->]
      end.
      split; assumption.
  - rewrite orb_true_iff, IHa, IHb. split.
    + intros [H|H]; [apply matches_alt_l|apply matches_alt_r]; exact H.
    + intros H. inversion H; subst; [left|right]; assumption.
  - split; [constructor|reflexivity].
Qed.

(** A non-empty instance of a repetition begins with a non-empty instance
    of what is repeated. *)
Lemma matches_star_cons_inv (a : regex) (s : jstring) :
  matches (Star a) s ->
  forall c s', s = c :: s' ->
    exists s1 s2, s' = s1 ++ s2 /\ matches a (c :: s1) /\ matches (Star a) s2.
Proof.
  intros H. remember (Star a) as r eqn:Er.
  induction H as [| | | | | |a' s t Hs _ Ht IHt]; try discriminate Er.
  - intros c s' E. discriminate E.
  - inversion Er; subst a'. intros c s' E.
    destruct s as [|x s].
    + simpl in E. exact (IHt eq_refl c s' E).
    + simpl in E. inversion E; subst. exists s, t. auto.
Qed.

Lemma deriv_matches (c : N) (r : regex) :
  forall s, matches (deriv c r) s <-> matches r (c :: s).
Proof.
  induction r as [| |p|a IHa b IHb|a IHa b IHb|a IHa]; intros s; simpl.
  - split; intros H; inversion H.
  - split; intros H; inversion H.
  - destruct (p c) eqn:Hp.
    + split; intros H; inversion H; subst; [constructor; exact Hp|constructor].
    + split; intros H; inversion H; subst. congruence.
  - assert (Hcat : matches (Cat (deriv c a) b) s
                   -> matches (Cat a b) (c :: s)).
    { intros H. inversion H; subst.
      match goal with
      | H1 : matches (deriv c a) ?s1 |- matches _ (c :: ?s1 ++ ?s2) =>
          apply IHa in H1; change (c :: s1 ++ s2) with ((c :: s1) ++ s2)
      end.
      constructor; assumption. }
    assert (Hinv : matches (Cat a b) (c :: s) ->
                   matches (Cat (deriv c a) b) s
                   \/ (matches a [] /\ matches (deriv c b) s)).
    { intros H. inversion H as [| |a' b' s1 s2 H1 H2 [Ea Eb] Heq| | | |].
      destruct s1 as [|x s1]; simpl in Heq.
      - subst s2. right. split; [exact H1|apply IHb; exact H2].
      - inversion Heq; subst. left.
        constructor; [apply IHa; exact H1|exact H2]. }
    destruct (nullable a) eqn:Hn.
    + split.
      * intros H. inversion H; subst; [apply Hcat; assumption|].
        change (c :: s) with ([] ++ c :: s).
        constructor; [apply nullable_matches; exact Hn|apply IHb; assumption].
      * intros H. destruct (Hinv H) as [H1|[_ H2]];
          [apply matches_alt_l|apply matches_alt_r]; assumption.
    + split; [exact Hcat|].
      intros H. destruct (Hinv H) as [H1|[H1 _]]; [exact H1|].
      apply nullable_matches in H1. congruence.
  - split.
    + intros H. inversion H; subst;
        [apply matches_alt_l; apply IHa|apply matches_alt_r; apply IHb];
        assumption.
    + intros H. inversion H; subst;
        [apply matches_alt_l; apply IHa|apply matches_alt_r; apply IHb];
        assumption.
  - split.
    + intros H. inversion H; subst.
      match goal with
      | H1 : matches (deriv c a) ?s1 |- matches _ (c :: ?s1 ++ ?s2) =>
          apply IHa in H1; change (c :: s1 ++ s2) with ((c :: s1) ++ s2)
      end.
      constructor; assumption.
    + intros H.
      destruct (matches_star_cons_inv a (c :: s) H c s eq_refl)
        as (s1 & s2 & -> & H1 & H2).
      constructor; [apply IHa; exact H1|exact H2].
Qed.

Lemma regex_test_decides (r : regex) (s : jstring) :
  regex_test r s = true <-> matches r s.
Proof.
  unfold regex_test. revert r.
  induction s as [|c s IH]; intros r; simpl.
  - apply nullable_matches.
  - rewrite IH. apply deriv_matches.
Qed.

Lemma matches_star_class (p : N -> bool) (s : jstring) :
  matches (Star (Class p)) s <-> Forall (fun c => p c = true) s.
Proof.
  split.
  - intros H. remember (Star (Class p)) as r eqn:Er.
    induction H as [| | | | | |a s t Hs _ Ht IHt]; try discriminate Er.
    + constructor.
    + inversion Er; subst a. inversion Hs; subst.
      simpl. constructor; [assumption|apply IHt; reflexivity].
  - induction 1 as [|c s Hc _ IH]; [constructor|].
    change (c :: s) with ([c] ++ s).
    constructor; [constructor; exact Hc|exact IH].
Qed.

Lemma matches_plus_class (p : N -> bool) (s : jstring) :
  matches (Plus (Class p)) s <-> s <> [] /\ Forall (fun c => p c = true) s.
Proof.
  unfold Plus. split.
  - intros H. inversion H; subst.
    match goal with
    | H1 : matches (Class p) _, H2 : matches (Star _) _ |- _ =>
        inversion H1; subst; apply matches_star_class in H2
    end.
    simpl. split; [discriminate|constructor; assumption].
  - intros [Hne Hall]. destruct s as [|c s]; [congruence|].
    inversion Hall; subst. change (c :: s) with ([c] ++ s).
    constructor; [constructor; assumption|apply matches_star_class; assumption].
Qed.

Lemma matches_lit (c : N) (s : jstring) : matches (Lit c) s <-> s = [c].
Proof.
  unfold Lit. split.
  - intros H. inversion H; subst.
    match goal with E : (c =? _)%N = true |- _ => apply N.eqb_eq in E; subst end.
    reflexivity.
  - intros ->. constructor. apply N.eqb_refl.
Qed.

Lemma matches_cat_inv (a b : regex) (s : jstring) :
  matches (Cat a b) s <->
  exists s1 s2, s = s1 ++ s2 /\ matches a s1 /\ matches b s2.
Proof.
  split.
  - intros H. inversion H; subst. eauto.
  - intros (s1 & s2 & -> & H1 & H2). constructor; assumption.
Qed.

(** X2.  The e-mail pattern of [update_work_item],
    [/^[^@\s]+@[^@\s]+\.[^@\s]+$/], accepts exactly the strings
    [local @ domain . rest] whose three parts are not empty and hold
    neither an [@] nor white space. *)
Theorem email_pattern_language (s : jstring) :
  regex_test EMAIL s = true
  <-> exists local domain rest,
        s = local ++ 64%N :: domain ++ 46%N :: rest
        /\ local <> [] /\ domain <> [] /\ rest <> []
        /\ Forall (fun c => not_at_or_space c = true) local
        /\ Forall (fun c => not_at_or_space c = true) domain
        /\ Forall (fun c => not_at_or_space c = true) rest.
Proof.
  rewrite regex_test_decides. unfold EMAIL.
  rewrite matches_cat_inv. split.
  - intros (l & t1 & -> & Hl & H1).
    apply matches_cat_inv in H1 as (at_ & t2 & -> & Hat & H2).
    apply matches_cat_inv in H2 as (d & t3 & -> & Hd & H3).
    apply matches_cat_inv in H3 as (dot & e & -> & Hdot & He).
    apply matches_lit in Hat, Hdot. subst.
    apply matches_plus_class in Hl as [? ?], Hd as [? ?], He as [? ?].
    exists l, d, e. simpl. auto 10.
  - intros (l & d & e & -> & Hl & Hd & He & Fl & Fd & Fe).
    exists l, (64%N :: d ++ 46%N :: e). split; [reflexivity|].
    split; [apply matches_plus_class; auto|].
    apply matches_cat_inv. exists [64%N], (d ++ 46%N :: e).
    split; [reflexivity|]. split; [apply matches_lit; reflexivity|].
    apply matches_cat_inv. exists d, (46%N :: e).
    split; [reflexivity|]. split; [apply matches_plus_class; auto|].
    apply matches_cat_inv. exists [46%N], e.
    split; [reflexivity|]. split; [apply matches_lit; reflexivity|].
    apply matches_plus_class; auto.
Qed.

Lemma numeric_pattern_language (s : jstring) :
  regex_test NUMERIC_ID s = true
  <-> s <> [] /\ Forall (fun c => is_digit c = true) s.
Proof.
  rewrite regex_test_decides. unfold NUMERIC_ID. apply matches_plus_class.
Qed.

Lemma digits_have_no_quote (s : jstring) :
  Forall (fun c => is_digit c = true) s -> ~ In QUOTE s.
Proof.
  intros Hall Hin. rewrite Forall_forall in Hall.
  specialize (Hall QUOTE Hin). vm_compute in Hall. discriminate Hall.
Qed.

(** X3.  The free text of a search reaches the query outside the quotes only
    in the [System.Id] comparison, and only when it is made of decimal
    digits: it then holds no quote, escaping leaves it as it is, and the
    condition compares the id with that number.  Any other text adds no
    [System.Id] comparison. *)
Theorem query_id_clause_only_for_digits (queryText : jstring) :
  (regex_test NUMERIC_ID queryText = true ->
     Forall (fun c => is_digit c = true) queryText
     /\ ~ In QUOTE queryText
     /\ query_clause queryText
        = js "([System.Title] CONTAINS '" ++ queryText ++ js "' "
          ++ (js "OR [System.Id] = " ++ queryText)
          ++ js " OR [System.Description] CONTAINS '" ++ queryText ++ js "')")
  /\ (regex_test NUMERIC_ID queryText = false ->
        query_clause queryText
        = js "([System.Title] CONTAINS '" ++ escape_quotes queryText ++ js "' "
          ++ js " OR [System.Description] CONTAINS '"
          ++ escape_quotes queryText ++ js "')").
Proof.
  split; intros H; unfold query_clause; rewrite H.
  - apply numeric_pattern_language in H as [_ Hdigits].
    pose proof (digits_have_no_quote _ Hdigits) as Hq.
    rewrite (escape_quotes_id _ Hq). auto.
  - cbv iota. rewrite app_nil_l. reflexivity.
Qed.

Lemma query_id_clause_only_for_digits_witness :
  query_clause (js "42")
  = js "([System.Title] CONTAINS '42' OR [System.Id] = 42 OR [System.Description] CONTAINS '42')"
  /\ query_clause (js "it's")
     = js "([System.Title] CONTAINS 'it''s'  OR [System.Description] CONTAINS 'it''s')".
Proof.
  split.
  - destruct (proj1 (query_id_clause_only_for_digits (js "42")))
      as (_ & _ & H); [vm_compute; reflexivity|].
    rewrite H. vm_compute. reflexivity.
  - rewrite (proj2 (query_id_clause_only_for_digits (js "it's")))
      by (vm_compute; reflexivity).
    vm_compute. reflexivity.
Defined.

(* ================================================================== *)
(** * Escaping is faithful *)

Lemma unescape_escape (s : jstring) : unescape_quotes (escape_quotes s) = s.
Proof.
  induction s as [|c r IH]; [reflexivity|].
  unfold escape_quotes in *. simpl.
  destruct (N.eqb_spec c QUOTE) as [->|Hc]; simpl.
  - rewrite IH. reflexivity.
  - destruct (N.eqb_spec c QUOTE); [contradiction|]. rewrite IH. reflexivity.
Qed.

(** X4.  Doubling the quotes loses nothing and leaves no single quote:
    the value can be read back from the escaped text, two values are
    escaped to the same text only when they are equal, and in the escaped
    text the quotes come in pairs. *)
Theorem escape_quotes_faithful (s : jstring) :
  unescape_quotes (escape_quotes s) = s
  /\ (forall t, escape_quotes s = escape_quotes t -> s = t)
  /\ quotes_paired (escape_quotes s) = true.
Proof.
  split; [apply unescape_escape|]. split; [|apply escape_quotes_paired].
  intros t H. rewrite <- (unescape_escape s), <- (unescape_escape t), H.
  reflexivity.
Qed.

(* ================================================================== *)
(** * [search_work_items]: the scope and the page *)

Lemma join_cons (sep x : jstring) (r : list jstring) :
  join sep (x :: r) = x ++ flat_map (fun c => sep ++ c) r.
Proof.
  revert x. induction r as [|y r IH]; intros x.
  - simpl. rewrite app_nil_r. reflexivity.
  - change (join sep (x :: y :: r)) with (x ++ sep ++ join sep (y :: r)).
    rewrite IH. simpl. rewrite <- app_assoc. reflexivity.
Qed.

Lemma when_given_length (x : option jstring) (clause : jstring -> jstring) :
  (List.length (when_given x (fun v => [clause v])) <= 1)%nat.
Proof.
  unfold when_given. destruct x as [v|]; [destruct (nonempty v)|]; simpl; lia.
Qed.

Lemma tag_conditions_length (tags : option jstring) :
  (List.length (tag_conditions tags) <= 1)%nat.
Proof.
  unfold tag_conditions, when_given.
  destruct tags as [v|]; [destruct (nonempty v)|]; simpl; try lia.
  destruct (0 <? _); simpl; lia.
Qed.

(** X5.  Every search is scoped to a project: the first condition compares
    [System.TeamProject] with the escaped name of the project of the call
    (the argument, or the default project when it is absent), the other
    conditions, at most seven, are joined to it with [AND], and a call with
    no filter asks for that condition alone. *)
Theorem search_always_scoped (currentProjectName : jstring) (args : SearchArgs) :
  let target :=
    match search_projectName args with
    | Some p => p
    | None => currentProjectName
    end in
  let scope :=
    js "[System.TeamProject] = '" ++ escape_quotes target ++ js "'" in
  exists filters,
    search_conditions currentProjectName args = scope :: filters
    /\ (List.length filters <= 7)%nat
    /\ where_clause currentProjectName args
       = scope ++ flat_map (fun c => js " AND " ++ c) filters
    /\ (search_workItemType args = None -> search_state args = None ->
        search_assignedTo args = None -> search_tags args = None ->
        search_createdAfter args = None -> search_updatedAfter args = None ->
        search_query args = None ->
        where_clause currentProjectName args = scope).
Proof.
  intros target scope. unfold where_clause, search_conditions.
  fold target.
  match goal with
  | |- exists filters, [?c] ++ ?rest = _ /\ _ => exists rest
  end.
  split; [reflexivity|]. split.
  { rewrite !length_app.
    pose proof (when_given_length (search_workItemType args)
                  (equals_clause "System.WorkItemType")).
    pose proof (when_given_length (search_state args)
                  (equals_clause "System.State")).
    pose proof (when_given_length (search_assignedTo args)
                  (equals_clause "System.AssignedTo")).
    pose proof (tag_conditions_length (search_tags args)).
    pose proof (when_given_length (search_createdAfter args)
                  (since_clause "System.CreatedDate")).
    pose proof (when_given_length (search_updatedAfter args)
                  (since_clause "System.ChangedDate")).
    pose proof (when_given_length (search_query args) query_clause).
    lia. }
  split.
  { change ([equals_clause "System.TeamProject" target] ++ ?r)
      with (equals_clause "System.TeamProject" target :: r).
    apply join_cons. }
  intros -> -> -> -> -> -> ->. reflexivity.
Qed.


(* ================================================================== *)
(** * The session: failures, start-up, and the errors that leave a call *)

Lemma bind_throw_inv {A B} (m : M A) (k : A -> M B) (w w' : World) (e : Exn) :
  bind m k w = (Throw e, w') ->
  m w = (Throw e, w')
  \/ exists a w1, m w = (Ret a, w1) /\ k a w1 = (Throw e, w').
Proof.
  unfold bind. destruct (m w) as [[a|e0|] w1]; intros H.
  - right. exists a, w1. split; [reflexivity|exact H].
  - left. inversion H; subst. reflexivity.
  - discriminate H.
Qed.

Lemma try_rethrow_throw_inv {A} (m : M A) (f : Exn -> Exn) (w w' : World)
    (e' : Exn) :
  try_catch m (fun e => throw (f e)) w = (Throw e', w') ->
  exists e, m w = (Throw e, w') /\ e' = f e.
Proof.
  unfold try_catch, throw. destruct (m w) as [[a|e|] w1]; intros H;
    try discriminate H.
  inversion H; subst. exists e. split; reflexivity.
Qed.

Lemma get_throw_inv (v : JsValue) (k : jstring) (w w' : World) (e : Exn) :
  get v k w = (Throw e, w') -> e = TypeError /\ w' = w.
Proof.
  unfold get. destruct (prop v k); unfold ret, throw; intros H;
    inversion H; subst; split; reflexivity.
Qed.

Lemma get_item_throw_inv (v : JsValue) (i : nat) (w w' : World) (e : Exn) :
  get_item v i w = (Throw e, w') -> e = TypeError /\ w' = w.
Proof.
  unfold get_item. destruct (item v i); unfold ret, throw; intros H;
    inversion H; subst; split; reflexivity.
Qed.

Lemma send_throw_inv (remote : Remote) (r : Request) (w w' : World) (e : Exn) :
  send remote r w = (Throw e, w') ->
  (exists message, remote (sent w) r = Rejected message
                   /\ e = AxiosError message)
  /\ w' = sending w [r].
Proof.
  rewrite send_outcome. destruct (remote (sent w) r) as [|message];
    intros H; inversion H; subst.
  split; [exists message; split; reflexivity|reflexivity].
Qed.

Section SessionFailure.

Context {host : Host}.
Variable remote : Remote.
Variable API_VERSION : jstring.

Lemma getProjectName_never_out_of_fuel (w : World) :
  fst (getProjectName remote API_VERSION w) <> OutOfFuel.
Proof.
  unfold getProjectName.
  destruct (truthy (projectName w)); [simpl; discriminate|].
  destruct (getAxiosInstance_outcome w) as (i & Hi).
  unfold bind at 1. rewrite Hi.
  unfold try_catch, bind. rewrite send_outcome.
  destruct (remote _ _) as [data|message]; simpl; [|discriminate].
  unfold get. destruct (prop data (js "value")) as [projects|]; simpl;
    [|discriminate].
  destruct (truthy projects); simpl; [|discriminate].
  destruct (prop projects (js "length")) as [len|]; simpl; [|discriminate].
  destruct (is_zero len); simpl; [discriminate|].
  unfold get_item. destruct (item projects 0) as [first|]; simpl;
    [|discriminate].
  destruct (prop first (js "name")) as [name|]; simpl; [|discriminate].
  destruct (truthy name); simpl; discriminate.
Qed.

(** X7.  A resolution of the default project that fails has sent the one
    project-list request, raises [InternalError] with the message
    ["無法取得 Azure DevOps 專案列表: ..."] and caches nothing, so that the
    next call asks the service again; when the service rejects the request
    the message carries the text of the rejection. *)
Theorem getProjectName_failure (w w1 : World) (e : Exn) :
  truthy (projectName w) = false ->
  getProjectName remote API_VERSION w = (Throw e, w1) ->
  (exists text,
     e = McpError InternalError (js "無法取得 Azure DevOps 專案列表: " ++ text)
     /\ forall message,
          remote (sent w) (projects_request API_VERSION) = Rejected message ->
          text = message)
  /\ projectName w1 = projectName w
  /\ sent w1 = sent w ++ [projects_request API_VERSION]
  /\ exists later : list Request,
       sent (snd (getProjectName remote API_VERSION w1))
       = sent w1 ++ projects_request API_VERSION :: later.
Proof.
  intros Hnone Hcall.
  assert (Hstate : (exists text,
     e = McpError InternalError (js "無法取得 Azure DevOps 專案列表: " ++ text)
     /\ forall message,
          remote (sent w) (projects_request API_VERSION) = Rejected message ->
          text = message)
    /\ projectName w1 = projectName w
    /\ sent w1 = sent w ++ [projects_request API_VERSION]).
  { unfold getProjectName in Hcall. rewrite Hnone in Hcall.
    destruct (getAxiosInstance_outcome w) as (i & Hi).
    apply bind_throw_inv in Hcall as [Hcall|(instance & w0 & Hinstance & Hcall)];
      [rewrite Hi in Hcall; discriminate Hcall|].
    rewrite Hi in Hinstance.
    inversion Hinstance; subst instance w0; clear Hinstance Hi.
    apply try_rethrow_throw_inv in Hcall as (e0 & Hbody & ->).
    apply bind_throw_inv in Hbody as [Hsend|(data & w2 & Hsend & Hbody)].
    { apply send_throw_inv in Hsend as [(message & Hreply & ->) ->].
      simpl in Hreply.
      split; [|split; reflexivity].
      exists message. split; [reflexivity|].
      intros message' Hreply'. rewrite Hreply in Hreply'. congruence. }
    apply send_ret_inv in Hsend as [Hreply ->]. simpl in Hreply.
    assert (Hrest : projectName w1 = projectName w
                    /\ sent w1 = sent w ++ [projects_request API_VERSION]).
    { apply bind_throw_inv in Hbody as [Hget|(projects & w3 & Hget & Hbody)];
        [apply get_throw_inv in Hget as [_ ->]; split; reflexivity|].
      apply get_ret_inv in Hget as [_ ->].
      destruct (truthy projects);
        [|inversion Hbody; subst; split; reflexivity].
      apply bind_throw_inv in Hbody as [Hget|(len & w3 & Hget & Hbody)];
        [apply get_throw_inv in Hget as [_ ->]; split; reflexivity|].
      apply get_ret_inv in Hget as [_ ->].
      destruct (is_zero len);
        [inversion Hbody; subst; split; reflexivity|].
      apply bind_throw_inv in Hbody as [Hget|(first & w3 & Hget & Hbody)];
        [apply get_item_throw_inv in Hget as [_ ->]; split; reflexivity|].
      apply get_item_ret_inv in Hget as [_ ->].
      apply bind_throw_inv in Hbody as [Hget|(name & w3 & Hget & Hbody)];
        [apply get_throw_inv in Hget as [_ ->]; split; reflexivity|].
      apply get_ret_inv in Hget as [_ ->].
      destruct (truthy name);
        [|inversion Hbody; subst; split; reflexivity].
      apply bind_throw_inv in Hbody as [Hset|(u & w3 & Hset & Hbody)];
        [discriminate Hset|discriminate Hbody]. }
    split; [|exact Hrest].
    eexists. split; [reflexivity|].
    intros message Hreply'. rewrite Hreply in Hreply'. discriminate Hreply'. }
  destruct Hstate as (Herror & Hname & Hsent).
  split; [exact Herror|]. split; [exact Hname|]. split; [exact Hsent|].
  unfold getProjectName. rewrite Hname, Hnone.
  destruct (getAxiosInstance_outcome w1) as (i & Hi).
  unfold bind at 1. rewrite Hi. unfold try_catch.
  match goal with
  | |- context [bind (send remote ?r) ?k ?w0] =>
      destruct (bind_send_first remote r k w0) as [rest Hrest]
  end.
  { intros data. repeat (apply grows_bind; [|intros ?]);
      try apply grows_get.
    destruct (negb (truthy a)); [apply grows_throw|].
    repeat (apply grows_bind; [|intros ?]); try apply grows_get.
    destruct (is_zero a0); [apply grows_throw|].
    repeat (apply grows_bind; [|intros ?]); try apply grows_get.
    - unfold get_item. destruct (item a 0); [apply grows_ret|apply grows_throw].
    - destruct (negb (truthy a2)); [apply grows_throw|].
      apply grows_bind; [|intros ?; apply grows_ret].
      intros w'. exists []. simpl. rewrite app_nil_r. reflexivity. }
  simpl in Hrest. exists rest.
  destruct (bind (send remote (projects_request API_VERSION)) _ _)
    as [[x|e'|] w'] eqn:Hrun; simpl in *; exact Hrest.
Qed.

End SessionFailure.

Lemma getProjectName_failure_witness :
  let run := getProjectName (host := sample_host) (always no_projects)
               (js "7.1") fresh in
  fst run
  = Throw (McpError InternalError
             (js "無法取得 Azure DevOps 專案列表: Could not find any projects in the Azure DevOps organization."))
  /\ projectName (snd run) = projectName fresh
  /\ sent (snd run) = sent fresh ++ [projects_request (js "7.1")].
Proof.
  intros run.
  assert (Hcall : run = (Throw (McpError InternalError
             (js "無法取得 Azure DevOps 專案列表: Could not find any projects in the Azure DevOps organization.")),
                         snd run))
    by (vm_compute; reflexivity).
  destruct (getProjectName_failure (host := sample_host) (always no_projects)
              (js "7.1") fresh (snd run) _ eq_refl Hcall)
    as (_ & Hname & Hsent & _).
  split; [rewrite Hcall; reflexivity|]. split; assumption.
Defined.

Section Boundary.

Context {host : Host}.
Variable remote : Remote.
Variable API_VERSION : jstring.

(** What a successful resolution leaves behind. *)
Lemma getProjectName_success (w w1 : World) (name : JsValue) :
  truthy (projectName w) = false ->
  getProjectName remote API_VERSION w = (Ret name, w1) ->
  truthy name = true
  /\ exists instance,
       w1 = mkWorld (Some instance) name
              (sent w ++ [projects_request API_VERSION]).
Proof.
  intros Hnone Hcall.
  unfold getProjectName in Hcall. rewrite Hnone in Hcall.
  apply bind_ret_inv in Hcall as (instance & w0 & Hinstance & Hcall).
  destruct (getAxiosInstance_outcome w) as (i & Hi).
  rewrite Hi in Hinstance.
  inversion Hinstance; subst instance w0; clear Hinstance Hi.
  apply try_rethrow_ret_inv in Hcall.
  apply bind_ret_inv in Hcall as (data & w2 & Hsend & Hcall).
  apply send_ret_inv in Hsend as [_ ->].
  apply bind_ret_inv in Hcall as (projects & w3 & Hvalue & Hcall).
  apply get_ret_inv in Hvalue as [_ ->].
  destruct (truthy projects); [|discriminate Hcall].
  apply bind_ret_inv in Hcall as (len & w3 & Hlen & Hcall).
  apply get_ret_inv in Hlen as [_ ->].
  destruct (is_zero len); [discriminate Hcall|].
  apply bind_ret_inv in Hcall as (first & w4 & Hfirst & Hcall).
  apply get_item_ret_inv in Hfirst as [_ ->].
  apply bind_ret_inv in Hcall as (name' & w5 & Hname & Hcall).
  apply get_ret_inv in Hname as [_ ->].
  destruct (truthy name') eqn:Htruthy; [|discriminate Hcall].
  apply bind_ret_inv in Hcall as ([] & w6 & Hset & Hcall).
  unfold set_projectName in Hset. inversion Hset; subst w6; clear Hset.
  unfold ret in Hcall. inversion Hcall; subst; clear Hcall.
  split; [exact Htruthy|]. exists i. reflexivity.
Qed.

(** X8.  [main] on a process that has no project cached: when it gets to
    run the server, the client and the project are cached, one request (the
    project list) has been sent, so that no tool call ever resolves the
    session again; otherwise the process exits with status 1. *)
Theorem main_leaves_session_ready (connected : bool) (w w' : World)
    (outcome : Startup) :
  truthy (projectName w) = false ->
  main remote API_VERSION connected w = (outcome, w') ->
  (outcome = Running ->
     connected = true
     /\ ready w'
     /\ sent w' = sent w ++ [projects_request API_VERSION]
     /\ forall remote', getProjectName remote' API_VERSION w'
                        = (Ret (projectName w'), w'))
  /\ (outcome <> Running -> outcome = Exited 1).
Proof.
  intros Hnone Hmain. unfold main in Hmain.
  destruct (getProjectName remote API_VERSION w) as [[name|e|] w1] eqn:Hcall.
  - destruct (getProjectName_success w w1 name Hnone Hcall)
      as (Htruthy & instance & ->).
    inversion Hmain; subst; clear Hmain. split.
    + intros Hrun. destruct connected; [|discriminate Hrun].
      split; [reflexivity|]. split; [split; [discriminate|exact Htruthy]|].
      split; [reflexivity|].
      intros remote'. apply getProjectName_cached. exact Htruthy.
    + intros Hnot. destruct connected; [congruence|reflexivity].
  - inversion Hmain; subst. split; [discriminate|reflexivity].
  - inversion Hmain; subst. split; [discriminate|reflexivity].
Qed.

(** X9.  Whatever the state of the session and whatever the handler does,
    the only errors that leave a tool call are [McpError]s, and a code
    other than [InternalError] is reported only when the handler itself
    raised an [McpError] with that code. *)
Theorem only_mcp_errors_leave {A} (name : jstring) (handler : JsValue -> M A)
    (w w' : World) (e : Exn) :
  CallToolRequest remote API_VERSION name handler w = (Throw e, w') ->
  exists code text,
    e = McpError code text
    /\ (code <> InternalError ->
        exists current w0 inner,
          handler current w0 = (Throw (McpError code inner), w')).
Proof.
  intros Hcall. unfold CallToolRequest in Hcall.
  destruct (getAxiosInstance_outcome w) as (i & Hi).
  apply bind_throw_inv in Hcall as [Hcall|(instance & w0 & Hinstance & Hcall)];
    [rewrite Hi in Hcall; discriminate Hcall|].
  clear Hi Hinstance.
  apply bind_throw_inv in Hcall as [Hcall|(current & w1 & Hname & Hcall)].
  - destruct (truthy (projectName w0)) eqn:Hcached.
    + rewrite getProjectName_cached in Hcall by exact Hcached.
      discriminate Hcall.
    + unfold getProjectName in Hcall. rewrite Hcached in Hcall.
      apply bind_throw_inv in Hcall as [Hcall|(? & ? & _ & Hcall)].
      * destruct (getAxiosInstance_outcome w0) as (i' & Hi').
        rewrite Hi' in Hcall. discriminate Hcall.
      * apply try_rethrow_throw_inv in Hcall as (e0 & _ & ->).
        eexists _, _. split; [reflexivity|]. intros H; congruence.
  - apply try_rethrow_throw_inv in Hcall as (e0 & Hhandler & ->).
    unfold tool_error. eexists _, _. split; [reflexivity|].
    intros Hcode. destruct e0; simpl in Hcode; try congruence.
    exists current, w1, message. exact Hhandler.
Qed.

End Boundary.

Lemma main_leaves_session_ready_witness :
  let run := main (host := sample_host) (always one_project) (js "7.1") true
               fresh in
  fst run = Running /\ ready (snd run).
Proof.
  intros run.
  assert (Hmain : run = (Running, snd run)) by (vm_compute; reflexivity).
  destruct (main_leaves_session_ready (host := sample_host)
              (always one_project) (js "7.1") true fresh (snd run) Running
              eq_refl Hmain) as [Hrun _].
  destruct (Hrun eq_refl) as (_ & Hready & _).
  split; [rewrite Hmain; reflexivity|exact Hready].
Defined.

Lemma only_mcp_errors_leave_witness :
  exists code text,
    fst (call_get_work_items_batch (host := sample_host)
           (always JNull) (js "7.2-preview")
           (mkBatchGetArgs (JArr []) JUndefined JUndefined JUndefined)
           (started (js "Demo")))
    = Throw (McpError code text).
Proof.
  pose (run := call_get_work_items_batch (host := sample_host)
                 (always JNull) (js "7.2-preview")
                 (mkBatchGetArgs (JArr []) JUndefined JUndefined JUndefined)
                 (started (js "Demo"))).
  assert (Hcall : run = (Throw (match fst run with Throw e => e | _ => TypeError end),
                         snd run)) by (vm_compute; reflexivity).
  destruct (only_mcp_errors_leave (host := sample_host) (always JNull)
              (js "7.2-preview") (js "get_work_items_batch") _ _ _ _ Hcall)
    as (code & text & He & _).
  exists code, text. fold run. rewrite Hcall. simpl. f_equal. exact He.
Defined.

(* ================================================================== *)
(** * [batch_update_work_items]: translation and tallies *)

Lemma map_indexed_all {A B} (f : nat -> A -> M B) (w : World) (l : list A) :
  forall k,
    (forall j y, nth_error l j = Some y ->
       exists b, f (k + j)%nat y w = (Ret b, w)) ->
    exists bs,
      map_indexed f k l w = (Ret bs, w)
      /\ List.length bs = List.length l
      /\ forall j y, nth_error l j = Some y ->
           exists b, nth_error bs j = Some b
                     /\ f (k + j)%nat y w = (Ret b, w).
Proof.
  induction l as [|x r IH]; intros k Hall; simpl.
  - exists []. split; [reflexivity|]. split; [reflexivity|].
    intros [|j] y Hy; discriminate Hy.
  - destruct (Hall 0%nat x eq_refl) as [b Hb].
    rewrite Nat.add_0_r in Hb.
    destruct (IH (S k)) as (bs & Hbs & Hlen & Hnth).
    { intros j y Hy. replace (S k + j)%nat with (k + S j)%nat by lia.
      apply Hall. exact Hy. }
    exists (b :: bs). split.
    { unfold bind at 1. rewrite Hb. unfold bind at 1. rewrite Hbs.
      reflexivity. }
    split; [simpl; rewrite Hlen; reflexivity|].
    intros [|j] y Hy; simpl in Hy.
    + inversion Hy; subst. exists b. rewrite Nat.add_0_r. auto.
    + destruct (Hnth j y Hy) as (b' & Hb' & Hf).
      exists b'. split; [exact Hb'|].
      replace (k + S j)%nat with (S k + j)%nat by lia. exact Hf.
Qed.

Section Batch.

Context {host : Host}.
Variable remote : Remote.
Variable API_VERSION : jstring.

Lemma quiet_is_success (r : JsValue) : quiet (is_success r).
Proof.
  unfold is_success. apply quiet_bind; [apply quiet_get|].
  intros code. apply quiet_ret.
Qed.

(** A well-formed operation is translated into an inner request with the
    method of the operation. *)
Lemma batch_request_translated (currentProjectName : JsValue) (index : nat)
    (op : JsValue) (w : World) :
  nullish op = false ->
  malformed op = false ->
  exists uri body,
    batch_request API_VERSION currentProjectName index op w
    = (Ret (inner_request (optional op (js "method")) uri body), w).
Proof.
  intros Hop Hok. unfold batch_request. unfold malformed in Hok.
  repeat rewrite (get_optional op) by exact Hop.
  unfold bind, ret, throw.
  destruct (is_string "PATCH" (optional op (js "method"))); simpl in *.
  { destruct (truthy (optional op (js "workItemId"))); simpl in *;
      [eexists _, _; reflexivity|discriminate Hok]. }
  destruct (is_string "POST" (optional op (js "method"))) eqn:Hpost.
  { rewrite (post_is_not_delete _ Hpost) in Hok. simpl in Hok.
    destruct (truthy (optional op (js "workItemType"))); simpl in *;
      [eexists _, _; reflexivity|discriminate Hok]. }
  destruct (is_string "DELETE" (optional op (js "method"))); simpl in *.
  { destruct (truthy (optional op (js "workItemId"))); simpl in *;
      [eexists _, _; reflexivity|discriminate Hok]. }
  discriminate Hok.
Qed.

(** X10.  A batch whose operations are all well formed is sent as one
    request, a [PATCH] of the [$batch] address, whose body holds one inner
    request for each operation, in the order of the operations and with the
    method of each. *)
Theorem batch_update_translates_each_operation (args : BatchUpdateArgs)
    (ops : list JsValue) (w : World) :
  ready w ->
  batch_operations args = JArr ops ->
  ops <> [] ->
  (forall op, In op ops -> nullish op = false /\ malformed op = false) ->
  exists inner,
    sent (snd (call_batch_update_work_items remote API_VERSION args w))
    = sent w
      ++ [mkRequest PATCH (batch_url API_VERSION args) (Json (JArr inner))
            [(js "Content-Type", js "application/json")]]
    /\ List.length inner = List.length ops
    /\ forall i op, nth_error ops i = Some op ->
         exists uri body,
           nth_error inner i
           = Some (inner_request (optional op (js "method")) uri body).
Proof.
  intros Hready Hops Hne Hall.
  unfold call_batch_update_work_items.
  rewrite CallToolRequest_ready_world by exact Hready.
  unfold batch_update_work_items. rewrite Hops.
  assert (Hlen : (Z.of_nat (List.length ops) =? 0) = false).
  { destruct ops; [congruence|]. simpl List.length. apply Z.eqb_neq. lia. }
  rewrite Hlen.
  destruct (map_indexed_all (batch_request API_VERSION (projectName w)) w ops 0)
    as (inner & Hinner & Hlength & Hnth).
  { intros j y Hy. simpl.
    destruct (Hall y (nth_error_In _ _ Hy)) as [Hobj Hok].
    destruct (batch_request_translated (projectName w) j y w Hobj Hok)
      as (uri & body & Hreq).
    eexists. exact Hreq. }
  exists inner. split; [|split; [exact Hlength|]].
  - unfold bind at 1. rewrite Hinner.
    unfold batch_url. cbv zeta.
    match goal with
    | |- context [bind (send remote ?r) ?k w] =>
        assert (Hsent : sent (snd (bind (send remote r) k w))
                        = sent w ++ [r])
    end.
    { unfold bind at 1. rewrite send_outcome.
      destruct (remote (sent w) _) as [data|message]; [|reflexivity].
      unfold bind at 1. unfold get.
      destruct (prop data (js "value")) as [results|]; [|reflexivity].
      unfold ret at 1. unfold bind at 1.
      match goal with
      | |- context [array_items results ?w1] =>
          destruct (quiet_array_items results w1) as [[items ->]| ->]
      end; [|reflexivity].
      unfold bind at 1.
      match goal with
      | |- context [map_indexed ?f 0%nat items ?w1] =>
          destruct (quiet_map_indexed f items
                      (fun _ => quiet_is_success) 0%nat w1)
            as [[flags ->]| ->]
      end; reflexivity. }
    exact Hsent.
  - intros i op Hop.
    destruct (Hnth i op Hop) as (b & Hb & Hf). simpl in Hf.
    destruct (Hall op (nth_error_In _ _ Hop)) as [Hobj Hok].
    destruct (batch_request_translated (projectName w) i op w Hobj Hok)
      as (uri & body & Hreq).
    rewrite Hreq in Hf. inversion Hf; subst.
    exists uri, body. exact Hb.
Qed.

End Batch.

Lemma silent_ret {A} (a : A) : silent (ret a).
Proof. intros w; reflexivity. Qed.

Lemma silent_throw {A} (e : Exn) : silent (@throw A e).
Proof. intros w; reflexivity. Qed.

Lemma silent_bind {A B} (m : M A) (k : A -> M B) :
  silent m -> (forall a, silent (k a)) -> silent (bind m k).
Proof.
  intros Hm Hk w. unfold bind. specialize (Hm w).
  destruct (m w) as [[a|e|] w1]; simpl in *; subst; try reflexivity.
  apply Hk.
Qed.

Lemma silent_get (v : JsValue) (k : jstring) : silent (get v k).
Proof. unfold get. destruct (prop v k); [apply silent_ret|apply silent_throw]. Qed.

Lemma silent_map_indexed {A B} (f : nat -> A -> M B) (l : list A) :
  (forall i x, silent (f i x)) -> forall i, silent (map_indexed f i l).
Proof.
  intros Hf. induction l as [|x r IH]; intros i; simpl.
  - apply silent_ret.
  - apply silent_bind; [apply Hf|]. intros y.
    apply silent_bind; [apply IH|]. intros ys. apply silent_ret.
Qed.

Section BatchTally.

Context {host : Host}.
Variable remote : Remote.
Variable API_VERSION : jstring.

Lemma silent_batch_request (currentProjectName : JsValue) (index : nat)
    (op : JsValue) :
  silent (batch_request API_VERSION currentProjectName index op).
Proof.
  unfold batch_request.
  repeat (apply silent_bind; [apply silent_get|intros ?]).
  repeat match goal with
         | |- silent (if ?c then _ else _) => destruct c
         end;
    first [apply silent_ret|apply silent_throw].
Qed.

Lemma is_success_ret_inv (r : JsValue) (w w' : World) (b : bool) :
  is_success r w = (Ret b, w') -> b = succeeded r /\ w' = w.
Proof.
  unfold is_success. intros H.
  apply bind_ret_inv in H as (code & w1 & Hget & Hret).
  apply get_ret_inv in Hget as [Hprop ->].
  unfold ret in Hret. inversion Hret; subst.
  unfold succeeded, optional. rewrite Hprop. split; reflexivity.
Qed.

Lemma is_success_flags (l : list JsValue) :
  forall k w w' flags,
    map_indexed (fun _ : nat => is_success) k l w = (Ret flags, w') ->
    flags = map succeeded l /\ w' = w.
Proof.
  induction l as [|r l IH]; intros k w w' flags H; simpl in H.
  - unfold ret in H. inversion H; subst. split; reflexivity.
  - apply bind_ret_inv in H as (b & w1 & Hb & H).
    apply is_success_ret_inv in Hb as [-> ->].
    apply bind_ret_inv in H as (bs & w2 & Hbs & H).
    apply IH in Hbs as [-> ->].
    unfold ret in H. inversion H; subst. split; reflexivity.
Qed.

Lemma filter_map_length {A} (f : A -> bool) (l : list A) :
  List.length (filter (fun b : bool => b) (map f l))
  = List.length (filter f l).
Proof.
  induction l as [|x l IH]; [reflexivity|].
  simpl. destruct (f x); simpl; rewrite IH; reflexivity.
Qed.

Lemma filter_complement_length {A} (f : A -> bool) (l : list A) :
  (List.length (filter f l) + List.length (filter (fun x => negb (f x)) l)
   = List.length l)%nat.
Proof.
  induction l as [|x l IH]; [reflexivity|].
  simpl. destruct (f x); simpl; lia.
Qed.

(** X11.  The report of a batch.  A call that returns has read the array of
    results from the reply to its one request, and its text gives two
    counts: the results whose status code lies in [200, 300), and all the
    other results; the two add up to the number of results. *)
Theorem batch_update_tallies (args : BatchUpdateArgs) (w w' : World)
    (text : jstring) :
  ready w ->
  call_batch_update_work_items remote API_VERSION args w = (Ret text, w') ->
  exists request data results,
    w' = sending w [request]
    /\ remote (sent w) request = Replied data
    /\ prop data (js "value") = Some (JArr results)
    /\ let successes := Z.of_nat (List.length (filter succeeded results)) in
       let failures :=
         Z.of_nat (List.length (filter (fun r => negb (succeeded r)) results)) in
       text = js "批次操作完成：" ++ dec successes ++ js " 個成功，"
              ++ dec failures ++ js " 個失敗"
       /\ successes + failures = Z.of_nat (List.length results).
Proof.
  intros Hready Hcall.
  apply CallToolRequest_ret_inv in Hcall; [|exact Hready].
  unfold batch_update_work_items in Hcall.
  destruct (batch_operations args) as [| | | | |ops|]; try discriminate Hcall.
  destruct (Z.of_nat (List.length ops) =? 0); [discriminate Hcall|].
  apply bind_ret_inv in Hcall as (inner & w1 & Hinner & Hcall).
  assert (Hw1 : w1 = w).
  { pose proof (silent_map_indexed
                  (batch_request API_VERSION (projectName w)) ops
                  (fun i x => silent_batch_request (projectName w) i x) 0%nat w)
      as Hsilent.
    rewrite Hinner in Hsilent. exact Hsilent. }
  subst w1.
  apply bind_ret_inv in Hcall as (data & w1 & Hsend & Hcall).
  apply send_ret_inv in Hsend as [Hreply ->].
  apply bind_ret_inv in Hcall as (results & w1 & Hget & Hcall).
  apply get_ret_inv in Hget as [Hvalue ->].
  apply bind_ret_inv in Hcall as (items & w1 & Hitems & Hcall).
  destruct results; try discriminate Hitems.
  unfold array_items, ret in Hitems. inversion Hitems; subst; clear Hitems.
  apply bind_ret_inv in Hcall as (flags & w1 & Hflags & Hcall).
  apply is_success_flags in Hflags as [-> ->].
  unfold ret in Hcall. inversion Hcall; subst; clear Hcall.
  eexists _, data, items.
  split; [reflexivity|]. split; [exact Hreply|]. split; [exact Hvalue|].
  cbv zeta.
  pose proof (filter_complement_length succeeded items) as Hsum.
  rewrite filter_map_length.
  replace (Z.of_nat (List.length items)
           - Z.of_nat (List.length (filter succeeded items)))
    with (Z.of_nat (List.length (filter (fun r => negb (succeeded r)) items)))
    by lia.
  split; [reflexivity|lia].
Qed.


End BatchTally.

Lemma batch_update_translates_each_operation_witness :
  exists inner,
    sent (snd (call_batch_update_work_items (host := sample_host)
                 (always mixed_results) (js "7.2-preview") one_update
                 (started (js "Demo"))))
    = sent (started (js "Demo"))
      ++ [mkRequest PATCH
            (batch_url (js "7.2-preview") one_update)
            (Json (JArr inner)) [(js "Content-Type", js "application/json")]]
    /\ List.length inner = 1%nat.
Proof.
  assert (Hall : forall op,
            In op [JObj [(js "method", JStr (js "PATCH"));
                         (js "workItemId", JNum 12);
                         (js "updates",
                          JObj [(js "System.State", JStr (js "Done"))])]] ->
            nullish op = false /\ malformed op = false).
  { intros op [<-|[]]. split; vm_compute; reflexivity. }
  destruct (batch_update_translates_each_operation (host := sample_host)
              (always mixed_results) (js "7.2-preview") one_update _
              (started (js "Demo")) (ready_started (js "Demo") eq_refl)
              eq_refl ltac:(discriminate) Hall)
    as (inner & Hsent & Hlen & _).
  exists inner. split; [exact Hsent|exact Hlen].
Defined.

Lemma batch_update_tallies_witness :
  let run := call_batch_update_work_items (host := sample_host)
               (always mixed_results) (js "7.2-preview") one_update
               (started (js "Demo")) in
  fst run = Ret (js "批次操作完成：1 個成功，2 個失敗")
  /\ exists results,
       prop mixed_results (js "value") = Some (JArr results)
       /\ Z.of_nat (List.length (filter (succeeded (host := sample_host))
                                   results))
          + Z.of_nat (List.length
                        (filter (fun r => negb (succeeded (host := sample_host) r))
                           results))
          = Z.of_nat (List.length results).
Proof.
  intros run.
  assert (Hcall : run = (Ret (js "批次操作完成：1 個成功，2 個失敗"), snd run))
    by (vm_compute; reflexivity).
  split; [rewrite Hcall; reflexivity|].
  destruct (batch_update_tallies (host := sample_host) (always mixed_results)
              (js "7.2-preview") one_update (started (js "Demo")) (snd run) _
              (ready_started (js "Demo") eq_refl) Hcall)
    as (request & data & results & _ & Hreply & Hvalue & _ & Hsum).
  inversion Hreply; subst data.
  exists results. split; [exact Hvalue|exact Hsum].
Defined.

(* ================================================================== *)
(** * [create_work_item]: checks and defaults *)

Section Create.

Context {host : Host}.
Variable remote : Remote.
Variable API_VERSION : jstring.

(** X12.  [create_work_item] without a type or a title raises
    [InvalidParams] and sends nothing.  With both, and no area path and no
    iteration path, it sends one [POST] whatever the service replies: the
    project of the address is the [projectName] argument, or the default
    project when that is absent; title, area path and iteration path are
    always set, the two paths to that same project; description, assignee
    and tags are set only when given and not empty, in this order. *)
Theorem create_work_item_defaults (args : CreateArgs) (w : World) :
  ready w ->
  let run := call_create_work_item remote API_VERSION args w in
  let target := coalesce (create_projectName args) (projectName w) in
  (truthy (create_type args) = false \/ truthy (create_title args) = false ->
     run = (Throw (tool_error (js "create_work_item")
                     (McpError InvalidParams
                        (js "缺少必要的參數: type 和 title"))),
            w))
  /\ (truthy (create_type args) = true ->
      truthy (create_title args) = true ->
      nullish (create_areaPath args) = true ->
      nullish (create_iterationPath args) = true ->
      snd run
      = sending w
          [mkRequest POST
             (js "/" ++ encode target ++ js "/_apis/wit/workitems/$"
              ++ encode (create_type args) ++ js "?api-version="
              ++ API_VERSION)
             (Json (JArr
                (add_field "/fields/System.Title" (create_title args)
                 :: add_field "/fields/System.AreaPath" target
                 :: add_field "/fields/System.IterationPath" target
                 :: given_fields
                      [("/fields/System.Description"%string,
                        create_description args);
                       ("/fields/System.AssignedTo"%string,
                        create_assignedTo args);
                       ("/fields/System.Tags"%string, create_tags args)])))
             JSON_PATCH]).
Proof.
  intros Hready run target. unfold run. split.
  - intros Hmissing. unfold call_create_work_item.
    rewrite CallToolRequest_ready by exact Hready.
    unfold create_work_item.
    assert (Hcond : negb (truthy (create_type args))
                    || negb (truthy (create_title args)) = true).
    { destruct Hmissing as [-> | ->]; [reflexivity|apply orb_true_r]. }
    rewrite Hcond. reflexivity.
  - intros Htype Htitle Harea Hiteration. unfold call_create_work_item.
    rewrite CallToolRequest_ready_world by exact Hready.
    unfold create_work_item. rewrite Htype, Htitle.
    change (negb true || negb true) with false. cbv iota. fold target.
    assert (Ha : coalesce (create_areaPath args) target = target)
      by (unfold coalesce; rewrite Harea; reflexivity).
    assert (Hi : coalesce (create_iterationPath args) target = target)
      by (unfold coalesce; rewrite Hiteration; reflexivity).
    rewrite Ha, Hi. unfold given_fields. cbn [filter map fst snd].
    unfold bind at 1. rewrite send_outcome.
    destruct (truthy (create_description args)),
      (truthy (create_assignedTo args)), (truthy (create_tags args));
      cbn [filter map fst snd app];
      (destruct (remote (sent w) _) as [data|message]; [|reflexivity]);
      unfold bind; unfold get; destruct (prop data (js "id")); reflexivity.
Qed.

End Create.

(* ================================================================== *)
(** * [upload_work_item_attachment]: checks and aborted uploads *)

Section UploadChecks.

Context {host : Host}.
Variable remote : Remote.
Variable API_VERSION : jstring.

(** X13.  The upload is refused with [InvalidParams], and nothing is sent,
    when the work item id is not a number, or the file name or the content
    is missing or empty; and, for a content that is a number or [true], when
    Node refuses to build a buffer from it: that is the one case in which
    the error about Base64 is raised. *)
Theorem upload_rejects_before_network (fuel : nat) (args : UploadArgs)
    (w : World) :
  ready w ->
  let run := call_upload_work_item_attachment remote API_VERSION fuel args w in
  (is_number (upload_workItemId args) = false
   \/ truthy (upload_fileName args) = false
   \/ truthy (upload_fileContentBase64 args) = false ->
     run = (Throw (tool_error (js "upload_work_item_attachment")
                     (McpError InvalidParams
                        (js "缺少必要的參數: workItemId (數字), fileName (字串), fileContentBase64 (字串)"))),
            w))
  /\ (is_number (upload_workItemId args) = true ->
      truthy (upload_fileName args) = true ->
      (exists n, upload_fileContentBase64 args = JNum n /\ n <> 0)
      \/ upload_fileContentBase64 args = JBool true ->
      run = (Throw (tool_error (js "upload_work_item_attachment")
                      (McpError InvalidParams
                         (js "無效的參數: fileContentBase64 無法被解析為 Base64"))),
             w)).
Proof.
  intros Hready run. unfold run, call_upload_work_item_attachment.
  rewrite CallToolRequest_ready by exact Hready.
  unfold upload_work_item_attachment. split.
  - intros Hmissing.
    assert (Hcond : negb (is_number (upload_workItemId args))
                    || negb (truthy (upload_fileName args))
                    || negb (truthy (upload_fileContentBase64 args)) = true).
    { destruct Hmissing as [-> |[-> | ->]];
        [reflexivity|rewrite orb_true_r; reflexivity|apply orb_true_r]. }
    rewrite Hcond. reflexivity.
  - intros Hid Hname Hcontent. rewrite Hid, Hname.
    destruct Hcontent as [(n & -> & Hn)| ->].
    + assert (Htruthy : truthy (JNum n) = true)
        by (simpl; destruct (Z.eqb_spec n 0); [contradiction|reflexivity]).
      rewrite Htruthy. reflexivity.
    + reflexivity.
Qed.

End UploadChecks.


(* ================================================================== *)
(** * [link_commit_to_work_item] *)

Lemma jstring_eqb_refl (a : jstring) : jstring_eqb a a = true.
Proof.
  induction a as [|x a IH]; [reflexivity|].
  simpl. rewrite N.eqb_refl, IH. reflexivity.
Qed.

Lemma is_not_40_spec (n : Z) : is_not_40 (JNum n) = negb (n =? 40).
Proof.
  destruct n as [|p|p]; try reflexivity.
  do 6 (destruct p as [p|p|]; try reflexivity).
Qed.

Lemma strip_trailing_slash_added (u : jstring) :
  strip_trailing_slash (u ++ [SLASH]) = u.
Proof.
  unfold strip_trailing_slash. rewrite rev_app_distr.
  change (rev [SLASH] ++ rev u) with (SLASH :: rev u).
  cbv iota. rewrite N.eqb_refl. apply rev_involutive.
Qed.

Lemma strip_trailing_slash_none (u : jstring) :
  (forall v, u <> v ++ [SLASH]) -> strip_trailing_slash u = u.
Proof.
  intros Hu. unfold strip_trailing_slash.
  destruct (rev u) as [|c r] eqn:Hrev; [reflexivity|].
  destruct (N.eqb_spec c SLASH) as [->|_]; [|reflexivity].
  exfalso. apply (Hu (rev r)).
  rewrite <- (rev_involutive u), Hrev. reflexivity.
Qed.

Lemma get_length_string (s : jstring) :
  get (JStr s) (js "length") = ret (JNum (Z.of_nat (List.length s))).
Proof. unfold get, prop. rewrite jstring_eqb_refl. reflexivity. Qed.

Lemma bind_ret_l {A B} (a : A) (k : A -> M B) : bind (ret a) k = k a.
Proof. reflexivity. Qed.

Section LinkCommit.

Context {host : Host}.
Variable remote : Remote.
Variable API_VERSION : jstring.

(** X15.  The address of the commit that is linked does not depend on
    whether the organisation URL is configured with a slash at its end:
    one such slash is dropped before the path is appended. *)
Theorem commit_url_ignores_trailing_slash (orgUrl : jstring)
    (targetProjectName repositoryName commitSha : JsValue) :
  (forall v, orgUrl <> v ++ [SLASH]) ->
  commit_url (orgUrl ++ [SLASH]) targetProjectName repositoryName commitSha
  = commit_url orgUrl targetProjectName repositoryName commitSha
  /\ commit_url orgUrl targetProjectName repositoryName commitSha
     = orgUrl ++ js "/" ++ encode targetProjectName ++ js "/_git/"
       ++ encode repositoryName ++ js "/commit/" ++ to_string commitSha.
Proof.
  intros Hu. unfold commit_url.
  rewrite strip_trailing_slash_added, (strip_trailing_slash_none _ Hu).
  split; reflexivity.
Qed.

(** X16.  [link_commit_to_work_item] with a work item id, a repository and
    a commit SHA given as text: a SHA that is not 40 characters long is
    refused with [InvalidParams] and nothing is sent; a SHA of 40 characters
    gives exactly one request, a [PATCH] that adds an [ArtifactLink] to the
    commit, and when the service accepts it the text returned names the
    first seven characters of the SHA. *)
Theorem link_commit_checks_sha (args : LinkCommitArgs) (sha : jstring)
    (w : World) :
  ready w ->
  is_number (link_workItemId args) = true ->
  truthy (link_repositoryName args) = true ->
  link_commitSha args = JStr sha ->
  nonempty sha = true ->
  let run := call_link_commit_to_work_item remote API_VERSION args w in
  let target := coalesce (link_projectName args) (projectName w) in
  let request :=
    commit_link_request API_VERSION (link_workItemId args) target
      (commit_url ORG_URL target (link_repositoryName args) (JStr sha))
      (coalesce (link_comment args) (JStr (js "Linked by MCP Server"))) in
  (List.length sha <> 40%nat ->
     run = (Throw (tool_error (js "link_commit_to_work_item")
                     (McpError InvalidParams
                        (js "無效的參數: commitSha 必須是 40 個字元的 SHA"))),
            w))
  /\ (List.length sha = 40%nat ->
      snd run = sending w [request]
      /\ forall data,
           remote (sent w) request = Replied data ->
           fst run = Ret (js "成功將 Commit " ++ firstn 7 sha
                          ++ js " 連結到 Work Item "
                          ++ to_string (link_workItemId args))).
Proof.
  intros Hready Hid Hrepo Hsha Htext run target request.
  unfold run, call_link_commit_to_work_item.
  rewrite CallToolRequest_ready by exact Hready.
  unfold link_commit_to_work_item. rewrite Hid, Hrepo, Hsha.
  change (truthy (JStr sha)) with (nonempty sha). rewrite Htext.
  change (negb true || negb true || negb true) with false. cbv iota.
  rewrite get_length_string, bind_ret_l, is_not_40_spec.
  split.
  - intros Hlen.
    destruct (Z.eqb_spec (Z.of_nat (List.length sha)) 40) as [E|_]; [lia|].
    reflexivity.
  - intros Hlen. rewrite Hlen. change (negb (Z.of_nat 40 =? 40)) with false.
    cbv iota. fold target. fold request.
    unfold bind. rewrite send_outcome.
    destruct (remote (sent w) request) as [data|message].
    + unfold substring_0_7, ret. cbv beta iota. cbn [fst snd].
      split; [reflexivity|]. intros data' _. reflexivity.
    + cbv beta iota. cbn [fst snd].
      split; [reflexivity|]. intros data' H. discriminate H.
Qed.

End LinkCommit.

(* ================================================================== *)
(** * [list_work_item_attachments] *)

Lemma split_not_nil (sep : N) (s : jstring) : split sep s <> [].
Proof.
  destruct s as [|c r]; simpl; [discriminate|].
  destruct (c =? sep)%N; [discriminate|].
  destruct (split sep r); discriminate.
Qed.

Lemma split_app_separator (sep : N) (p r : jstring) :
  split sep (p ++ sep :: r) = split sep p ++ split sep r.
Proof.
  induction p as [|c p IH]; simpl.
  - rewrite N.eqb_refl. reflexivity.
  - destruct (c =? sep)%N; [rewrite IH; reflexivity|].
    rewrite IH.
    destruct (split sep p) as [|h t] eqn:Hp;
      [exfalso; exact (split_not_nil sep p Hp)|].
    reflexivity.
Qed.

Lemma split_segments_clean (sep : N) (s : jstring) :
  Forall (fun segment => ~ In sep segment) (split sep s).
Proof.
  induction s as [|c r IH]; simpl.
  - constructor; [intros []|constructor].
  - destruct (N.eqb_spec c sep) as [->|Hc].
    + constructor; [intros []|exact IH].
    + destruct (split sep r) as [|h t]; [repeat constructor; intros [E|[]]; congruence|].
      inversion IH; subst. constructor; [|assumption].
      intros [E|Hin]; [congruence|contradiction].
Qed.

Lemma last_app_not_nil {A} (l1 l2 : list A) (d : A) :
  l2 <> [] -> last (l1 ++ l2) d = last l2 d.
Proof.
  intros Hne. induction l1 as [|x l1 IH]; [reflexivity|].
  simpl. destruct (l1 ++ l2) eqn:E; [|exact IH].
  apply app_eq_nil in E as [_ E]. contradiction.
Qed.

Lemma last_in_forall {A} (P : A -> Prop) (l : list A) (d : A) :
  l <> [] -> Forall P l -> P (last l d).
Proof.
  intros Hne Hall. induction Hall as [|x l Hx Hl IH]; [congruence|].
  destruct l as [|y l]; [exact Hx|]. apply IH. discriminate.
Qed.

(** X17.  The id listed for an attachment is the text after the last slash
    of its address: it holds no slash, it is the whole address when the
    address has none, and for an address [prefix/id] it is [id]. *)
Theorem attachment_id_is_last_segment (url : jstring) :
  ~ In SLASH (last_segment url)
  /\ (~ In SLASH url -> last_segment url = url)
  /\ forall prefix id,
       url = prefix ++ SLASH :: id -> ~ In SLASH id -> last_segment url = id.
Proof.
  unfold last_segment. split; [|split].
  - apply (last_in_forall (fun segment => ~ In SLASH segment));
      [apply split_not_nil|apply split_segments_clean].
  - intros Hclean. rewrite split_without_separator by exact Hclean.
    reflexivity.
  - intros prefix id -> Hid. rewrite split_app_separator.
    rewrite last_app_not_nil by apply split_not_nil.
    rewrite split_without_separator by exact Hid. reflexivity.
Qed.

Section Attachments.

Context {host : Host}.
Variable remote : Remote.
Variable API_VERSION : jstring.

Lemma filter_attached (rels : list JsValue) (w : World) :
  (forall rel, In rel rels -> nullish rel = false) ->
  filter_m is_attached_file rels w = (Ret (filter attached_file rels), w).
Proof.
  induction rels as [|rel rels IH]; intros Hall; [reflexivity|].
  simpl. unfold is_attached_file at 1.
  rewrite (get_optional rel) by (apply Hall; left; reflexivity).
  unfold bind at 1. unfold bind at 1. unfold ret at 1. unfold ret at 1.
  cbv beta iota. unfold bind at 1.
  rewrite IH by (intros r Hr; apply Hall; right; exact Hr).
  unfold ret. fold (attached_file rel).
  destruct (attached_file rel); reflexivity.
Qed.

Lemma attachment_info_entry (rel : JsValue) (w : World) :
  nullish rel = false ->
  has_text_url rel = true ->
  attachment_info rel w = (Ret (attachment_entry rel), w).
Proof.
  intros Hrel Hurl. unfold attachment_info, attachment_entry.
  rewrite !(get_optional rel) by exact Hrel.
  unfold has_text_url in Hurl.
  destruct (optional rel (js "url")) as [| | | |u| |]; try discriminate Hurl.
  reflexivity.
Qed.

Lemma map_attachment_info (rels : list JsValue) (w : World) :
  (forall rel, In rel rels -> nullish rel = false /\ has_text_url rel = true) ->
  forall k,
    map_indexed (fun _ : nat => attachment_info) k rels w
    = (Ret (map attachment_entry rels), w).
Proof.
  induction rels as [|rel rels IH]; intros Hall k; [reflexivity|].
  simpl. unfold bind at 1.
  destruct (Hall rel (or_introl eq_refl)) as [Hrel Hurl].
  rewrite attachment_info_entry by assumption.
  unfold bind at 1.
  rewrite IH by (intros r Hr; apply Hall; right; exact Hr).
  reflexivity.
Qed.

(** X18.  Listing the attachments of a work item whose relations the
    service returns: the call sends one [GET], and lists exactly the
    relations of kind [AttachedFile], in their order, each with the last
    segment of its address as id; when there is none the result is the
    text ["... 沒有找到任何附件。"], not an error. *)
Theorem list_attachments_of_relations (args : ListAttachmentsArgs)
    (data relations : JsValue) (rels : list JsValue) (w : World) :
  ready w ->
  is_number (attachments_workItemId args) = true ->
  let target := coalesce (attachments_projectName args) (projectName w) in
  let request :=
    attachments_request API_VERSION (attachments_workItemId args) target in
  remote (sent w) request = Replied data ->
  prop data (js "relations") = Some relations ->
  coalesce relations (JArr []) = JArr rels ->
  (forall rel, In rel rels ->
     nullish rel = false
     /\ (attached_file rel = true -> has_text_url rel = true)) ->
  call_list_work_item_attachments remote API_VERSION args w
  = (Ret (match filter attached_file rels with
          | [] => js "Work Item " ++ to_string (attachments_workItemId args)
                  ++ js " 沒有找到任何附件。"
          | attached =>
              JSON_stringify
                (JArr (map (fun rel =>
                              with_download_url API_VERSION target
                                (attachment_entry rel)) attached))
          end),
     sending w [request]).
Proof.
  intros Hready Hid target request Hreply Hrelations Hrels Hall.
  unfold call_list_work_item_attachments.
  rewrite CallToolRequest_ready by exact Hready.
  unfold list_work_item_attachments. rewrite Hid.
  change (negb true) with false. cbv iota. fold target. fold request.
  unfold bind at 1. rewrite send_outcome, Hreply.
  unfold bind at 1. unfold get. rewrite Hrelations. unfold ret at 1.
  rewrite Hrels. unfold bind at 1. unfold array_items, ret at 1.
  unfold bind at 1.
  rewrite filter_attached by (intros rel Hrel; apply Hall; exact Hrel).
  unfold bind at 1.
  rewrite map_attachment_info.
  2:{ intros rel Hrel. apply filter_In in Hrel as [Hin Hattached].
      destruct (Hall rel Hin) as [Hnull Hurl]. auto. }
  rewrite length_map.
  destruct (filter attached_file rels) as [|rel attached]; [reflexivity|].
  simpl List.length.
  destruct (Z.eqb_spec (Z.of_nat (S (List.length attached))) 0) as [E|_];
    [lia|].
  unfold ret. rewrite map_map. reflexivity.
Qed.

End Attachments.

(* ================================================================== *)
(** * Errors about the arguments come before any request *)

Lemma never_invalid_ret {A} (a : A) : never_invalid (ret a).
Proof. intros w; reflexivity. Qed.

Lemma never_invalid_throw {A} (e : Exn) :
  reports_invalid (@Throw A e) = false -> never_invalid (@throw A e).
Proof. intros He w. exact He. Qed.

Lemma never_invalid_out_of_fuel {A} : never_invalid (@out_of_fuel A).
Proof. intros w; reflexivity. Qed.

Lemma never_invalid_bind {A B} (m : M A) (k : A -> M B) :
  never_invalid m -> (forall a, never_invalid (k a)) -> never_invalid (bind m k).
Proof.
  intros Hm Hk w. unfold bind. specialize (Hm w).
  destruct (m w) as [[a|e|] w1]; simpl in *; [apply Hk|exact Hm|reflexivity].
Qed.

Lemma never_invalid_get (v : JsValue) (k : jstring) : never_invalid (get v k).
Proof.
  unfold get. destruct (prop v k);
    [apply never_invalid_ret|apply never_invalid_throw; reflexivity].
Qed.

Lemma never_invalid_array_items (v : JsValue) : never_invalid (array_items v).
Proof.
  destruct v; simpl;
    first [apply never_invalid_ret|apply never_invalid_throw; reflexivity].
Qed.

Lemma never_invalid_map_indexed {A B} (f : nat -> A -> M B) (l : list A) :
  (forall i x, never_invalid (f i x)) ->
  forall i, never_invalid (map_indexed f i l).
Proof.
  intros Hf. induction l as [|x r IH]; intros i; simpl.
  - apply never_invalid_ret.
  - apply never_invalid_bind; [apply Hf|]. intros y.
    apply never_invalid_bind; [apply IH|]. intros ys. apply never_invalid_ret.
Qed.

Lemma never_invalid_filter_m {A} (f : A -> M bool) (l : list A) :
  (forall x, never_invalid (f x)) -> never_invalid (filter_m f l).
Proof.
  intros Hf. induction l as [|x r IH]; simpl.
  - apply never_invalid_ret.
  - apply never_invalid_bind; [apply Hf|]. intros keep.
    apply never_invalid_bind; [exact IH|]. intros rest. apply never_invalid_ret.
Qed.

Lemma checks_first_never {A} (m : M A) : never_invalid m -> checks_first m.
Proof. intros Hm w Hw. rewrite Hm in Hw. discriminate Hw. Qed.

Lemma checks_first_throw {A} (e : Exn) : checks_first (@throw A e).
Proof. intros w _. reflexivity. Qed.

Lemma checks_first_bind {A B} (m : M A) (k : A -> M B) :
  silent m -> (forall a, checks_first (k a)) -> checks_first (bind m k).
Proof.
  intros Hm Hk w. unfold bind. specialize (Hm w).
  destruct (m w) as [[a|e|] w1]; simpl in *; subst w1;
    [apply Hk|reflexivity|reflexivity].
Qed.

Lemma silent_keys_length (v : JsValue) : silent (keys_length v).
Proof.
  unfold keys_length. destruct (nullish v); [apply silent_throw|apply silent_ret].
Qed.

Section ChecksFirst.

Context {host : Host}.
Variable remote : Remote.
Variable API_VERSION : jstring.

Lemma never_invalid_send (r : Request) : never_invalid (send remote r).
Proof. intros w. unfold send. destruct (remote (sent w) r); reflexivity. Qed.

Lemma silent_Buffer_from_checked (v : JsValue) (e : Exn) :
  silent (try_catch (Buffer_from v) (fun _ => throw e)).
Proof.
  intros w. unfold try_catch, Buffer_from.
  destruct v; try reflexivity; destruct (buffer_from_object _); reflexivity.
Qed.

Lemma never_invalid_upload_chunks (fuel : nat) (url : jstring) (buf : Buffer)
    (chunkSize : Num) :
  forall start, never_invalid (upload_chunks remote fuel url buf chunkSize start).
Proof.
  induction fuel as [|fuel IH]; intros start; simpl;
    destruct (num_ltb start (num_of_Z (Z.of_nat (List.length buf))));
    try apply never_invalid_ret; try apply never_invalid_out_of_fuel.
  apply never_invalid_bind; [apply never_invalid_send|]. intros _. apply IH.
Qed.

Ltac never_invalid_step :=
  first
    [ apply never_invalid_ret
    | apply never_invalid_send
    | apply never_invalid_get
    | apply never_invalid_array_items
    | apply never_invalid_upload_chunks
    | apply never_invalid_throw; reflexivity
    | apply never_invalid_map_indexed; intros ? ?
    | apply never_invalid_filter_m; intros ?
    | apply never_invalid_bind; [|intros ?] ].

Lemma never_invalid_batch_item_text (item : JsValue) :
  never_invalid (batch_item_text item).
Proof. unfold batch_item_text. repeat never_invalid_step. Qed.

Lemma never_invalid_is_success (r : JsValue) : never_invalid (is_success r).
Proof. unfold is_success. repeat never_invalid_step. Qed.

Lemma never_invalid_attachment_info (rel : JsValue) :
  never_invalid (attachment_info rel).
Proof.
  unfold attachment_info. repeat never_invalid_step.
  unfold split_slash.
  match goal with |- never_invalid (match ?v with _ => _ end) => destruct v end;
    repeat never_invalid_step.
Qed.

Lemma never_invalid_is_attached_file (rel : JsValue) :
  never_invalid (is_attached_file rel).
Proof. unfold is_attached_file. repeat never_invalid_step. Qed.

Lemma checks_first_create (args : CreateArgs) (current : JsValue) :
  checks_first (create_work_item remote API_VERSION args current).
Proof.
  unfold create_work_item.
  destruct (negb (truthy (create_type args)) || negb (truthy (create_title args)));
    [apply checks_first_throw|].
  apply checks_first_never. repeat never_invalid_step.
Qed.

Lemma checks_first_update (args : UpdateArgs) (current : JsValue) :
  checks_first (update_work_item remote API_VERSION args current).
Proof.
  unfold update_work_item. apply checks_first_bind.
  - destruct (negb (is_number (update_id args))); [apply silent_ret|].
    destruct (negb (is_object (update_updates args))); [apply silent_ret|].
    apply silent_bind; [apply silent_keys_length|intros n; apply silent_ret].
  - intros [|]; [apply checks_first_throw|].
    apply checks_first_bind; [apply silent_get|]. intros assignee.
    destruct (truthy assignee && negb (regex_test EMAIL (to_string assignee)));
      [apply checks_first_throw|].
    apply checks_first_never. repeat never_invalid_step.
Qed.

Lemma checks_first_batch_get (args : BatchGetArgs) (current : JsValue) :
  checks_first (get_work_items_batch remote API_VERSION args current).
Proof.
  unfold get_work_items_batch.
  destruct (batch_ids args) as [| | | | |ids|]; try apply checks_first_throw.
  destruct (Z.of_nat (List.length ids) =? 0); [apply checks_first_throw|].
  destruct (200 <? Z.of_nat (List.length ids)); [apply checks_first_throw|].
  apply checks_first_never. unfold batch_summary.
  repeat never_invalid_step.
Qed.

Lemma checks_first_batch_update (args : BatchUpdateArgs) (current : JsValue) :
  checks_first (batch_update_work_items remote API_VERSION args current).
Proof.
  unfold batch_update_work_items.
  destruct (batch_operations args) as [| | | | |ops|];
    try apply checks_first_throw.
  destruct (Z.of_nat (List.length ops) =? 0); [apply checks_first_throw|].
  apply checks_first_bind.
  - apply silent_map_indexed. intros i x. apply silent_batch_request.
  - intros batchRequests. apply checks_first_never.
    repeat never_invalid_step.
Qed.

Lemma checks_first_upload (fuel : nat) (args : UploadArgs) (current : JsValue) :
  checks_first (upload_work_item_attachment remote API_VERSION fuel args current).
Proof.
  unfold upload_work_item_attachment.
  destruct (negb (is_number (upload_workItemId args))
            || negb (truthy (upload_fileName args))
            || negb (truthy (upload_fileContentBase64 args)));
    [apply checks_first_throw|].
  apply checks_first_bind; [apply silent_Buffer_from_checked|].
  intros fileBuffer. apply checks_first_never.
  apply never_invalid_bind.
  - destruct (num_leb (num_of_Z (Z.of_nat (List.length fileBuffer)))
                (chunkThreshold_of args));
      [unfold standard_upload|unfold chunked_upload];
      repeat never_invalid_step.
  - intros attachment. repeat never_invalid_step.
Qed.

Lemma checks_first_link_commit (args : LinkCommitArgs) (current : JsValue) :
  checks_first (link_commit_to_work_item remote API_VERSION args current).
Proof.
  unfold link_commit_to_work_item.
  destruct (negb (is_number (link_workItemId args))
            || negb (truthy (link_commitSha args))
            || negb (truthy (link_repositoryName args)));
    [apply checks_first_throw|].
  apply checks_first_bind; [apply silent_get|]. intros len.
  destruct (is_not_40 len); [apply checks_first_throw|].
  apply checks_first_never. repeat never_invalid_step.
  unfold substring_0_7.
  destruct (link_commitSha args); repeat never_invalid_step.
Qed.

Lemma checks_first_list_attachments (args : ListAttachmentsArgs)
    (current : JsValue) :
  checks_first (list_work_item_attachments remote API_VERSION args current).
Proof.
  unfold list_work_item_attachments.
  destruct (negb (is_number (attachments_workItemId args)));
    [apply checks_first_throw|].
  apply checks_first_never.
  repeat first
    [ apply never_invalid_is_attached_file
    | apply never_invalid_attachment_info
    | never_invalid_step ].
  match goal with |- never_invalid (if ?c then _ else _) => destruct c end;
    apply never_invalid_ret.
Qed.

Lemma call_checks_first {A} (name : jstring) (handler : JsValue -> M A)
    (w : World) :
  ready w ->
  checks_first (handler (projectName w)) ->
  reports_invalid (fst (CallToolRequest remote API_VERSION name handler w))
  = true ->
  snd (CallToolRequest remote API_VERSION name handler w) = w.
Proof.
  intros Hready Hhandler.
  rewrite CallToolRequest_ready by exact Hready.
  specialize (Hhandler w).
  destruct (handler (projectName w) w) as [[a|e|] w1]; simpl in *;
    try discriminate.
  exact Hhandler.
Qed.

(** X19.  No tool reports invalid arguments after it has contacted the
    service: when a call of [create_work_item], [update_work_item],
    [get_work_items_batch], [batch_update_work_items],
    [upload_work_item_attachment], [link_commit_to_work_item] or
    [list_work_item_attachments] ends in an error with the code
    [InvalidParams], no request has been sent.  Whatever the service replies
    or refuses is reported with another code. *)
Theorem invalid_params_before_any_request (w : World) :
  ready w ->
  (forall args,
     reports_invalid (fst (call_create_work_item remote API_VERSION args w))
     = true ->
     snd (call_create_work_item remote API_VERSION args w) = w)
  /\ (forall args,
        reports_invalid (fst (call_update_work_item remote API_VERSION args w))
        = true ->
        snd (call_update_work_item remote API_VERSION args w) = w)
  /\ (forall args,
        reports_invalid
          (fst (call_get_work_items_batch remote API_VERSION args w)) = true ->
        snd (call_get_work_items_batch remote API_VERSION args w) = w)
  /\ (forall args,
        reports_invalid
          (fst (call_batch_update_work_items remote API_VERSION args w))
        = true ->
        snd (call_batch_update_work_items remote API_VERSION args w) = w)
  /\ (forall fuel args,
        reports_invalid
          (fst (call_upload_work_item_attachment remote API_VERSION fuel args w))
        = true ->
        snd (call_upload_work_item_attachment remote API_VERSION fuel args w)
        = w)
  /\ (forall args,
        reports_invalid
          (fst (call_link_commit_to_work_item remote API_VERSION args w))
        = true ->
        snd (call_link_commit_to_work_item remote API_VERSION args w) = w)
  /\ (forall args,
        reports_invalid
          (fst (call_list_work_item_attachments remote API_VERSION args w))
        = true ->
        snd (call_list_work_item_attachments remote API_VERSION args w) = w).
Proof.
  intros Hready.
  repeat split; intros; apply call_checks_first; try assumption.
  - apply checks_first_create.
  - apply checks_first_update.
  - apply checks_first_batch_get.
  - apply checks_first_batch_update.
  - apply checks_first_upload.
  - apply checks_first_link_commit.
  - apply checks_first_list_attachments.
Qed.

End ChecksFirst.

(* ================================================================== *)
(** * [update_work_item]: the outcomes of the checks *)

Section UpdateOutcomes.

Context {host : Host}.
Variable remote : Remote.
Variable API_VERSION : jstring.

(** X20.  [update_work_item] with a numeric id.  Updates that are [null]
    pass the test on their type and make [Object.keys] fail: the error
    reported is an [InternalError], not [InvalidParams].  Updates that are
    not of type object, or have no key, are refused with [InvalidParams].
    In both cases nothing is sent.  Updates with a key and an assignee that
    is absent or an e-mail address give exactly one [PATCH]: a [replace] per
    key, in the order of the keys, followed by the comment as
    [System.History] when there is one. *)
Theorem update_work_item_outcomes (args : UpdateArgs) (w : World) :
  ready w ->
  is_number (update_id args) = true ->
  let run := call_update_work_item remote API_VERSION args w in
  let updates := update_updates args in
  let assignee := optional updates (js "System.AssignedTo") in
  let request :=
    mkRequest PATCH
      (js "/" ++ encode (projectName w) ++ js "/_apis/wit/workitems/"
       ++ to_string (update_id args) ++ js "?api-version=" ++ API_VERSION)
      (Json (JArr
         (field_patches "replace" updates
          ++ (if truthy (update_comment args)
              then [add_field "/fields/System.History" (update_comment args)]
              else []))))
      JSON_PATCH in
  (updates = JNull ->
     run = (Throw (McpError InternalError
                     (js "執行工具 " ++ js "update_work_item"
                      ++ js " 時發生錯誤: " ++ type_error_message)),
            w))
  /\ (is_object updates = false
      \/ (nullish updates = false /\ entries updates = []) ->
      run = (Throw (tool_error (js "update_work_item")
                      (McpError InvalidParams
                         (js "缺少或無效的參數: id (數字) 和 updates (非空物件)"))),
             w))
  /\ (is_object updates = true ->
      nullish updates = false ->
      entries updates <> [] ->
      truthy assignee = false
      \/ regex_test EMAIL (to_string assignee) = true ->
      snd run = sending w [request]
      /\ forall data,
           remote (sent w) request = Replied data ->
           fst run = Ret (js "成功更新 Work Item " ++ to_string (update_id args))).
Proof.
  intros Hready Hid run updates assignee request.
  unfold run, call_update_work_item.
  rewrite CallToolRequest_ready by exact Hready.
  unfold update_work_item. rewrite Hid. change (negb true) with false.
  cbv iota. fold updates. split; [|split].
  - intros Hnull. rewrite Hnull. reflexivity.
  - intros [Htype|[Hnull Hempty]].
    + rewrite Htype. reflexivity.
    + destruct (is_object updates); [|reflexivity].
      change (negb true) with false. cbv iota.
      unfold keys_length. rewrite Hnull, Hempty. reflexivity.
  - intros Htype Hnull Hkeys Hassignee. rewrite Htype.
    change (negb true) with false. cbv iota.
    unfold keys_length. rewrite Hnull. rewrite !bind_ret_l.
    destruct (Z.eqb_spec (Z.of_nat (List.length (entries updates))) 0)
      as [E|_];
      [destruct (entries updates); [congruence|discriminate E]|].
    rewrite get_optional by exact Hnull. rewrite bind_ret_l. fold assignee.
    assert (Hvalid : truthy assignee
                     && negb (regex_test EMAIL (to_string assignee)) = false).
    { destruct Hassignee as [-> | ->]; [reflexivity|apply andb_false_r]. }
    rewrite Hvalid. unfold add_field in request. fold request.
    unfold bind. rewrite send_outcome.
    destruct (remote (sent w) request) as [data|message].
    + split; [reflexivity|]. intros data' _. reflexivity.
    + split; [reflexivity|]. intros data' Hdata. discriminate Hdata.
Qed.

End UpdateOutcomes.

(* ================================================================== *)
(** * A chunked upload stops at the first request that fails *)

Lemma all_answered_stops (remote : Remote) (new : list Request) :
  forall history,
    all_answered remote history new -> stops_at_rejection remote history new.
Proof.
  induction new as [|r rest IH]; intros history H; [exact I|].
  destruct H as [Hr Hrest]. split; [right; exact Hr|apply IH; exact Hrest].
Qed.

Lemma all_answered_app (remote : Remote) (a b : list Request) :
  forall history,
    all_answered remote history a ->
    all_answered remote (history ++ a) b ->
    all_answered remote history (a ++ b).
Proof.
  induction a as [|r a IH]; intros history Ha Hb.
  - rewrite app_nil_r in Hb. exact Hb.
  - destruct Ha as [Hr Ha]. split; [exact Hr|].
    apply IH; [exact Ha|]. rewrite <- app_assoc. exact Hb.
Qed.

Lemma stops_at_rejection_app (remote : Remote) (a b : list Request) :
  forall history,
    all_answered remote history a ->
    stops_at_rejection remote (history ++ a) b ->
    stops_at_rejection remote history (a ++ b).
Proof.
  induction a as [|r a IH]; intros history Ha Hb.
  - rewrite app_nil_r in Hb. exact Hb.
  - destruct Ha as [Hr Ha]. split; [right; exact Hr|].
    apply IH; [exact Ha|]. rewrite <- app_assoc. exact Hb.
Qed.

Lemma fail_fast_silent {A} (remote : Remote) (m : M A) :
  silent m -> fail_fast remote m.
Proof.
  intros Hm w. exists []. rewrite Hm, app_nil_r.
  split; [reflexivity|]. split; [exact I|]. intros a _. exact I.
Qed.

Lemma fail_fast_send (remote : Remote) (r : Request) :
  fail_fast remote (send remote r).
Proof.
  intros w. exists [r]. rewrite send_outcome. split; [reflexivity|].
  split; [split; [left; reflexivity|exact I]|].
  intros a Ha. simpl in Ha.
  destruct (remote (sent w) r) as [data|message] eqn:Hr;
    [|discriminate Ha].
  split; [exists data; exact Hr|exact I].
Qed.

Lemma fail_fast_bind {A B} (remote : Remote) (m : M A) (k : A -> M B) :
  fail_fast remote m -> (forall a, fail_fast remote (k a)) ->
  fail_fast remote (bind m k).
Proof.
  intros Hm Hk w. unfold bind.
  destruct (Hm w) as (new & Hsent & Hstops & Hret).
  destruct (m w) as [[a|e|] w1]; cbn [fst snd] in *.
  - destruct (Hk a w1) as (new' & Hsent' & Hstops' & Hret').
    specialize (Hret a eq_refl). rewrite Hsent in Hsent', Hstops', Hret'.
    exists (new ++ new'). rewrite Hsent', app_assoc.
    split; [reflexivity|]. split.
    + apply stops_at_rejection_app; assumption.
    + intros b Hb. apply all_answered_app; [assumption|]. apply (Hret' b Hb).
  - exists new. split; [exact Hsent|]. split; [exact Hstops|].
    intros a Ha. discriminate Ha.
  - exists new. split; [exact Hsent|]. split; [exact Hstops|].
    intros a Ha. discriminate Ha.
Qed.

Section UploadAbort.

Context {host : Host}.
Variable remote : Remote.
Variable API_VERSION : jstring.

Lemma fail_fast_upload_chunks (url : jstring) (buf : Buffer) (chunkSize : Num)
    (fuel : nat) :
  forall start,
    fail_fast remote (upload_chunks remote fuel url buf chunkSize start).
Proof.
  induction fuel as [|fuel IH]; intros start; simpl;
    destruct (num_ltb start (num_of_Z (Z.of_nat (List.length buf))));
    try (apply fail_fast_silent; intros w; reflexivity).
  apply fail_fast_bind; [apply fail_fast_send|intros _; apply IH].
Qed.

Lemma fail_fast_upload (fuel : nat) (args : UploadArgs) (current : JsValue) :
  fail_fast remote
    (upload_work_item_attachment remote API_VERSION fuel args current).
Proof.
  unfold upload_work_item_attachment.
  destruct (negb (is_number (upload_workItemId args))
            || negb (truthy (upload_fileName args))
            || negb (truthy (upload_fileContentBase64 args)));
    [apply fail_fast_silent; intros w; reflexivity|].
  apply fail_fast_bind;
    [apply fail_fast_silent; apply silent_Buffer_from_checked|].
  intros fileBuffer. apply fail_fast_bind.
  - destruct (num_leb (num_of_Z (Z.of_nat (List.length fileBuffer)))
                (chunkThreshold_of args));
      [unfold standard_upload|unfold chunked_upload];
      repeat first
        [ apply fail_fast_send
        | apply fail_fast_upload_chunks
        | apply fail_fast_silent; apply silent_get
        | apply fail_fast_silent; apply silent_ret
        | apply fail_fast_bind; [|intros ?] ].
  - intros attachment.
    apply fail_fast_bind; [apply fail_fast_send|].
    intros _. apply fail_fast_silent. apply silent_ret.
Qed.

(** However the loop ends, it has sent the requests of the first starts of
    its iterations, in order, and all of them when it ran to its end. *)
Lemma upload_chunks_starts (url : jstring) (buf : Buffer) (chunkSize : Num)
    (fuel : nat) :
  forall (start : Num) (w : World),
    let planned :=
      chunk_starts fuel (Z.of_nat (List.length buf)) chunkSize start in
    exists j,
      snd (upload_chunks remote fuel url buf chunkSize start w)
      = sending w (map (chunk_request url buf chunkSize) (firstn j planned))
      /\ (fst (upload_chunks remote fuel url buf chunkSize start w) = Ret tt ->
          firstn j planned = planned).
Proof.
  induction fuel as [|fuel IH]; intros start w; simpl;
    destruct (num_ltb start (num_of_Z (Z.of_nat (List.length buf)))).
  - exists 0%nat. simpl. rewrite sending_nil.
    split; [reflexivity|discriminate].
  - exists 0%nat. simpl. rewrite sending_nil. split; reflexivity.
  - unfold bind. rewrite send_outcome.
    destruct (remote (sent w) _) as [data|message].
    + destruct (IH (num_add start chunkSize)
                  (sending w [chunk_request url buf chunkSize start]))
        as (j & Hsnd & Hret).
      exists (S j). rewrite Hsnd, sending_sending. simpl.
      split; [reflexivity|].
      intros Hfst. rewrite Hret by exact Hfst. reflexivity.
    + exists 1%nat. simpl. split; [reflexivity|discriminate].
  - exists 0%nat. simpl. rewrite sending_nil. split; reflexivity.
Qed.

(** X14.  A chunked upload, however it ends (returned, failed, or still
    running when the fuel is spent) and whatever the chunk size is, has
    sent a prefix of the sequence "initiate, the chunk requests of the
    iterations of the loop in their order, link": the link request is sent
    only after the request of every iteration.  Every request that is
    followed by another one was accepted by the service: nothing is sent
    after a request that failed. *)
Theorem chunked_upload_sends_a_prefix (fuel : nat) (args : UploadArgs)
    (content : jstring) (w : World) :
  ready w ->
  is_number (upload_workItemId args) = true ->
  truthy (upload_fileName args) = true ->
  upload_fileContentBase64 args = JStr content ->
  nonempty content = true ->
  let fileBuffer := base64_decode content in
  let fileSize := Z.of_nat (List.length fileBuffer) in
  let target := upload_target args (projectName w) in
  num_leb (num_of_Z fileSize) (chunkThreshold_of args) = false ->
  let planned := chunk_starts fuel fileSize (chunkSize_of args) (num_of_Z 0) in
  exists attachmentId j tail,
    let new :=
      [init_request API_VERSION target (upload_fileName args)]
      ++ map (chunk_request (chunk_url API_VERSION target attachmentId)
                fileBuffer (chunkSize_of args)) (firstn j planned)
      ++ tail in
    sent (snd (call_upload_work_item_attachment remote API_VERSION fuel args w))
    = sent w ++ new
    /\ (tail = []
        \/ (firstn j planned = planned
            /\ tail = [link_request API_VERSION (upload_workItemId args)
                         (chunked_attachment_url target attachmentId
                            (upload_fileName args))
                         (upload_comment_text args)]))
    /\ stops_at_rejection remote (sent w) new.
Proof.
  intros Hready Hid Hname Hcontent Htext fileBuffer fileSize target Hbig
    planned.
  assert (Hstructure :
    exists attachmentId j tail,
      sent (snd (call_upload_work_item_attachment remote API_VERSION fuel
                   args w))
      = sent w
        ++ [init_request API_VERSION target (upload_fileName args)]
        ++ map (chunk_request (chunk_url API_VERSION target attachmentId)
                  fileBuffer (chunkSize_of args)) (firstn j planned)
        ++ tail
      /\ (tail = []
          \/ (firstn j planned = planned
              /\ tail = [link_request API_VERSION (upload_workItemId args)
                           (chunked_attachment_url target attachmentId
                              (upload_fileName args))
                           (upload_comment_text args)]))).
  { unfold call_upload_work_item_attachment.
    rewrite CallToolRequest_ready_world by exact Hready.
    rewrite (upload_after_validation remote API_VERSION fuel args content)
      by assumption.
    fold fileBuffer fileSize target. rewrite Hbig.
    unfold bind at 1. unfold chunked_upload. unfold bind at 1.
    rewrite send_outcome.
    destruct (remote (sent w) _) as [data|message];
      [|exists JUndefined, 0%nat, []; simpl;
        split; [reflexivity|left; reflexivity]].
    unfold bind at 1. unfold get.
    destruct (prop data (js "id")) as [attachmentId|];
      [|exists JUndefined, 0%nat, []; simpl;
        split; [reflexivity|left; reflexivity]].
    unfold ret at 1. unfold bind at 1.
    destruct (upload_chunks_starts (chunk_url API_VERSION target attachmentId)
                fileBuffer (chunkSize_of args) fuel (num_of_Z 0)
                (sending w [init_request API_VERSION target
                              (upload_fileName args)]))
      as (j & Hsnd & Hret).
    fold fileSize planned in Hsnd, Hret.
    destruct (upload_chunks remote fuel _ fileBuffer (chunkSize_of args)
                (num_of_Z 0) _) as [[[]|e|] w1]; cbn [fst snd] in Hsnd, Hret;
      subst w1.
    - unfold ret at 1. cbv beta iota. cbn [snd fst].
      unfold bind. rewrite send_outcome, !sending_sending.
      exists attachmentId, j,
        [link_request API_VERSION (upload_workItemId args)
           (chunked_attachment_url target attachmentId (upload_fileName args))
           (upload_comment_text args)].
      split.
      + destruct (remote _ _); reflexivity.
      + right. split; [apply Hret; reflexivity|reflexivity].
    - exists attachmentId, j, []. split; [|left; reflexivity].
      simpl. rewrite app_nil_r, <- app_assoc. reflexivity.
    - exists attachmentId, j, []. split; [|left; reflexivity].
      simpl. rewrite app_nil_r, <- app_assoc. reflexivity. }
  destruct Hstructure as (attachmentId & j & tail & Hsent & Htail).
  exists attachmentId, j, tail. cbv zeta.
  split; [exact Hsent|]. split; [exact Htail|].
  destruct (fail_fast_upload fuel args (projectName w) w)
    as (new & Hnew & Hstops & _).
  unfold call_upload_work_item_attachment in Hsent.
  rewrite CallToolRequest_ready_world in Hsent by exact Hready.
  rewrite Hnew in Hsent. apply app_inv_head in Hsent. subst new.
  exact Hstops.
Qed.

End UploadAbort.

(* ================================================================== *)
(** * The statements above on sample calls *)

Lemma create_work_item_defaults_witness :
  snd (call_create_work_item (host := sample_host) (always attachment_reply)
         (js "7.1") bug_report (started (js "Demo")))
  = sending (started (js "Demo"))
      [mkRequest POST (js "/Demo/_apis/wit/workitems/$Bug?api-version=7.1")
         (Json (JArr
            [add_field "/fields/System.Title" (JStr (js "Crash"));
             add_field "/fields/System.AreaPath" (JStr (js "Demo"));
             add_field "/fields/System.IterationPath" (JStr (js "Demo"));
             add_field "/fields/System.AssignedTo" (JStr (js "a@b.co"))]))
         JSON_PATCH].
Proof.
  refine (eq_trans
            (proj2 (create_work_item_defaults (host := sample_host)
                      (always attachment_reply) (js "7.1") bug_report
                      (started (js "Demo"))
                      (ready_started (js "Demo") eq_refl))
               eq_refl eq_refl eq_refl eq_refl) _).
  vm_compute. reflexivity.
Defined.

Lemma upload_rejects_before_network_witness :
  call_upload_work_item_attachment (host := sample_host)
    (always attachment_reply) (js "7.1") 0 numeric_content_upload
    (started (js "Demo"))
  = (Throw (tool_error (host := sample_host) (js "upload_work_item_attachment")
              (McpError InvalidParams
                 (js "無效的參數: fileContentBase64 無法被解析為 Base64"))),
     started (js "Demo")).
Proof.
  refine (proj2 (upload_rejects_before_network (host := sample_host)
                   (always attachment_reply) (js "7.1") 0
                   numeric_content_upload (started (js "Demo"))
                   (ready_started (js "Demo") eq_refl))
            eq_refl eq_refl (or_introl (ex_intro _ 5 (conj eq_refl _)))).
  discriminate.
Defined.

Lemma chunked_upload_sends_a_prefix_witness :
  let new :=
    [init_request (host := sample_host) (js "7.1") (JStr (js "Demo"))
       (JStr (js "a.bin"));
     sample_chunk [Byte.x00; Byte.x01] "2" "bytes 0-1/5";
     sample_chunk [Byte.x02; Byte.x03] "2" "bytes 2-3/5"] in
  sent (snd (call_upload_work_item_attachment (host := sample_host)
               (failing_at 2) (js "7.1") 3 five_bytes_upload
               (started (js "Demo"))))
  = new
  /\ stops_at_rejection (failing_at 2) [] new.
Proof.
  intros new.
  assert (Hcomputed :
    sent (snd (call_upload_work_item_attachment (host := sample_host)
                 (failing_at 2) (js "7.1") 3 five_bytes_upload
                 (started (js "Demo"))))
    = new) by (vm_compute; reflexivity).
  split; [exact Hcomputed|].
  destruct (chunked_upload_sends_a_prefix (host := sample_host) (failing_at 2)
              (js "7.1") 3 five_bytes_upload (js "AAECAwQ=")
              (started (js "Demo")) (ready_started (js "Demo") eq_refl)
              eq_refl eq_refl eq_refl eq_refl ltac:(vm_compute; reflexivity))
    as (attachmentId & j & tail & Hsent & _ & Hstops).
  rewrite Hcomputed in Hsent. cbn [sent started app] in Hsent, Hstops.
  rewrite <- Hsent in Hstops. exact Hstops.
Defined.

Lemma commit_url_ignores_trailing_slash_witness :
  commit_url (host := sample_host) (js "https://dev.azure.com/org/")
    (JStr (js "Demo")) (JStr (js "repo")) (JStr forty)
  = js "https://dev.azure.com/org/Demo/_git/repo/commit/" ++ forty.
Proof.
  assert (Hno : forall v, js "https://dev.azure.com/org" <> v ++ [SLASH]).
  { intros v H. apply (f_equal (fun l => last l 0%N)) in H.
    rewrite last_last in H. vm_compute in H. discriminate H. }
  destruct (commit_url_ignores_trailing_slash (host := sample_host)
              (js "https://dev.azure.com/org") (JStr (js "Demo"))
              (JStr (js "repo")) (JStr forty) Hno) as [Hsame Hurl].
  refine (eq_trans _ (eq_trans Hsame (eq_trans Hurl _)));
    vm_compute; reflexivity.
Defined.

Lemma link_commit_checks_sha_witness :
  (call_link_commit_to_work_item (host := sample_host) (always JNull)
     (js "7.1") short_sha_call (started (js "Demo"))
   = (Throw (tool_error (host := sample_host) (js "link_commit_to_work_item")
               (McpError InvalidParams
                  (js "無效的參數: commitSha 必須是 40 個字元的 SHA"))),
      started (js "Demo")))
  /\ fst (call_link_commit_to_work_item (host := sample_host) (always JNull)
            (js "7.1") link_commit_call (started (js "Demo")))
     = Ret (js "成功將 Commit 0123456 連結到 Work Item 7").
Proof.
  split.
  - refine (proj1 (link_commit_checks_sha (host := sample_host) (always JNull)
                     (js "7.1") short_sha_call (js "0123abc")
                     (started (js "Demo"))
                     (ready_started (js "Demo") eq_refl) eq_refl eq_refl
                     eq_refl eq_refl) _).
    vm_compute. discriminate.
  - refine (eq_trans
              (proj2 (proj2 (link_commit_checks_sha (host := sample_host)
                               (always JNull) (js "7.1") link_commit_call forty
                               (started (js "Demo"))
                               (ready_started (js "Demo") eq_refl) eq_refl
                               eq_refl eq_refl eq_refl)
                        ltac:(vm_compute; reflexivity))
                 JNull eq_refl) _).
    vm_compute. reflexivity.
Defined.

Lemma list_attachments_of_relations_witness :
  exists text,
    call_list_work_item_attachments (host := sample_host)
      (always two_relations) (js "7.1") list_attachments_call
      (started (js "Demo"))
    = (Ret text,
       sending (started (js "Demo"))
         [mkRequest GET
            (js "/Demo/_apis/wit/workitems/7?$expand=relations&api-version=7.1")
            NoBody []]).
Proof.
  assert (Hall : forall rel, In rel sample_relations ->
            nullish rel = false
            /\ (attached_file rel = true -> has_text_url rel = true)).
  { intros rel [<-|[<-|[]]]; split;
      first [reflexivity|intros _; vm_compute; reflexivity]. }
  eexists.
  refine (eq_trans
            (list_attachments_of_relations (host := sample_host)
               (always two_relations) (js "7.1") list_attachments_call
               two_relations (JArr sample_relations) sample_relations
               (started (js "Demo")) (ready_started (js "Demo") eq_refl)
               eq_refl eq_refl eq_refl eq_refl Hall) _).
  vm_compute. reflexivity.
Defined.

Lemma invalid_params_before_any_request_witness :
  snd (call_link_commit_to_work_item (host := sample_host) (always JNull)
         (js "7.1") short_sha_call (started (js "Demo")))
  = started (js "Demo").
Proof.
  apply (invalid_params_before_any_request (host := sample_host) (always JNull)
           (js "7.1") (started (js "Demo"))
           (ready_started (js "Demo") eq_refl)).
  vm_compute. reflexivity.
Defined.

Lemma update_work_item_outcomes_witness :
  (exists text,
     call_update_work_item (host := sample_host) (always JNull) (js "7.1")
       null_updates (started (js "Demo"))
     = (Throw (McpError InternalError text), started (js "Demo")))
  /\ fst (call_update_work_item (host := sample_host) (always JNull) (js "7.1")
            state_update (started (js "Demo")))
     = Ret (js "成功更新 Work Item 7").
Proof.
  split.
  - eexists.
    exact (proj1 (update_work_item_outcomes (host := sample_host) (always JNull)
                    (js "7.1") null_updates (started (js "Demo"))
                    (ready_started (js "Demo") eq_refl) eq_refl)
             eq_refl).
  - refine (eq_trans
              (proj2 (proj2 (proj2 (update_work_item_outcomes
                                      (host := sample_host) (always JNull)
                                      (js "7.1") state_update
                                      (started (js "Demo"))
                                      (ready_started (js "Demo") eq_refl)
                                      eq_refl))
                        eq_refl eq_refl ltac:(discriminate)
                        (or_introl eq_refl))
                 JNull eq_refl) _).
    vm_compute. reflexivity.
Defined.

Lemma attachment_id_is_last_segment_witness :
  last_segment (js "https://dev.azure.com/org/_apis/wit/attachments/abc-1")
  = js "abc-1".
Proof.
  apply (proj2 (proj2 (attachment_id_is_last_segment
                         (js "https://dev.azure.com/org/_apis/wit/attachments/abc-1")))
           (js "https://dev.azure.com/org/_apis/wit/attachments") (js "abc-1")).
  - vm_compute. reflexivity.
  - vm_compute. intros H.
    repeat (destruct H as [H|H]; [discriminate H|]). exact H.
Defined.
